(** * Three-layer diffusion model (programs 3layer and fit-layer)

    A shallow embedding of the numerical core of the two programs:
    the Laplacian stencil [convolve3] (convo.c), the forward solver
    [calc_diffusion_curve_layer] (model.c of both programs), the
    closed-form homogeneous curve [rti_theory] and its objective
    [calc_mse_rti] (rti-theory.c), the fit objective [calc_mse_fit_layer]
    (fit-layer.c), the set-up of the geometry, the time grid and the
    source array in [main], the offsets of the lines of the output files,
    and the string functions of io.c and extras.c.

    Conventions of the embedding.
    - A C [double] is a real number of [R]: arithmetic is exact, there is
      no rounding, no NaN and no infinity.
    - A C [int] is an integer of [Z]; the programs never rely on overflow.
    - A [double *] is the content of the block it points to, a function
      from offsets to values.  Two arrays are two values, so the
      embedding assumes that distinct array arguments do not overlap,
      which holds at every call site of the sources.  Reads and writes
      outside the allocated block are undefined in C; the theorems carry
      the bounds that keep every access they talk about inside.
    - [for (i = lo; i < hi; i++) body] is [for_loop lo hi body], a fold of
      the body over the state it mutates.
    - [error()] prints a message and calls [exit]; a function that may
      call it returns a [result].
    - A C string is a [string], the characters before the terminating
      NUL; the size of the buffer that receives it is not part of the
      value, the theorems state the lengths. *)

From Stdlib Require Import Ascii String.
From Stdlib Require Import Reals ZArith Lia Lra Psatz Bool List.
Import ListNotations.

Open Scope Z_scope.
Open Scope R_scope.

(** ** Arrays and loops *)

Definition array := Z -> R.

(** [a[k] = v] *)
Definition upd (a : array) (k : Z) (v : R) : array :=
  fun k' => if (k' =? k)%Z then v else a k'.

(** [create_array] of extras.c: every element is set to 0. *)
Definition create_array : array := fun _ => 0.

Fixpoint for_iter {S : Type} (n : nat) (i : Z) (body : Z -> S -> S) (s : S) : S :=
  match n with
  | O => s
  | Datatypes.S n' => for_iter n' (i + 1)%Z body (body i s)
  end.

(** [for (i = lo; i < hi; i++) s = body i s] *)
Definition for_loop {S : Type} (lo hi : Z) (body : Z -> S -> S) (s : S) : S :=
  for_iter (Z.to_nat (hi - lo)) lo body s.

(** Macros of header.h *)
Definition SQR (x : R) : R := x * x.
Definition FALSE : Z := 0%Z.
Definition TRUE : Z := 1%Z.
Definition FARADAY : R := 96485.3399.

(** [INDEX(i,j)] is [(i)*(nr+1)+(j)]; [A(i,j)] and [OUT(i,j)] of convo.c
    are the same with [N] for [nr+1]. *)
Definition INDEX (nr : Z) (i j : Z) : Z := (i * (nr + 1) + j)%Z.

(** [lround] of the C library: the nearest integer, halves away from 0. *)
Definition lround (x : R) : Z :=
  if Rle_dec 0 x then Int_part (x + / 2) else (- Int_part (- x + / 2))%Z.

(** What a function that may call [error()] hands back. *)
Inductive result (E A : Type) : Type :=
| Done (a : A)
| Fatal (e : E).
Arguments Done {E A} a.
Arguments Fatal {E A} e.

(** ** convo.c *)

(** The macros [A(i,j)], which reads [a[(i)*N+(j)]], and [OUT(i,j)], which
    designates [out[(i)*N+(j)]]. *)
Definition A (N : Z) (a : array) (i j : Z) : R := a (i * N + j)%Z.
Definition OUT (N : Z) (i j : Z) : Z := (i * N + j)%Z.

Definition convolve3 (M N : Z) (a : array) (scale1 scale2 : R)
    (invr : array) (out : array) : array :=
  (* inner part *)
  let out := for_loop 1 (M - 1) (fun i out =>
    for_loop 2 (N - 1) (fun j out =>
      upd out (OUT N i j)
        (scale1 * (A N a (i - 1) j
                   + A N a i (j - 1) - 4 * A N a i j + A N a i (j + 1)
                   + A N a (i + 1) j)
         + scale2 * ((- A N a i (j - 1) + A N a i (j + 1)) * invr j))) out) out in
  (* j=1: the r=0 row, L0 rather than L *)
  let out := for_loop 1 (M - 1) (fun i out =>
    upd out (OUT N i 1)
      (scale1 * (A N a (i - 1) 1
                 + 2 * A N a i 0 - 6 * A N a i 1 + 2 * A N a i 2
                 + A N a (i + 1) 1))) out in
  (* j=1, i=0 *)
  let out := upd out (OUT N 0 1)
      (scale1 * (2 * A N a 0 0 - 6 * A N a 0 1 + 2 * A N a 0 2
                 + A N a 1 1)) in
  (* j=1, i=M-1 *)
  let out := upd out (OUT N (M - 1) 1)
      (scale1 * (A N a (M - 2) 1
                 + 2 * A N a (M - 1) 0 - 6 * A N a (M - 1) 1 + 2 * A N a (M - 1) 2)) in
  (* i=0 *)
  let out := for_loop 1 (N - 1) (fun j out =>
    upd out (OUT N 0 j)
      (scale1 * (A N a 0 (j - 1) - 4 * A N a 0 j + A N a 0 (j + 1)
                 + A N a 1 j)
       + scale2 * ((- A N a 0 (j - 1) + A N a 0 (j + 1)) * invr j))) out in
  (* i=M-1 *)
  let out := for_loop 1 (N - 1) (fun j out =>
    upd out (OUT N (M - 1) j)
      (scale1 * (A N a (M - 2) j
                 + A N a (M - 1) (j - 1) - 4 * A N a (M - 1) j + A N a (M - 1) (j + 1))
       + scale2 * ((- A N a (M - 1) (j - 1) + A N a (M - 1) (j + 1)) * invr j))) out in
  (* j=0 *)
  let out := for_loop 1 (M - 1) (fun i out =>
    upd out (OUT N i 0)
      (scale1 * (A N a (i - 1) 0
                 - 4 * A N a i 0 + A N a i 1
                 + A N a (i + 1) 0)
       + scale2 * (A N a i 1 * invr 0%Z))) out in
  (* j=N-1 *)
  let out := for_loop 1 (M - 1) (fun i out =>
    upd out (OUT N i (N - 1))
      (scale1 * (A N a (i - 1) (N - 1)
                 + A N a i (N - 2) - 4 * A N a i (N - 1)
                 + A N a (i + 1) (N - 1))
       + scale2 * (- A N a i (N - 2) * invr (N - 1)%Z))) out in
  (* i=0, j=0 *)
  let out := upd out (OUT N 0 0)
      (scale1 * (- 4 * A N a 0 0 + A N a 0 1
                 + A N a 1 0)
       + scale2 * (A N a 0 1 * invr 0%Z)) in
  (* i=0, j=N-1 *)
  let out := upd out (OUT N 0 (N - 1))
      (scale1 * (A N a 0 (N - 2) - 4 * A N a 0 (N - 1)
                 + A N a 1 (N - 1))
       + scale2 * (- A N a 0 (N - 2) * invr (N - 1)%Z)) in
  (* i=M-1, j=0 *)
  let out := upd out (OUT N (M - 1) 0)
      (scale1 * (A N a (M - 2) 0
                 - 4 * A N a (M - 1) 0 + A N a (M - 1) 1)
       + scale2 * (A N a (M - 1) 1 * invr 0%Z)) in
  (* i=M-1, j=N-1 *)
  let out := upd out (OUT N (M - 1) (N - 1))
      (scale1 * (A N a (M - 2) (N - 1)
                 + A N a (M - 1) (N - 2) - 4 * A N a (M - 1) (N - 1))
       + scale2 * (- A N a (M - 1) (N - 2) * invr (N - 1)%Z)) in
  out.

(** ** model.c: the forward solver

    [calc_diffusion_curve_layer] of 3layer and
    [calc_diffusion_curve_layer_fit_layer] of fit-layer run the same
    statements on the concentration and probe arrays; the first one
    additionally copies the field into a separate image buffer that it
    writes to files, which touches neither array.  The section variables
    are the parameters of the C functions. *)

Inductive error_kind : Type :=
| InvalidConfiguration   (* "Delay start should be < total expt time" *)
| OutOfRangeSample.      (* "adding additional source ..." *)

(** The arrays that the solver allocates, together with the probe array. *)
Record grids : Type := mkGrids {
  st_c : array;      (* concentration *)
  st_c_sr : array;   (* concentration (SR layer) *)
  st_c_sp : array;   (* concentration (SP layer) *)
  st_c_so : array;   (* concentration (SO layer) *)
  st_cb_sr : array;  (* average of rows at SR layer boundary *)
  st_cb_so : array;  (* average of rows at SO layer boundary *)
  st_dc : array;     (* change in concentration *)
  st_dc_sr : array;
  st_dc_sp : array;
  st_dc_so : array;
  st_p : array       (* probe array *)
}.

Section Forward.

Variables (nt nz nr iprobe jprobe iz1 iz2 nolayer : Z).
Variables (dt dr sdelay sduration : R).
Variables (alpha_so theta_so kappa_so : R).
Variables (alpha_sp theta_sp kappa_sp : R).
Variables (alpha_sr theta_sr kappa_sr : R).
Variable (dfree : R).
Variables (t s invr : array).

Definition dstar_so : R := theta_so * dfree.
Definition dstar_sp : R := theta_sp * dfree.
Definition dstar_sr : R := theta_sr * dfree.
Definition const_so1 : R := dstar_so * dt / SQR dr.
Definition const_so2 : R := dstar_so * dt / (2 * dr).
Definition const_sp1 : R := dstar_sp * dt / SQR dr.
Definition const_sp2 : R := dstar_sp * dt / (2 * dr).
Definition const_sr1 : R := dstar_sr * dt / SQR dr.
Definition const_sr2 : R := dstar_sr * dt / (2 * dr).

(** The first [j] loop of the 3-layer branch: the values on the two
    interfaces. *)
Definition interface_values (c : array) (cb : array * array) : array * array :=
  for_loop 0 (nr + 1) (fun j cb =>
    let cb_sr := fst cb in
    let cb_so := snd cb in
    (upd cb_sr j
       ((dstar_sr * alpha_sr * c (INDEX nr iz1 j)
         + dstar_sp * alpha_sp * c (INDEX nr (iz1 + 1) j))
        / (dstar_sr * alpha_sr + dstar_sp * alpha_sp)),
     upd cb_so j
       ((dstar_sp * alpha_sp * c (INDEX nr iz2 j)
         + dstar_so * alpha_so * c (INDEX nr (iz2 + 1) j))
        / (dstar_sp * alpha_sp + dstar_so * alpha_so)))) cb.

(** The second [j] loop: the three layer arrays, each with its
    extrapolated row(s). *)
Definition build_layers (c cb_sr cb_so : array)
    (l : array * array * array) : array * array * array :=
  for_loop 0 (nr + 1) (fun j l =>
    let c_sr := fst (fst l) in
    let c_sp := snd (fst l) in
    let c_so := snd l in
    let c_sr := for_loop 0 (iz1 + 1) (fun i c_sr =>
                  upd c_sr (INDEX nr i j) (c (INDEX nr i j))) c_sr in
    let c_sr := upd c_sr (INDEX nr (iz1 + 1) j)
                  (2 * cb_sr j - c (INDEX nr iz1 j)) in
    let c_sp := upd c_sp (INDEX nr 0 j)
                  (2 * cb_sr j - c (INDEX nr (iz1 + 1) j)) in
    let c_sp := for_loop (iz1 + 1) (iz2 + 1) (fun i c_sp =>
                  upd c_sp (INDEX nr (i - iz1) j) (c (INDEX nr i j))) c_sp in
    let c_sp := upd c_sp (INDEX nr (iz2 - iz1 + 1) j)
                  (2 * cb_so j - c (INDEX nr iz2 j)) in
    let c_so := upd c_so (INDEX nr 0 j)
                  (2 * cb_so j - c (INDEX nr (iz2 + 1) j)) in
    let c_so := for_loop (iz2 + 1) nz (fun i c_so =>
                  upd c_so (INDEX nr (i - iz2) j) (c (INDEX nr i j))) c_so in
    (c_sr, c_sp, c_so)) l.

(** "Update the concentration matrix" of the 3-layer branch. *)
Definition update_layers (c_sr dc_sr c_sp dc_sp c_so dc_so : array)
    (c : array) : array :=
  for_loop 0 (nr + 1) (fun j c =>
    let c := for_loop 0 (iz1 + 1) (fun i c =>
               upd c (INDEX nr i j)
                 (c_sr (INDEX nr i j) + dc_sr (INDEX nr i j))) c in
    let c := for_loop (iz1 + 1) (iz2 + 1) (fun i c =>
               upd c (INDEX nr i j)
                 (c_sp (INDEX nr (i - iz1) j) + dc_sp (INDEX nr (i - iz1) j))) c in
    let c := for_loop (iz2 + 1) nz (fun i c =>
               upd c (INDEX nr i j)
                 (c_so (INDEX nr (i - iz2) j) + dc_so (INDEX nr (i - iz2) j))) c in
    c) c.

(** [for (i=0; i<nz*(nr+1); i++) c[i] += d[i];] used for [dc] in the
    1-layer branch and for the source [s]. *)
Definition add_array (d : array) (c : array) : array :=
  for_loop 0 (nz * (nr + 1)) (fun i c => upd c i (c i + d i)) c.

(** "Model the non-specific clearance" *)
Definition clearance (c : array) : array :=
  for_loop 0 (nr + 1) (fun j c =>
    let c := for_loop 0 (iz1 + 1) (fun i c =>
               upd c (INDEX nr i j) (c (INDEX nr i j) * (1 - kappa_sr * dt))) c in
    let c := for_loop (iz1 + 1) (iz2 + 1) (fun i c =>
               upd c (INDEX nr i j) (c (INDEX nr i j) * (1 - kappa_sp * dt))) c in
    let c := for_loop (iz2 + 1) nz (fun i c =>
               upd c (INDEX nr i j) (c (INDEX nr i j) * (1 - kappa_so * dt))) c in
    c) c.

(** "Set the i=0 row to be the same as the i=2 row" *)
Definition symmetry (c : array) : array :=
  for_loop 0 nz (fun i c => upd c (INDEX nr i 0) (c (INDEX nr i 2))) c.

(** The 3-layer branch of one iteration of the time loop. *)
Definition layer_branch (st : grids) : grids :=
  let c := st_c st in
  let cb := interface_values c (st_cb_sr st, st_cb_so st) in
  let cb_sr := fst cb in
  let cb_so := snd cb in
  let l := build_layers c cb_sr cb_so (st_c_sr st, st_c_sp st, st_c_so st) in
  let c_sr := fst (fst l) in
  let c_sp := snd (fst l) in
  let c_so := snd l in
  let dc_sr := convolve3 (iz1 + 2) (nr + 1) c_sr const_sr1 const_sr2 invr
                 (st_dc_sr st) in
  let dc_sp := convolve3 (iz2 - iz1 + 2) (nr + 1) c_sp const_sp1 const_sp2 invr
                 (st_dc_sp st) in
  let dc_so := convolve3 (nz - iz2) (nr + 1) c_so const_so1 const_so2 invr
                 (st_dc_so st) in
  let c := update_layers c_sr dc_sr c_sp dc_sp c_so dc_so c in
  mkGrids c c_sr c_sp c_so cb_sr cb_so (st_dc st) dc_sr dc_sp dc_so (st_p st).

(** The 1-layer branch. *)
Definition nolayer_branch (st : grids) : grids :=
  let c := st_c st in
  let dc := convolve3 nz (nr + 1) c const_sr1 const_sr2 invr (st_dc st) in
  let c := add_array dc c in
  mkGrids c (st_c_sr st) (st_c_sp st) (st_c_so st) (st_cb_sr st) (st_cb_so st)
          dc (st_dc_sr st) (st_dc_sp st) (st_dc_so st) (st_p st).

(** What one iteration of the time loop does to the concentration once
    the Laplacian has been added: source, clearance, symmetry. *)
Definition finish_step (k : Z) (c : array) : array :=
  let c := if Rlt_dec (t k + dt / 2) (sdelay + sduration)
           then add_array s c else c in
  let c := clearance c in
  symmetry c.

(** The body of the loop over time. *)
Definition time_step (k : Z) (st : grids) : grids :=
  let p := upd (st_p st) k (st_c st (INDEX nr iprobe jprobe)) in
  let st := if (nolayer =? FALSE)%Z then layer_branch st else nolayer_branch st in
  mkGrids (finish_step k (st_c st))
          (st_c_sr st) (st_c_sp st) (st_c_so st) (st_cb_sr st) (st_cb_so st)
          (st_dc st) (st_dc_sr st) (st_dc_sp st) (st_dc_so st) p.

Definition nds : Z := lround (sdelay / dt).

(** The state when the time loop is entered: [c] is a copy of [s], the
    other arrays are fresh, and [p[k] = 0] for [k < nds]. *)
Definition initial_grids (p : array) : grids :=
  let c := for_loop 0 (nz * (nr + 1)) (fun i c => upd c i (s i)) create_array in
  let p := for_loop 0 nds (fun k p => upd p k 0) p in
  mkGrids c create_array create_array create_array create_array create_array
          create_array create_array create_array create_array p.

(** The state when the time loop has run up to, and not including, step
    [khi]. *)
Definition grids_at (khi : Z) (p : array) : grids :=
  for_loop nds khi time_step (initial_grids p).

Definition calc_diffusion_curve_layer_fit_layer (p : array) : result error_kind array :=
  if (nds >=? nt)%Z then Fatal InvalidConfiguration
  else Done (st_p (grids_at nt p)).

End Forward.

(** ** model.c of 3layer

    The same statements on [c] and [p] as
    [calc_diffusion_curve_layer_fit_layer].  When [image_spacing > 0] the
    function also copies [c], mirrored about [r = 0], into the buffer
    [conc_out] and writes it to a file; that reads [c] and writes neither
    [c] nor [p].  The file system is not part of the embedding, so a
    failure to open an image file is not represented. *)
Definition calc_diffusion_curve_layer (nt nz nr iprobe jprobe iz1 iz2 nolayer : Z)
    (dt dr sdelay sduration alpha_so theta_so kappa_so alpha_sp theta_sp kappa_sp
       alpha_sr theta_sr kappa_sr dfree : R)
    (t s invr : array) (image_spacing : R) (p : array) : result error_kind array :=
  calc_diffusion_curve_layer_fit_layer nt nz nr iprobe jprobe iz1 iz2 nolayer
    dt dr sdelay sduration alpha_so theta_so kappa_so alpha_sp theta_sp kappa_sp
    alpha_sr theta_sr kappa_sr dfree t s invr p.

(** ** rti-theory.c

    [erfc] is the complementary error function of the C library. *)

Section RtiTheory.

Variable erfc : R -> R.

Definition rti_theory (nt : Z)
    (spdist samplitude sdelay sduration kappa dfree alpha theta : R)
    (t : array) (p_theory : array) : array :=
  let dstar := theta * dfree in
  let ampl := samplitude / (4 * PI * alpha * dstar * spdist) in
  for_loop 0 nt (fun i p_theory =>
    if Rle_dec (t i) sdelay then
      upd p_theory i 0
    else
      let p_theory :=
        upd p_theory i
          (ampl * erfc (spdist / (2 * sqrt (dstar * (t i - sdelay))))) in
      if Rgt_dec (t i) (sdelay + sduration) then
        upd p_theory i
          (p_theory i
           - ampl * erfc (spdist
                          / (2 * sqrt (dstar * (t i - (sdelay + sduration))))))
      else p_theory) p_theory.

End RtiTheory.

(** ** fit-layer.c: the objective of the fit *)

Record param_struct_type : Type := mkParams {
  ps_nt : Z;
  ps_nd : Z;
  ps_nz : Z;
  ps_nr : Z;
  ps_iprobe : Z;
  ps_jprobe : Z;
  ps_iz1 : Z;
  ps_iz2 : Z;
  ps_nolayer : Z;
  ps_opt_global_kappa : Z;
  ps_dt : R;
  ps_dr : R;
  ps_sd : R;
  ps_st : R;
  ps_alpha_so : R;
  ps_theta_so : R;
  ps_kappa_so : R;
  ps_alpha_sp : R;
  ps_theta_sp : R;
  ps_kappa_sp : R;
  ps_alpha_sr : R;
  ps_theta_sr : R;
  ps_kappa_sr : R;
  ps_minalpha : R;
  ps_maxalpha : R;
  ps_mintheta : R;
  ps_maxtheta : R;
  ps_minkappa : R;
  ps_maxkappa : R;
  ps_dfree : R;
  ps_t : array;
  ps_s : array;
  ps_invr : array;
  ps_t_data : array;
  ps_p_data : array;
  ps_p : array
}.

(** Assignments to members of the struct. *)
Definition set_sp (p : param_struct_type) (a th k : R) : param_struct_type :=
  mkParams
    (ps_nt p) (ps_nd p) (ps_nz p) (ps_nr p) (ps_iprobe p) (ps_jprobe p)
    (ps_iz1 p) (ps_iz2 p) (ps_nolayer p) (ps_opt_global_kappa p) (ps_dt
    p) (ps_dr p) (ps_sd p) (ps_st p) (ps_alpha_so p) (ps_theta_so p)
    (ps_kappa_so p) (a) (th) (k) (ps_alpha_sr p) (ps_theta_sr p)
    (ps_kappa_sr p) (ps_minalpha p) (ps_maxalpha p) (ps_mintheta p)
    (ps_maxtheta p) (ps_minkappa p) (ps_maxkappa p) (ps_dfree p) (ps_t
    p) (ps_s p) (ps_invr p) (ps_t_data p) (ps_p_data p) (ps_p p).

Definition set_kappa_outside (p : param_struct_type) (k_sr k_so : R) : param_struct_type :=
  mkParams
    (ps_nt p) (ps_nd p) (ps_nz p) (ps_nr p) (ps_iprobe p) (ps_jprobe p)
    (ps_iz1 p) (ps_iz2 p) (ps_nolayer p) (ps_opt_global_kappa p) (ps_dt
    p) (ps_dr p) (ps_sd p) (ps_st p) (ps_alpha_so p) (ps_theta_so p)
    (k_so) (ps_alpha_sp p) (ps_theta_sp p) (ps_kappa_sp p) (ps_alpha_sr
    p) (ps_theta_sr p) (k_sr) (ps_minalpha p) (ps_maxalpha p)
    (ps_mintheta p) (ps_maxtheta p) (ps_minkappa p) (ps_maxkappa p)
    (ps_dfree p) (ps_t p) (ps_s p) (ps_invr p) (ps_t_data p) (ps_p_data
    p) (ps_p p).

Definition set_p (p : param_struct_type) (curve : array) : param_struct_type :=
  mkParams
    (ps_nt p) (ps_nd p) (ps_nz p) (ps_nr p) (ps_iprobe p) (ps_jprobe p)
    (ps_iz1 p) (ps_iz2 p) (ps_nolayer p) (ps_opt_global_kappa p) (ps_dt
    p) (ps_dr p) (ps_sd p) (ps_st p) (ps_alpha_so p) (ps_theta_so p)
    (ps_kappa_so p) (ps_alpha_sp p) (ps_theta_sp p) (ps_kappa_sp p)
    (ps_alpha_sr p) (ps_theta_sr p) (ps_kappa_sr p) (ps_minalpha p)
    (ps_maxalpha p) (ps_mintheta p) (ps_maxtheta p) (ps_minkappa p)
    (ps_maxkappa p) (ps_dfree p) (ps_t p) (ps_s p) (ps_invr p)
    (ps_t_data p) (ps_p_data p) (curve).

(** [gsl_vector_get(x, i)] *)
Definition gsl_vector_get (x : array) (i : Z) : R := x i.

(** Writing the candidate into the struct, with the floor on [alpha_sp]
    and [theta_sp] and the propagation of a global kappa. *)
Definition set_fit_parameters (x : array) (p : param_struct_type) : param_struct_type :=
  let p := set_sp p (gsl_vector_get x 0) (gsl_vector_get x 1) (gsl_vector_get x 2) in
  let p := if Rle_dec (ps_alpha_sp p) 0.001
           then set_sp p 0.001 (ps_theta_sp p) (ps_kappa_sp p) else p in
  let p := if Rle_dec (ps_theta_sp p) 0.001
           then set_sp p (ps_alpha_sp p) 0.001 (ps_kappa_sp p) else p in
  if (ps_opt_global_kappa p =? 0)%Z then p
  else set_kappa_outside p (ps_kappa_sp p) (ps_kappa_sp p).

(** The mean squared error between the model curve [p] and the data. *)
Definition curve_mse (nt nd : Z) (p p_data : array) : R :=
  let mse := 0 in
  if (nt >? nd)%Z then
    let index_scale := IZR nt / IZR nd in
    let mse := for_loop 1 nd (fun i mse =>
                 let p_index := lround (IZR i * index_scale) in
                 mse + SQR (p p_index - p_data i)) mse in
    mse / IZR nd
  else
    let index_scale := IZR nd / IZR nt in
    let mse := for_loop 1 nt (fun i mse =>
                 let p_index := lround (IZR i * index_scale) in
                 mse + SQR (p i - p_data p_index)) mse in
    mse / IZR nt.

(** The penalties for parameters out of bounds. *)
Definition add_penalty (p : param_struct_type) (mse : R) : R :=
  let penalty_factor := 10 in
  let mse := if Rlt_dec (ps_alpha_sp p) (ps_minalpha p)
             then mse + (ps_minalpha p - ps_alpha_sp p) * penalty_factor else mse in
  let mse := if Rgt_dec (ps_alpha_sp p) (ps_maxalpha p)
             then mse + (ps_alpha_sp p - ps_maxalpha p) * penalty_factor else mse in
  let mse := if Rlt_dec (ps_theta_sp p) (ps_mintheta p)
             then mse + (ps_mintheta p - ps_theta_sp p) * penalty_factor else mse in
  let mse := if Rgt_dec (ps_theta_sp p) (ps_maxtheta p)
             then mse + (ps_theta_sp p - ps_maxtheta p) * penalty_factor else mse in
  let mse := if Rlt_dec (ps_kappa_sp p) (ps_minkappa p)
             then mse + (ps_minkappa p - ps_kappa_sp p) * penalty_factor else mse in
  let mse := if Rgt_dec (ps_kappa_sp p) (ps_maxkappa p)
             then mse + (ps_kappa_sp p - ps_maxkappa p) * penalty_factor else mse in
  mse.

(** The call of the forward solver with the members of the struct. *)
Definition solve_params (p : param_struct_type) : result error_kind array :=
  calc_diffusion_curve_layer_fit_layer (ps_nt p) (ps_nz p) (ps_nr p)
    (ps_iprobe p) (ps_jprobe p) (ps_iz1 p) (ps_iz2 p)
    (ps_nolayer p) (ps_dt p) (ps_dr p) (ps_sd p) (ps_st p)
    (ps_alpha_so p) (ps_theta_so p) (ps_kappa_so p)
    (ps_alpha_sp p) (ps_theta_sp p) (ps_kappa_sp p)
    (ps_alpha_sr p) (ps_theta_sr p) (ps_kappa_sr p)
    (ps_dfree p) (ps_t p) (ps_s p) (ps_invr p) (ps_p p).

(** Returns the value of the objective and the struct as the call
    leaves it. *)
Definition calc_mse_fit_layer (x : array) (params : param_struct_type)
    : result error_kind (R * param_struct_type) :=
  let nt := ps_nt params in
  let nd := ps_nd params in
  let p := set_fit_parameters x params in
  match solve_params p with
  | Fatal e => Fatal e
  | Done curve =>
      let p := set_p p curve in
      let mse := curve_mse nt nd (ps_p p) (ps_p_data p) in
      Done (add_penalty p mse, p)
  end.

(** ** main: the arrays handed to the solver *)

(** "Array of alpha values" *)
Definition make_alphas (nz nr iz1 iz2 : Z) (alpha_sr alpha_sp alpha_so : R) : array :=
  for_loop 0 (nr + 1) (fun j alphas =>
    let alphas := for_loop 0 (iz1 + 1) (fun i alphas =>
                    upd alphas (INDEX nr i j) alpha_sr) alphas in
    let alphas := for_loop (iz1 + 1) (iz2 + 1) (fun i alphas =>
                    upd alphas (INDEX nr i j) alpha_sp) alphas in
    let alphas := for_loop (iz2 + 1) nz (fun i alphas =>
                    upd alphas (INDEX nr i j) alpha_so) alphas in
    alphas) create_array.

(** "Array of 1/r values, except it is 0 for r=0" *)
Definition make_invr (nr : Z) (dr : R) : array :=
  let invr := create_array in
  let invr := upd invr 0 (1 / dr) in
  let invr := upd invr 1 0 in
  for_loop 2 (nr + 1) (fun j invr => upd invr j (1 / ((IZR j - 1) * dr))) invr.

(** "Calculate source amplitude in mol/s from current and transport
    number" *)
Definition source_amplitude (crnt trn : R) : R := crnt * trn / FARADAY.

(** What a source of strength [samplitude] puts into its cell. *)
Definition source_term (alphas : array) (nr isource jsource : Z)
    (samplitude dt dr dz : R) : R :=
  (1 / alphas (INDEX nr isource jsource))
  * samplitude * dt * 4 / (PI * SQR dr * dz).

(** "Source": the source of the input file. *)
Definition make_source (alphas : array) (nr : Z) (sz sr crnt trn dt dr dz : R) : array :=
  let samplitude := source_amplitude crnt trn in
  let s := create_array in
  let isource := lround (sz / dz) in
  let jsource := (1 + lround (sr / dr))%Z in
  upd s (INDEX nr isource jsource)
    (source_term alphas nr isource jsource samplitude dt dr dz).

Record source_struct_type : Type := mkSource {
  src_sz : R;     (* z-coordinate of additional source *)
  src_sr : R;     (* r-coordinate of additional source *)
  src_crnt : R    (* current of additional source *)
}.

(** One iteration of the loop over the additional sources. *)
Definition add_source (alphas : array) (nz nr : Z) (coord_shift trn dt dr dz : R)
    (src : source_struct_type) (s : array) : result error_kind array :=
  let new_sz := src_sz src + coord_shift in
  let isource := lround (new_sz / dz) in
  let jsource := (1 + lround (src_sr src / dr))%Z in
  let samplitude := source_amplitude (src_crnt src) trn in
  if (isource <? 0)%Z then Fatal OutOfRangeSample
  else if (isource >? nz - 1)%Z then Fatal OutOfRangeSample
  else if (jsource <? 0)%Z then Fatal OutOfRangeSample
  else if (jsource >? nr)%Z then Fatal OutOfRangeSample
  else Done (upd s (INDEX nr isource jsource)
               (s (INDEX nr isource jsource)
                + source_term alphas nr isource jsource samplitude dt dr dz)).

(** "If there are additional sources, add them to the s array" *)
Fixpoint add_sources (alphas : array) (nz nr : Z) (coord_shift trn dt dr dz : R)
    (more_sources : list source_struct_type) (s : array) : result error_kind array :=
  match more_sources with
  | [] => Done s
  | src :: rest =>
      match add_source alphas nz nr coord_shift trn dt dr dz src s with
      | Fatal e => Fatal e
      | Done s' => add_sources alphas nz nr coord_shift trn dt dr dz rest s'
      end
  end.

(** ** model.c of 3layer: the concentration image

    When images are written, the solver copies the field into the buffer
    [conc_out] of [nz] rows and [2*nr - 1] columns, once for [r >= 0] and
    once mirrored, and finds the smallest and the largest value. *)

Definition MIN (x y : R) : R := if Rlt_dec x y then x else y.
Definition MAX (x y : R) : R := if Rgt_dec x y then x else y.

Definition INDEX_FULL_P (nr : Z) (i j : Z) : Z := (i * (2 * nr - 1) + nr + j - 2)%Z.
Definition INDEX_FULL_N (nr : Z) (i j : Z) : Z := (i * (2 * nr - 1) + nr - j)%Z.

Record image : Type := mkImage {
  im_conc_out : array;
  im_conc_min : R;
  im_conc_max : R
}.

Definition copy_image (nz nr : Z) (c : array) (conc_out : array) : image :=
  let conc_max := c 0%Z in
  let conc_min := c 0%Z in
  for_loop 0 (nr + 1) (fun j im =>
    for_loop 0 nz (fun i im =>
      let conc := c (INDEX nr i j) in
      let conc_min := MIN conc (im_conc_min im) in
      let conc_max := MAX conc (im_conc_max im) in
      let conc_out := upd (im_conc_out im) (INDEX_FULL_P nr i j) (c (INDEX nr i j)) in
      let conc_out := upd conc_out (INDEX_FULL_N nr i j) (c (INDEX nr i j)) in
      mkImage conc_out conc_min conc_max) im)
    (mkImage conc_out conc_min conc_max).

(** ** rti-theory.c: the objective of the fit for the apparent parameters *)

Record mse_rti_params_struct_type : Type := mkRtiParams {
  rp_nt : Z;
  rp_spdist : R;
  rp_samplitude : R;
  rp_sdelay : R;
  rp_sduration : R;
  rp_kappa : R;
  rp_dfree : R;
  rp_alpha : R;
  rp_theta : R;
  rp_t : array;
  rp_p_model : array;
  rp_p_theory : array
}.

Section RtiObjective.

Variable erfc : R -> R.

(** Returns the mean squared error and the struct as the call leaves
    it. *)
Definition calc_mse_rti (x : array) (p : mse_rti_params_struct_type)
    : R * mse_rti_params_struct_type :=
  let nt := rp_nt p in
  let alpha := gsl_vector_get x 0 in
  let theta := gsl_vector_get x 1 in
  let alpha := if Rle_dec alpha 0.001 then 0.001 else alpha in
  let theta := if Rle_dec theta 0.001 then 0.001 else theta in
  let p_theory :=
    rti_theory erfc nt (rp_spdist p) (rp_samplitude p) (rp_sdelay p)
      (rp_sduration p) (rp_kappa p) (rp_dfree p) alpha theta (rp_t p)
      (rp_p_theory p) in
  let mse := 0 in
  let mse := for_loop 1 nt (fun i mse =>
               mse + SQR (rp_p_model p i - p_theory i)) mse in
  let mse := mse / IZR nt in
  (mse,
   mkRtiParams (rp_nt p) (rp_spdist p) (rp_samplitude p) (rp_sdelay p)
     (rp_sduration p) (rp_kappa p) (rp_dfree p) alpha theta (rp_t p)
     (rp_p_model p) p_theory).

End RtiObjective.

(** ** main: geometry and time grid (3layer.c and fit-layer.c) *)

Inductive setup_error : Type :=
| LayerTooThin                 (* "Layer has too few discrete steps to continue." *)
| NtScaleZero                  (* "nt_scale = 0" *)
| NtScaleNegative              (* "nt_scale < 0" *)
| DelayNotBelowTmax            (* "Source delay (%f) should be < tmax (%f)" *)
| DurationNotBelowTmax         (* "Source duration (%f) should be < tmax (%f)" *)
| DelayDurationNotBelowTmax.   (* "Source delay (%f) + duration (%f) should be < tmax (%f)" *)

Definition SMALLNUM : R := 2.2204460492503131e-16.
Definition IS_ZERO (x : R) : Z := if Rlt_dec (Rabs x) SMALLNUM then TRUE else FALSE.

(** [round(x)] of the C library, as a [double]. *)
Definition round (x : R) : R := IZR (lround x).

(** The conversion [(long) x]: the fraction is dropped. *)
Definition truncate (x : R) : Z :=
  if Rle_dec 0 x then Int_part x else (- Int_part (- x))%Z.

Record geometry : Type := mkGeometry {
  ge_rmax : R;
  ge_zmax : R;
  ge_coord_shift : R;
  ge_sz : R;
  ge_pz : R;
  ge_pr : R;
  ge_lz1 : R;
  ge_lz2 : R;
  ge_dr : R;
  ge_dz : R;
  ge_iz1 : Z;
  ge_iz2 : Z
}.

(** "Change coordinates", "Discretization intervals in r, z", "Layer
    geometry" and the check of the layer thickness.  The two programs
    differ in one place: 3layer has [(int) round(lz / dz)] for the rows of
    the interfaces and fit-layer has [(long) (lz / dz)]; [layer_row] is
    that conversion. *)
Definition geometry_setup (layer_row : R -> Z) (specified_ez1 nolayer nr nz : Z)
    (rmax zmax ez1 ez2 lz1 lz2 pz pr : R) : result setup_error geometry :=
  let zmax := if (specified_ez1 =? 0)%Z then zmax else ez2 + (- ez1) in
  let coord_shift :=
    if (specified_ez1 =? 0)%Z then (zmax - (lz1 + lz2)) / 2 else - ez1 in
  let sz := coord_shift in
  let pz := pz + coord_shift in
  let lz1 := lz1 + coord_shift in
  let lz2 := lz2 + coord_shift in
  let dr := rmax / IZR nr in
  let dz := zmax / IZR nz in
  let adjust := if Rgt_dec (Rabs (dr - dz)) 1.0e-15 then true else false in
  let rmax := if adjust then dz * IZR nr else rmax in
  let dr := if adjust then dz else dr in
  let sz := round (sz / dz) * dz in
  let pz := round (pz / dz) * dz in
  let pr := round (pr / dr) * dr in
  let iz1 := layer_row (lz1 / dz) in
  let lz1 := IZR iz1 * dz + dz / 2 in
  let iz2 := layer_row (lz2 / dz) in
  let lz2 := IZR iz2 * dz + dz / 2 in
  if ((iz2 - iz1 <? 2)%Z && (nolayer =? 0)%Z)%bool then Fatal LayerTooThin
  else Done (mkGeometry rmax zmax coord_shift sz pz pr lz1 lz2 dr dz iz1 iz2).

Definition geometry_3layer := geometry_setup lround.
Definition geometry_fit_layer := geometry_setup truncate.

(** "D*" *)
Definition dstar_max (theta_so theta_sp theta_sr dfree : R) : R :=
  let dstar_max := MAX (dstar_so theta_so dfree) (dstar_sp theta_sp dfree) in
  MAX dstar_max (dstar_sr theta_sr dfree).

(** "Calculate time step from nt or from von Neumann criterion" and
    "Scale nt if the user specified to do so". *)
Definition time_step_size (specified_nt specified_nt_scale nt : Z)
    (tmax dr dstar_max nt_scale : R) : result setup_error R :=
  let dt := if (specified_nt =? TRUE)%Z then tmax / IZR nt
            else 0.9 * dr * dr / (6.0 * dstar_max) in
  if (specified_nt_scale =? TRUE)%Z then
    if (IS_ZERO nt_scale =? 0)%Z then
      if Rlt_dec nt_scale 0 then Fatal NtScaleNegative
      else Done (dt / nt_scale)
    else Fatal NtScaleZero
  else Done dt.

Record time_grid : Type := mkTimeGrid {
  tg_nt : Z;
  tg_tmax : R;
  tg_ns : Z;
  tg_sduration : R;
  tg_nds : Z;
  tg_sdelay : R
}.

(** "Round off tmax, sduration, and sdelay to multiples of dt" and the
    three checks that follow. *)
Definition round_times (dt tmax sduration sdelay : R) : result setup_error time_grid :=
  let nt := lround (tmax / dt) in
  let tmax := dt * IZR nt in
  let ns := lround (sduration / dt) in
  let sduration := dt * IZR ns in
  let nds := lround (sdelay / dt) in
  let sdelay := dt * IZR nds in
  if Rge_dec sdelay tmax then Fatal DelayNotBelowTmax
  else if Rge_dec sduration tmax then Fatal DurationNotBelowTmax
  else if Rge_dec (sdelay + sduration) tmax then Fatal DelayDurationNotBelowTmax
  else Done (mkTimeGrid nt tmax ns sduration nds sdelay).

(** "Time and probe arrays": [t[k] = dt * k]. *)
Definition make_t (nt : Z) (dt : R) : array :=
  for_loop 0 nt (fun k t => upd t k (dt * IZR k)) create_array.

(** ** main: the rows of the output file

    "Print concentration arrays to output file": the offsets into the
    model arrays and, for fit-layer, into the data arrays, one pair for
    each line.  The division of two non-negative [int]s is [Z.quot]. *)
Definition output_rows_fit_layer (nt nd : Z) : list (Z * Z) :=
  if (nt >? 1000)%Z then
    for_loop 0 1000 (fun i rows =>
      let k := Z.quot (i * nt) 1000 in
      let l := Z.quot (i * nd) 1000 in
      rows ++ [(k, l)]) []
  else
    for_loop 0 nt (fun i rows => rows ++ [(i, i)]) [].

Definition output_rows_3layer (nt : Z) : list Z :=
  if (nt >? 1000)%Z then
    for_loop 0 1000 (fun i rows =>
      let k := Z.quot (i * nt) 1000 in
      rows ++ [k]) []
  else
    for_loop 0 nt (fun i rows => rows ++ [i]) [].

(** ** io.c and extras.c: file names and the command line

    A C string is the list of its characters before the terminating
    NUL.  [FILENAME_MAX] is a constant of the C library. *)

Inductive io_error : Type :=
| FilenameTooLong.   (* "Filename length is too long" *)

Definition MAX_COMMAND_LENGTH : Z := 1000%Z.

Definition strlen (s : string) : Z := Z.of_nat (String.length s).

Section FileNames.

Variable FILENAME_MAX : Z.

Definition get_filename (in_ : string) : result io_error string :=
  if (strlen in_ <? FILENAME_MAX - 4)%Z then Done in_
  else Fatal FilenameTooLong.

(** [check_filename] of fit-layer has the body of [get_filename]. *)
Definition check_filename (in_ : string) : result io_error string :=
  if (strlen in_ <? FILENAME_MAX - 4)%Z then Done in_
  else Fatal FilenameTooLong.

(** [index(s, '.')]: the characters before the first ['.'] when there is
    one. *)
Fixpoint before_dot (s : string) : option string :=
  match s with
  | EmptyString => None
  | String ch rest =>
      if Ascii.eqb ch "."%char then Some EmptyString
      else match before_dot rest with
           | Some pre => Some (String ch pre)
           | None => None
           end
  end.

(** Returns [(infilename, outfilename)]. *)
Definition get_io_filenames (argstring inf_extension outf_extension : string)
    : result io_error (string * string) :=
  match get_filename argstring with
  | Fatal e => Fatal e
  | Done infilename =>
      let outfilename := infilename in
      match before_dot outfilename with
      | None =>
          Done (String.append infilename inf_extension,
                String.append outfilename outf_extension)
      | Some pre => Done (infilename, String.append pre outf_extension)
      end
  end.

End FileNames.

(** The loop of [assemble_command] from argument [i] on; leaving the
    recursion with ["..."] appended is the [break]. *)
Fixpoint assemble_rest (args : list string) (i length : Z) (command : string)
    : Z * string :=
  match args with
  | [] => (i, command)
  | arg :: rest =>
      let length := (length + (strlen arg + 1))%Z in
      if (length >? MAX_COMMAND_LENGTH)%Z then
        (i, String.append command "...")
      else
        assemble_rest rest (i + 1)%Z length
          (String.append (String.append command arg) " ")
  end.

(** [argv] is [argv0 :: args] and [argc] is its length.  Returns the
    value of [i] and the string left in [command]. *)
Definition assemble_command (argv0 : string) (args : list string) : Z * string :=
  let command := String.append argv0 " " in
  let length := (strlen argv0 + 1)%Z in
  assemble_rest args 1%Z length command.

(** * Properties *)

(** ** Loops and array updates *)

Lemma upd_eq (a : array) (k : Z) (v : R) : upd a k v k = v.
Proof. unfold upd. now rewrite Z.eqb_refl. Qed.

Lemma upd_neq (a : array) (k k' : Z) (v : R) : k' <> k -> upd a k v k' = a k'.
Proof. intros H. unfold upd. apply Z.eqb_neq in H. now rewrite H. Qed.

Lemma for_iter_last {S : Type} (n : nat) (i : Z) (body : Z -> S -> S) (s : S) :
  for_iter (Datatypes.S n) i body s
  = body (i + Z.of_nat n)%Z (for_iter n i body s).
Proof.
  revert i s. induction n as [|n IH]; intros i s.
  - simpl. now rewrite Z.add_0_r.
  - change (for_iter (Datatypes.S (Datatypes.S n)) i body s)
      with (for_iter (Datatypes.S n) (i + 1)%Z body (body i s)).
    rewrite IH. simpl for_iter at 2.
    f_equal. lia.
Qed.

Lemma for_loop_empty {S : Type} (lo hi : Z) (body : Z -> S -> S) (s : S) :
  (hi <= lo)%Z -> for_loop lo hi body s = s.
Proof.
  intros H. unfold for_loop.
  replace (Z.to_nat (hi - lo)) with O by lia. reflexivity.
Qed.

Lemma for_loop_first {S : Type} (lo hi : Z) (body : Z -> S -> S) (s : S) :
  (lo < hi)%Z -> for_loop lo hi body s = for_loop (lo + 1) hi body (body lo s).
Proof.
  intros H. unfold for_loop.
  replace (Z.to_nat (hi - lo)) with (Datatypes.S (Z.to_nat (hi - (lo + 1)))) by lia.
  reflexivity.
Qed.

Lemma for_loop_last {S : Type} (lo hi : Z) (body : Z -> S -> S) (s : S) :
  (lo <= hi)%Z -> for_loop lo (hi + 1) body s = body hi (for_loop lo hi body s).
Proof.
  intros H. unfold for_loop.
  replace (Z.to_nat (hi + 1 - lo)) with (Datatypes.S (Z.to_nat (hi - lo))) by lia.
  rewrite for_iter_last. f_equal. lia.
Qed.

(** The invariant rule. *)
Lemma for_loop_ind {S : Type} (P : Z -> S -> Prop) (lo hi : Z)
    (body : Z -> S -> S) (s : S) :
  (lo <= hi)%Z ->
  P lo s ->
  (forall i s', (lo <= i < hi)%Z -> P i s' -> P (i + 1)%Z (body i s')) ->
  P hi (for_loop lo hi body s).
Proof.
  intros Hle H0 Hstep.
  assert (G : forall n : nat, (lo + Z.of_nat n <= hi)%Z ->
            P (lo + Z.of_nat n)%Z (for_loop lo (lo + Z.of_nat n) body s)).
  { induction n as [|n IH]; intros Hn.
    - rewrite Z.add_0_r, for_loop_empty by lia. exact H0.
    - replace (lo + Z.of_nat (Datatypes.S n))%Z with (lo + Z.of_nat n + 1)%Z by lia.
      rewrite for_loop_last by lia. apply Hstep; [lia | apply IH; lia]. }
  specialize (G (Z.to_nat (hi - lo))).
  replace (lo + Z.of_nat (Z.to_nat (hi - lo)))%Z with hi in G by lia.
  apply G. lia.
Qed.

(** An observation that no iteration changes is not changed by the loop. *)
Lemma for_loop_frame {S V : Type} (get : S -> V) (lo hi : Z)
    (body : Z -> S -> S) (s : S) :
  (forall i s', (lo <= i < hi)%Z -> get (body i s') = get s') ->
  get (for_loop lo hi body s) = get s.
Proof.
  intros H. destruct (Z_le_gt_dec lo hi) as [Hle|Hgt].
  - apply (for_loop_ind (fun _ s' => get s' = get s)); auto.
    intros i s' Hi E. now rewrite H.
  - now rewrite for_loop_empty by lia.
Qed.

(** An observation that exactly one iteration changes, as a function of
    its former value. *)
Lemma for_loop_once {S V : Type} (get : S -> V) (g : V -> V) (i0 lo hi : Z)
    (body : Z -> S -> S) (s : S) :
  (lo <= i0 < hi)%Z ->
  (forall i s', (lo <= i < hi)%Z -> i <> i0 -> get (body i s') = get s') ->
  (forall s', get (body i0 s') = g (get s')) ->
  get (for_loop lo hi body s) = g (get s).
Proof.
  intros Hi Hother Hhit.
  assert (G : get (for_loop lo hi body s)
              = if (hi <=? i0)%Z then get s else g (get s)).
  { apply (for_loop_ind
             (fun i s' => get s' = if (i <=? i0)%Z then get s else g (get s))).
    - lia.
    - destruct (Z.leb_spec lo i0); [reflexivity | lia].
    - intros i s' Hr E. destruct (Z.eq_dec i i0) as [->|Hne].
      + rewrite Hhit, E.
        destruct (Z.leb_spec i0 i0); [|lia].
        destruct (Z.leb_spec (i0 + 1) i0); [lia | reflexivity].
      + rewrite Hother, E by assumption.
        destruct (Z.leb_spec i i0), (Z.leb_spec (i + 1) i0);
          try reflexivity; lia. }
  rewrite G. destruct (Z.leb_spec hi i0); [lia | reflexivity].
Qed.

Lemma loop_skip (lo hi : Z) (body : Z -> array -> array) (o : array) (k : Z) :
  (forall i o', (lo <= i < hi)%Z -> body i o' k = o' k) ->
  for_loop lo hi body o k = o k.
Proof. intros H. now apply (for_loop_frame (fun o' : array => o' k)). Qed.

Lemma loop_mod (i0 : Z) (g : R -> R) (lo hi : Z) (body : Z -> array -> array)
    (o : array) (k : Z) :
  (lo <= i0 < hi)%Z ->
  (forall i o', (lo <= i < hi)%Z -> i <> i0 -> body i o' k = o' k) ->
  (forall o', body i0 o' k = g (o' k)) ->
  for_loop lo hi body o k = g (o k).
Proof. intros. now apply (for_loop_once (fun o' : array => o' k) g i0). Qed.

Lemma loop_hit (i0 : Z) (v : R) (lo hi : Z) (body : Z -> array -> array)
    (o : array) (k : Z) :
  (lo <= i0 < hi)%Z ->
  (forall i o', (lo <= i < hi)%Z -> i <> i0 -> body i o' k = o' k) ->
  (forall o', body i0 o' k = v) ->
  for_loop lo hi body o k = v.
Proof. intros. now apply (loop_mod i0 (fun _ => v)). Qed.

(** Two cells of an [N]-column grid have the same offset only when they
    are the same cell. *)
Lemma OUT_inj (N i j i' j' : Z) :
  (0 <= j < N)%Z -> (0 <= j' < N)%Z ->
  OUT N i j = OUT N i' j' -> i = i' /\ j = j'.
Proof.
  unfold OUT. intros Hj Hj' E.
  assert (i = i') by (destruct (Z.lt_trichotomy i i') as [L|[L|L]]; [nia | exact L | nia]).
  subst. lia.
Qed.

Ltac idx_neq :=
  let H := fresh in intro H; apply OUT_inj in H; lia.

Ltac skip_write :=
  first
    [ rewrite upd_neq by idx_neq
    | rewrite loop_skip
        by (intros;
            first [ apply upd_neq; idx_neq
                  | apply loop_skip; intros; apply upd_neq; idx_neq ]) ].

(** ** What [convolve3] leaves in each cell

    The statements are executed in the order of the source, so the rows
    [i=0] and [i=M-1] are written last at [j=1], after the [L0] kernel. *)

Section Convolve3.

Variables (M N : Z) (a : array) (scale1 scale2 : R) (invr out : array).

Lemma convolve3_inner (i j : Z) :
  (1 <= i <= M - 2)%Z -> (2 <= j <= N - 2)%Z ->
  convolve3 M N a scale1 scale2 invr out (OUT N i j)
  = scale1 * (A N a (i - 1) j
              + A N a i (j - 1) - 4 * A N a i j + A N a i (j + 1)
              + A N a (i + 1) j)
    + scale2 * ((- A N a i (j - 1) + A N a i (j + 1)) * invr j).
Proof.
  intros Hi Hj. unfold convolve3. cbv zeta.
  repeat skip_write.
  apply (loop_hit i); [lia | |].
  - intros i' o' Hi' Hne. apply loop_skip. intros j' o'' Hj'.
    apply upd_neq. idx_neq.
  - intros o'. apply (loop_hit j); [lia | |].
    + intros j' o'' Hj' Hne. apply upd_neq. idx_neq.
    + intros o''. apply upd_eq.
Qed.

Lemma convolve3_axis (i : Z) :
  (3 <= N)%Z -> (1 <= i <= M - 2)%Z ->
  convolve3 M N a scale1 scale2 invr out (OUT N i 1)
  = scale1 * (A N a (i - 1) 1
              + 2 * A N a i 0 - 6 * A N a i 1 + 2 * A N a i 2
              + A N a (i + 1) 1).
Proof.
  intros HN Hi. unfold convolve3. cbv zeta.
  repeat skip_write.
  apply (loop_hit i); [lia | |].
  - intros i' o' Hi' Hne. apply upd_neq. idx_neq.
  - intros o'. apply upd_eq.
Qed.

Lemma convolve3_top (j : Z) :
  (2 <= M)%Z -> (1 <= j <= N - 2)%Z ->
  convolve3 M N a scale1 scale2 invr out (OUT N 0 j)
  = scale1 * (A N a 0 (j - 1) - 4 * A N a 0 j + A N a 0 (j + 1)
              + A N a 1 j)
    + scale2 * ((- A N a 0 (j - 1) + A N a 0 (j + 1)) * invr j).
Proof.
  intros HM Hj. unfold convolve3. cbv zeta.
  repeat skip_write.
  apply (loop_hit j); [lia | |].
  - intros j' o' Hj' Hne. apply upd_neq. idx_neq.
  - intros o'. apply upd_eq.
Qed.

Lemma convolve3_bottom (j : Z) :
  (2 <= M)%Z -> (1 <= j <= N - 2)%Z ->
  convolve3 M N a scale1 scale2 invr out (OUT N (M - 1) j)
  = scale1 * (A N a (M - 2) j
              + A N a (M - 1) (j - 1) - 4 * A N a (M - 1) j
              + A N a (M - 1) (j + 1))
    + scale2 * ((- A N a (M - 1) (j - 1) + A N a (M - 1) (j + 1)) * invr j).
Proof.
  intros HM Hj. unfold convolve3. cbv zeta.
  repeat skip_write.
  apply (loop_hit j); [lia | |].
  - intros j' o' Hj' Hne. apply upd_neq. idx_neq.
  - intros o'. apply upd_eq.
Qed.

Lemma convolve3_left (i : Z) :
  (2 <= N)%Z -> (1 <= i <= M - 2)%Z ->
  convolve3 M N a scale1 scale2 invr out (OUT N i 0)
  = scale1 * (A N a (i - 1) 0
              - 4 * A N a i 0 + A N a i 1
              + A N a (i + 1) 0)
    + scale2 * (A N a i 1 * invr 0%Z).
Proof.
  intros HN Hi. unfold convolve3. cbv zeta.
  repeat skip_write.
  apply (loop_hit i); [lia | |].
  - intros i' o' Hi' Hne. apply upd_neq. idx_neq.
  - intros o'. apply upd_eq.
Qed.

Lemma convolve3_right (i : Z) :
  (2 <= N)%Z -> (1 <= i <= M - 2)%Z ->
  convolve3 M N a scale1 scale2 invr out (OUT N i (N - 1))
  = scale1 * (A N a (i - 1) (N - 1)
              + A N a i (N - 2) - 4 * A N a i (N - 1)
              + A N a (i + 1) (N - 1))
    + scale2 * (- A N a i (N - 2) * invr (N - 1)%Z).
Proof.
  intros HN Hi. unfold convolve3. cbv zeta.
  repeat skip_write.
  apply (loop_hit i); [lia | |].
  - intros i' o' Hi' Hne. apply upd_neq. idx_neq.
  - intros o'. apply upd_eq.
Qed.

Lemma convolve3_top_left :
  (2 <= M)%Z -> (2 <= N)%Z ->
  convolve3 M N a scale1 scale2 invr out (OUT N 0 0)
  = scale1 * (- 4 * A N a 0 0 + A N a 0 1
              + A N a 1 0)
    + scale2 * (A N a 0 1 * invr 0%Z).
Proof.
  intros HM HN. unfold convolve3. cbv zeta.
  repeat skip_write. apply upd_eq.
Qed.

Lemma convolve3_top_right :
  (2 <= M)%Z -> (2 <= N)%Z ->
  convolve3 M N a scale1 scale2 invr out (OUT N 0 (N - 1))
  = scale1 * (A N a 0 (N - 2) - 4 * A N a 0 (N - 1)
              + A N a 1 (N - 1))
    + scale2 * (- A N a 0 (N - 2) * invr (N - 1)%Z).
Proof.
  intros HM HN. unfold convolve3. cbv zeta.
  repeat skip_write. apply upd_eq.
Qed.

Lemma convolve3_bottom_left :
  (2 <= M)%Z -> (2 <= N)%Z ->
  convolve3 M N a scale1 scale2 invr out (OUT N (M - 1) 0)
  = scale1 * (A N a (M - 2) 0
              - 4 * A N a (M - 1) 0 + A N a (M - 1) 1)
    + scale2 * (A N a (M - 1) 1 * invr 0%Z).
Proof.
  intros HM HN. unfold convolve3. cbv zeta.
  repeat skip_write. apply upd_eq.
Qed.

Lemma convolve3_bottom_right :
  (2 <= M)%Z -> (2 <= N)%Z ->
  convolve3 M N a scale1 scale2 invr out (OUT N (M - 1) (N - 1))
  = scale1 * (A N a (M - 2) (N - 1)
              + A N a (M - 1) (N - 2) - 4 * A N a (M - 1) (N - 1))
    + scale2 * (- A N a (M - 1) (N - 2) * invr (N - 1)%Z).
Proof.
  intros HM HN. unfold convolve3. cbv zeta.
  repeat skip_write. apply upd_eq.
Qed.

End Convolve3.

(** ** The stages of one time step *)

Lemma INDEX_OUT (nr i j : Z) : INDEX nr i j = OUT (nr + 1) i j.
Proof. reflexivity. Qed.

Lemma INDEX_inj (nr i j i' j' : Z) :
  (0 <= j <= nr)%Z -> (0 <= j' <= nr)%Z ->
  INDEX nr i j = INDEX nr i' j' -> i = i' /\ j = j'.
Proof. intros Hj Hj'. rewrite !INDEX_OUT. apply OUT_inj; lia. Qed.

Lemma INDEX_range (nz nr i j : Z) :
  (0 <= i < nz)%Z -> (0 <= j <= nr)%Z ->
  (0 <= INDEX nr i j < nz * (nr + 1))%Z.
Proof. unfold INDEX. intros Hi Hj. nia. Qed.

Ltac cell_neq :=
  let H := fresh in intro H; apply INDEX_inj in H; lia.

Ltac skip_cell :=
  first
    [ rewrite upd_neq by cell_neq
    | rewrite loop_skip by (intros; apply upd_neq; cell_neq) ].

Ltac other_column :=
  intros; cbn [fst snd]; repeat skip_cell; reflexivity.

Section Stages.

Variables (nz nr iz1 iz2 : Z).
Variables (dt : R).
Variables (alpha_so theta_so kappa_so : R).
Variables (alpha_sp theta_sp kappa_sp : R).
Variables (alpha_sr theta_sr kappa_sr : R).
Variable (dfree : R).

Lemma interface_values_sr (c : array) (cb : array * array) (j : Z) :
  (0 <= j <= nr)%Z ->
  fst (interface_values nr iz1 iz2 alpha_so theta_so alpha_sp theta_sp
         alpha_sr theta_sr dfree c cb) j
  = (dstar_sr theta_sr dfree * alpha_sr * c (INDEX nr iz1 j)
     + dstar_sp theta_sp dfree * alpha_sp * c (INDEX nr (iz1 + 1) j))
    / (dstar_sr theta_sr dfree * alpha_sr + dstar_sp theta_sp dfree * alpha_sp).
Proof.
  intros Hj. unfold interface_values.
  apply (for_loop_once (fun cb' : array * array => fst cb' j) (fun _ => _) j);
    [lia | |].
  - intros j' cb' Hj' Hne. cbn [fst snd]. apply upd_neq. lia.
  - intros cb'. cbn [fst snd]. apply upd_eq.
Qed.

Lemma interface_values_so (c : array) (cb : array * array) (j : Z) :
  (0 <= j <= nr)%Z ->
  snd (interface_values nr iz1 iz2 alpha_so theta_so alpha_sp theta_sp
         alpha_sr theta_sr dfree c cb) j
  = (dstar_sp theta_sp dfree * alpha_sp * c (INDEX nr iz2 j)
     + dstar_so theta_so dfree * alpha_so * c (INDEX nr (iz2 + 1) j))
    / (dstar_sp theta_sp dfree * alpha_sp + dstar_so theta_so dfree * alpha_so).
Proof.
  intros Hj. unfold interface_values.
  apply (for_loop_once (fun cb' : array * array => snd cb' j) (fun _ => _) j);
    [lia | |].
  - intros j' cb' Hj' Hne. cbn [fst snd]. apply upd_neq. lia.
  - intros cb'. cbn [fst snd]. apply upd_eq.
Qed.

Section BuildLayers.

Variables (c cb_sr cb_so : array) (l : array * array * array).

Local Abbreviation built := (build_layers nz nr iz1 iz2 c cb_sr cb_so l).

Lemma build_layers_sr_row (i j : Z) :
  (0 <= i <= iz1)%Z -> (0 <= j <= nr)%Z ->
  fst (fst built) (INDEX nr i j) = c (INDEX nr i j).
Proof.
  intros Hi Hj. unfold build_layers.
  apply (for_loop_once
           (fun l' : array * array * array => fst (fst l') (INDEX nr i j))
           (fun _ => _) j); [lia | other_column |].
  intros l'. cbn [fst snd]. repeat skip_cell.
  apply (loop_hit i); [lia | |].
  - intros i' o' Hi' Hne. apply upd_neq. cell_neq.
  - intros o'. apply upd_eq.
Qed.

Lemma build_layers_sr_ghost (j : Z) :
  (0 <= j <= nr)%Z ->
  fst (fst built) (INDEX nr (iz1 + 1) j) = 2 * cb_sr j - c (INDEX nr iz1 j).
Proof.
  intros Hj. unfold build_layers.
  apply (for_loop_once
           (fun l' : array * array * array => fst (fst l') (INDEX nr (iz1 + 1) j))
           (fun _ => _) j); [lia | other_column |].
  intros l'. cbn [fst snd]. apply upd_eq.
Qed.

Lemma build_layers_sp_ghost_sr (j : Z) :
  (iz1 <= iz2)%Z -> (0 <= j <= nr)%Z ->
  snd (fst built) (INDEX nr 0 j) = 2 * cb_sr j - c (INDEX nr (iz1 + 1) j).
Proof.
  intros Hz Hj. unfold build_layers.
  apply (for_loop_once
           (fun l' : array * array * array => snd (fst l') (INDEX nr 0 j))
           (fun _ => _) j); [lia | other_column |].
  intros l'. cbn [fst snd]. repeat skip_cell. apply upd_eq.
Qed.

Lemma build_layers_sp_row (i j : Z) :
  (iz1 + 1 <= i <= iz2)%Z -> (0 <= j <= nr)%Z ->
  snd (fst built) (INDEX nr (i - iz1) j) = c (INDEX nr i j).
Proof.
  intros Hi Hj. unfold build_layers.
  apply (for_loop_once
           (fun l' : array * array * array => snd (fst l') (INDEX nr (i - iz1) j))
           (fun _ => _) j); [lia | other_column |].
  intros l'. cbn [fst snd]. repeat skip_cell.
  apply (loop_hit i); [lia | |].
  - intros i' o' Hi' Hne. apply upd_neq. cell_neq.
  - intros o'. apply upd_eq.
Qed.

Lemma build_layers_sp_ghost_so (j : Z) :
  (0 <= j <= nr)%Z ->
  snd (fst built) (INDEX nr (iz2 - iz1 + 1) j) = 2 * cb_so j - c (INDEX nr iz2 j).
Proof.
  intros Hj. unfold build_layers.
  apply (for_loop_once
           (fun l' : array * array * array =>
              snd (fst l') (INDEX nr (iz2 - iz1 + 1) j))
           (fun _ => _) j); [lia | other_column |].
  intros l'. cbn [fst snd]. apply upd_eq.
Qed.

Lemma build_layers_so_ghost (j : Z) :
  (0 <= j <= nr)%Z ->
  snd built (INDEX nr 0 j) = 2 * cb_so j - c (INDEX nr (iz2 + 1) j).
Proof.
  intros Hj. unfold build_layers.
  apply (for_loop_once
           (fun l' : array * array * array => snd l' (INDEX nr 0 j))
           (fun _ => _) j); [lia | other_column |].
  intros l'. cbn [fst snd]. repeat skip_cell. apply upd_eq.
Qed.

Lemma build_layers_so_row (i j : Z) :
  (iz2 + 1 <= i < nz)%Z -> (0 <= j <= nr)%Z ->
  snd built (INDEX nr (i - iz2) j) = c (INDEX nr i j).
Proof.
  intros Hi Hj. unfold build_layers.
  apply (for_loop_once
           (fun l' : array * array * array => snd l' (INDEX nr (i - iz2) j))
           (fun _ => _) j); [lia | other_column |].
  intros l'. cbn [fst snd].
  apply (loop_hit i); [lia | |].
  - intros i' o' Hi' Hne. apply upd_neq. cell_neq.
  - intros o'. apply upd_eq.
Qed.

End BuildLayers.

Section UpdateLayers.

Variables (c_sr dc_sr c_sp dc_sp c_so dc_so c : array).

Local Abbreviation updated :=
  (update_layers nz nr iz1 iz2 c_sr dc_sr c_sp dc_sp c_so dc_so c).

Lemma update_layers_sr (i j : Z) :
  (iz1 <= iz2)%Z -> (0 <= i <= iz1)%Z -> (0 <= j <= nr)%Z ->
  updated (INDEX nr i j) = c_sr (INDEX nr i j) + dc_sr (INDEX nr i j).
Proof.
  intros Hz Hi Hj. unfold update_layers.
  apply (loop_hit j); [lia | intros; repeat skip_cell; reflexivity |].
  intros o. repeat skip_cell.
  apply (loop_hit i); [lia | |].
  - intros i' o' Hi' Hne. apply upd_neq. cell_neq.
  - intros o'. apply upd_eq.
Qed.

Lemma update_layers_sp (i j : Z) :
  (iz1 + 1 <= i <= iz2)%Z -> (0 <= j <= nr)%Z ->
  updated (INDEX nr i j)
  = c_sp (INDEX nr (i - iz1) j) + dc_sp (INDEX nr (i - iz1) j).
Proof.
  intros Hi Hj. unfold update_layers.
  apply (loop_hit j); [lia | intros; repeat skip_cell; reflexivity |].
  intros o. repeat skip_cell.
  apply (loop_hit i); [lia | |].
  - intros i' o' Hi' Hne. apply upd_neq. cell_neq.
  - intros o'. apply upd_eq.
Qed.

Lemma update_layers_so (i j : Z) :
  (iz2 + 1 <= i < nz)%Z -> (0 <= j <= nr)%Z ->
  updated (INDEX nr i j)
  = c_so (INDEX nr (i - iz2) j) + dc_so (INDEX nr (i - iz2) j).
Proof.
  intros Hi Hj. unfold update_layers.
  apply (loop_hit j); [lia | intros; repeat skip_cell; reflexivity |].
  intros o.
  apply (loop_hit i); [lia | |].
  - intros i' o' Hi' Hne. apply upd_neq. cell_neq.
  - intros o'. apply upd_eq.
Qed.

End UpdateLayers.

Lemma add_array_cell (d c : array) (k : Z) :
  (0 <= k < nz * (nr + 1))%Z -> add_array nz nr d c k = c k + d k.
Proof.
  intros Hk. unfold add_array.
  apply (loop_mod k (fun v => v + d k)); [lia | |].
  - intros i o Hi Hne. apply upd_neq. lia.
  - intros o. apply upd_eq.
Qed.

Local Abbreviation cleared c :=
  (clearance nz nr iz1 iz2 dt kappa_so kappa_sp kappa_sr c).

Lemma clearance_sr (c : array) (i j : Z) :
  (iz1 <= iz2)%Z -> (0 <= i <= iz1)%Z -> (0 <= j <= nr)%Z ->
  cleared c (INDEX nr i j) = c (INDEX nr i j) * (1 - kappa_sr * dt).
Proof.
  intros Hz Hi Hj. unfold clearance.
  apply (loop_mod j (fun v => v * (1 - kappa_sr * dt)));
    [lia | intros; repeat skip_cell; reflexivity |].
  intros o. repeat skip_cell.
  apply (loop_mod i (fun v => v * (1 - kappa_sr * dt))); [lia | |].
  - intros i' o' Hi' Hne. apply upd_neq. cell_neq.
  - intros o'. apply upd_eq.
Qed.

Lemma clearance_sp (c : array) (i j : Z) :
  (iz1 + 1 <= i <= iz2)%Z -> (0 <= j <= nr)%Z ->
  cleared c (INDEX nr i j) = c (INDEX nr i j) * (1 - kappa_sp * dt).
Proof.
  intros Hi Hj. unfold clearance.
  apply (loop_mod j (fun v => v * (1 - kappa_sp * dt)));
    [lia | intros; repeat skip_cell; reflexivity |].
  intros o. repeat skip_cell.
  transitivity
    (for_loop 0 (iz1 + 1)
       (fun i0 c0 => upd c0 (INDEX nr i0 j) (c0 (INDEX nr i0 j) * (1 - kappa_sr * dt)))
       o (INDEX nr i j) * (1 - kappa_sp * dt)).
  - apply (loop_mod i (fun v => v * (1 - kappa_sp * dt))); [lia | |].
    + intros i' o' Hi' Hne. apply upd_neq. cell_neq.
    + intros o'. apply upd_eq.
  - now repeat skip_cell.
Qed.

Lemma clearance_so (c : array) (i j : Z) :
  (iz1 <= iz2)%Z -> (iz2 + 1 <= i < nz)%Z -> (0 <= j <= nr)%Z ->
  cleared c (INDEX nr i j) = c (INDEX nr i j) * (1 - kappa_so * dt).
Proof.
  intros Hz Hi Hj. unfold clearance.
  apply (loop_mod j (fun v => v * (1 - kappa_so * dt)));
    [lia | intros; repeat skip_cell; reflexivity |].
  intros o.
  transitivity
    (for_loop (iz1 + 1) (iz2 + 1)
       (fun i0 c0 => upd c0 (INDEX nr i0 j) (c0 (INDEX nr i0 j) * (1 - kappa_sp * dt)))
       (for_loop 0 (iz1 + 1)
          (fun i0 c0 => upd c0 (INDEX nr i0 j) (c0 (INDEX nr i0 j) * (1 - kappa_sr * dt)))
          o) (INDEX nr i j) * (1 - kappa_so * dt)).
  - apply (loop_mod i (fun v => v * (1 - kappa_so * dt))); [lia | |].
    + intros i' o' Hi' Hne. apply upd_neq. cell_neq.
    + intros o'. apply upd_eq.
  - now repeat skip_cell.
Qed.

Lemma symmetry_column_0 (c : array) (i : Z) :
  (2 <= nr)%Z -> (0 <= i < nz)%Z ->
  symmetry nz nr c (INDEX nr i 0) = c (INDEX nr i 2).
Proof.
  intros Hnr Hi. unfold symmetry.
  assert (G : forall hi, (0 <= hi)%Z ->
            let c' := for_loop 0 hi
                        (fun i0 c0 => upd c0 (INDEX nr i0 0) (c0 (INDEX nr i0 2))) c in
            (forall i' j, (0 <= j <= nr)%Z -> (j <> 0 \/ hi <= i')%Z ->
                          c' (INDEX nr i' j) = c (INDEX nr i' j))
            /\ (forall i', (0 <= i' < hi)%Z -> c' (INDEX nr i' 0) = c (INDEX nr i' 2))).
  { intros hi Hhi. cbv zeta.
    apply (for_loop_ind
             (fun h c' =>
                (forall i' j, (0 <= j <= nr)%Z -> (j <> 0 \/ h <= i')%Z ->
                              c' (INDEX nr i' j) = c (INDEX nr i' j))
                /\ (forall i', (0 <= i' < h)%Z -> c' (INDEX nr i' 0) = c (INDEX nr i' 2))));
      [lia | split; [reflexivity | intros; lia] |].
    intros h c' Hh [F S]. split.
    - intros i' j Hj Hc. rewrite upd_neq by cell_neq. apply F; lia.
    - intros i' Hi'. destruct (Z.eq_dec i' h) as [->|Hne].
      + rewrite upd_eq. apply F; lia.
      + rewrite upd_neq by cell_neq. apply S. lia. }
  apply (G nz); lia.
Qed.

Lemma symmetry_other (c : array) (i j : Z) :
  (1 <= j <= nr)%Z -> symmetry nz nr c (INDEX nr i j) = c (INDEX nr i j).
Proof.
  intros Hj. unfold symmetry. now repeat skip_cell.
Qed.

End Stages.

(** ** One time step of the solver *)

Section TimeStep.

Variables (nz nr iprobe jprobe iz1 iz2 nolayer : Z).
Variables (dt dr sdelay sduration : R).
Variables (alpha_so theta_so kappa_so : R).
Variables (alpha_sp theta_sp kappa_sp : R).
Variables (alpha_sr theta_sr kappa_sr : R).
Variable (dfree : R).
Variables (t s invr : array).

Local Abbreviation step :=
  (time_step nz nr iprobe jprobe iz1 iz2 nolayer dt dr sdelay sduration
     alpha_so theta_so kappa_so alpha_sp theta_sp kappa_sp
     alpha_sr theta_sr kappa_sr dfree t s invr).

Local Abbreviation finish :=
  (finish_step nz nr iz1 iz2 dt sdelay sduration kappa_so kappa_sp kappa_sr t s).

Local Abbreviation layered :=
  (layer_branch nz nr iz1 iz2 dt dr alpha_so theta_so alpha_sp theta_sp
     alpha_sr theta_sr dfree invr).

Local Abbreviation homogeneous :=
  (nolayer_branch nz nr dt dr theta_sr dfree invr).

Local Abbreviation state_at :=
  (grids_at nz nr iprobe jprobe iz1 iz2 nolayer dt dr sdelay sduration
     alpha_so theta_so kappa_so alpha_sp theta_sp kappa_sp
     alpha_sr theta_sr kappa_sr dfree t s invr).

Lemma time_step_layered (k : Z) (st : grids) :
  nolayer = FALSE ->
  step k st
  = let st' := layered st in
    mkGrids (finish k (st_c st'))
      (st_c_sr st') (st_c_sp st') (st_c_so st') (st_cb_sr st') (st_cb_so st')
      (st_dc st') (st_dc_sr st') (st_dc_sp st') (st_dc_so st')
      (upd (st_p st) k (st_c st (INDEX nr iprobe jprobe))).
Proof. intros ->. reflexivity. Qed.

Lemma time_step_homogeneous (k : Z) (st : grids) :
  nolayer <> FALSE ->
  step k st
  = let st' := homogeneous st in
    mkGrids (finish k (st_c st'))
      (st_c_sr st') (st_c_sp st') (st_c_so st') (st_cb_sr st') (st_cb_so st')
      (st_dc st') (st_dc_sr st') (st_dc_sp st') (st_dc_so st')
      (upd (st_p st) k (st_c st (INDEX nr iprobe jprobe))).
Proof.
  intros H. unfold time_step. apply Z.eqb_neq in H. now rewrite H.
Qed.

Lemma time_step_finish (k : Z) (st : grids) :
  exists c', st_c (step k st) = finish k c'.
Proof.
  unfold time_step. destruct (nolayer =? FALSE)%Z; eexists; reflexivity.
Qed.

Lemma time_step_probe (k k' : Z) (st : grids) :
  k' <> k -> st_p (step k st) k' = st_p st k'.
Proof. intros H. unfold time_step. cbn [st_p]. now apply upd_neq. Qed.

Lemma finish_step_column_0 (k : Z) (c : array) (i : Z) :
  (2 <= nr)%Z -> (0 <= i < nz)%Z ->
  finish k c (INDEX nr i 0) = finish k c (INDEX nr i 2).
Proof.
  intros Hnr Hi. unfold finish_step.
  rewrite symmetry_column_0 by assumption.
  now rewrite symmetry_other by lia.
Qed.

Lemma grids_at_start (p : array) :
  state_at (nds dt sdelay) p = initial_grids nz nr dt sdelay s p.
Proof. unfold grids_at. now rewrite for_loop_empty by lia. Qed.

Lemma grids_at_next (k : Z) (p : array) :
  (nds dt sdelay <= k)%Z ->
  state_at (k + 1)%Z p = step k (state_at k p).
Proof. intros H. unfold grids_at. now rewrite for_loop_last by lia. Qed.

End TimeStep.

(** ** The Laplacian stencil *)

(** C2.  For a field of [M] rows and [N] columns, [convolve3] leaves in
    each interior cell ([1 <= i <= M-2], [2 <= j <= N-2]) the value
    [scale1*(C[i-1,j] + C[i,j-1] - 4*C[i,j] + C[i,j+1] + C[i+1,j])
     + scale2*(-C[i,j-1] + C[i,j+1])*invr[j]],
    and in each axis cell ([j = 1], [1 <= i <= M-2]) the value
    [scale1*(C[i-1,1] + 2*C[i,0] - 6*C[i,1] + 2*C[i,2] + C[i+1,1])],
    without a first-derivative term.  The axis formula reads column 2, so
    the field has at least three columns. *)
Theorem convolve3_interior_and_axis
    (M N : Z) (a : array) (scale1 scale2 : R) (invr out : array) :
  (forall i j, (1 <= i <= M - 2)%Z -> (2 <= j <= N - 2)%Z ->
     convolve3 M N a scale1 scale2 invr out (OUT N i j)
     = scale1 * (A N a (i - 1) j + A N a i (j - 1) - 4 * A N a i j
                 + A N a i (j + 1) + A N a (i + 1) j)
       + scale2 * ((- A N a i (j - 1) + A N a i (j + 1)) * invr j))
  /\ (forall i, (3 <= N)%Z -> (1 <= i <= M - 2)%Z ->
     convolve3 M N a scale1 scale2 invr out (OUT N i 1)
     = scale1 * (A N a (i - 1) 1 + 2 * A N a i 0 - 6 * A N a i 1
                 + 2 * A N a i 2 + A N a (i + 1) 1)).
Proof.
  split.
  - intros i j Hi Hj. now apply convolve3_inner.
  - intros i HN Hi. now apply convolve3_axis.
Qed.

(** On a 3x4 field whose cell [k] holds [k], at the cells (1,2) and (1,1). *)
Lemma convolve3_interior_and_axis_witness :
  let a := fun k : Z => IZR k in
  let invr := make_invr 3 1 in
  convolve3 3 4 a 1 1 invr create_array (OUT 4 1 2)
  = 1 * (A 4 a 0 2 + A 4 a 1 1 - 4 * A 4 a 1 2 + A 4 a 1 3 + A 4 a 2 2)
    + 1 * ((- A 4 a 1 1 + A 4 a 1 3) * invr 2%Z)
  /\ convolve3 3 4 a 1 1 invr create_array (OUT 4 1 1)
     = 1 * (A 4 a 0 1 + 2 * A 4 a 1 0 - 6 * A 4 a 1 1
            + 2 * A 4 a 1 2 + A 4 a 2 1).
Proof.
  intros a invr. split.
  - apply (proj1 (convolve3_interior_and_axis 3 4 a 1 1 invr create_array) 1%Z 2%Z);
      lia.
  - apply (proj2 (convolve3_interior_and_axis 3 4 a 1 1 invr create_array) 1%Z);
      lia.
Defined.

(** A field that holds [v] in every cell. *)
Lemma convolve3_constant_inner
    (M N : Z) (a : array) (scale1 scale2 : R) (invr out : array) (v : R) (i j : Z) :
  (forall i' j', (0 <= i' < M)%Z -> (0 <= j' < N)%Z -> A N a i' j' = v) ->
  (1 <= i <= M - 2)%Z -> (1 <= j <= N - 2)%Z ->
  convolve3 M N a scale1 scale2 invr out (OUT N i j) = 0.
Proof.
  intros Hc Hi Hj. destruct (Z.eq_dec j 1) as [->|Hne].
  - rewrite convolve3_axis by lia.
    rewrite !Hc by lia. ring.
  - rewrite convolve3_inner by lia.
    rewrite !Hc by lia. ring.
Qed.

(** C3, as the code has it.  On a field that holds the same value [v] in
    every cell, [convolve3] leaves 0 in every cell that is not on an edge
    of the domain ([1 <= i <= M-2], [1 <= j <= N-2]).  On the edges the
    neighbours outside the domain count as 0, and the output is
    [-scale1*v] on the rows [0] and [M-1],
    [-scale1*v + scale2*v*invr[0]] on column [0],
    [-scale1*v - scale2*v*invr[N-1]] on column [N-1], and
    [-2*scale1*v] plus the same first-derivative term in the corners. *)
Theorem convolve3_constant_field
    (M N : Z) (a : array) (scale1 scale2 : R) (invr out : array) (v : R) :
  (forall i j, (0 <= i < M)%Z -> (0 <= j < N)%Z -> A N a i j = v) ->
  (2 <= M)%Z -> (3 <= N)%Z ->
  let lap := convolve3 M N a scale1 scale2 invr out in
  (forall i j, (1 <= i <= M - 2)%Z -> (1 <= j <= N - 2)%Z -> lap (OUT N i j) = 0)
  /\ (forall j, (1 <= j <= N - 2)%Z ->
        lap (OUT N 0 j) = - scale1 * v /\ lap (OUT N (M - 1) j) = - scale1 * v)
  /\ (forall i, (1 <= i <= M - 2)%Z ->
        lap (OUT N i 0) = - scale1 * v + scale2 * v * invr 0%Z
        /\ lap (OUT N i (N - 1)) = - scale1 * v - scale2 * v * invr (N - 1)%Z)
  /\ lap (OUT N 0 0) = - 2 * scale1 * v + scale2 * v * invr 0%Z
  /\ lap (OUT N (M - 1) 0) = - 2 * scale1 * v + scale2 * v * invr 0%Z
  /\ lap (OUT N 0 (N - 1)) = - 2 * scale1 * v - scale2 * v * invr (N - 1)%Z
  /\ lap (OUT N (M - 1) (N - 1)) = - 2 * scale1 * v - scale2 * v * invr (N - 1)%Z.
Proof.
  intros Hc HM HN lap. unfold lap.
  repeat split.
  - intros i j Hi Hj. now apply convolve3_constant_inner with (v := v).
  - rewrite convolve3_top by lia. rewrite !Hc by lia. ring.
  - rewrite convolve3_bottom by lia. rewrite !Hc by lia. ring.
  - rewrite convolve3_left by lia. rewrite !Hc by lia. ring.
  - rewrite convolve3_right by lia. rewrite !Hc by lia. ring.
  - rewrite convolve3_top_left by lia. rewrite !Hc by lia. ring.
  - rewrite convolve3_bottom_left by lia. rewrite !Hc by lia. ring.
  - rewrite convolve3_top_right by lia. rewrite !Hc by lia. ring.
  - rewrite convolve3_bottom_right by lia. rewrite !Hc by lia. ring.
Qed.

(** The field of 3 rows and 4 columns that holds 1 everywhere: the inner
    cell (1,1) gets 0. *)
Lemma convolve3_constant_field_witness :
  convolve3 3 4 (fun _ => 1) (1 / 10) (1 / 20) (make_invr 3 1) create_array
    (OUT 4 1 1) = 0.
Proof.
  apply (proj1 (convolve3_constant_field 3 4 (fun _ => 1) (1 / 10) (1 / 20)
                  (make_invr 3 1) create_array 1
                  (fun _ _ _ _ => eq_refl) ltac:(lia) ltac:(lia)) 1%Z 1%Z); lia.
Defined.

(** C3, as the claim has it, fails: on the same field, with
    [scale1 = 1/10], the cell (0,1) of the top edge gets [-1/10]. *)
Lemma convolve3_constant_field_edge_not_zero :
  ~ (forall i j, (0 <= i < 3)%Z -> (0 <= j < 4)%Z ->
       convolve3 3 4 (fun _ => 1) (1 / 10) (1 / 20) (make_invr 3 1) create_array
         (OUT 4 i j) = 0).
Proof.
  intros H. specialize (H 0%Z 1%Z ltac:(lia) ltac:(lia)).
  rewrite convolve3_top in H by lia.
  unfold A in H. lra.
Qed.

(** ** The stepper *)

Section Stepper.

Variables (nz nr iprobe jprobe iz1 iz2 nolayer : Z).
Variables (dt dr sdelay sduration : R).
Variables (alpha_so theta_so kappa_so : R).
Variables (alpha_sp theta_sp kappa_sp : R).
Variables (alpha_sr theta_sr kappa_sr : R).
Variable (dfree : R).
Variables (t s invr : array).

Local Abbreviation step :=
  (time_step nz nr iprobe jprobe iz1 iz2 nolayer dt dr sdelay sduration
     alpha_so theta_so kappa_so alpha_sp theta_sp kappa_sp
     alpha_sr theta_sr kappa_sr dfree t s invr).

Local Abbreviation state_at :=
  (grids_at nz nr iprobe jprobe iz1 iz2 nolayer dt dr sdelay sduration
     alpha_so theta_so kappa_so alpha_sp theta_sp kappa_sp
     alpha_sr theta_sr kappa_sr dfree t s invr).

(** C1.  In the 3-layer mode, in every time step and for every column
    [j], the value on the SR/SP interface is
    [(D*_sr alpha_sr c[iz1,j] + D*_sp alpha_sp c[iz1+1,j])
     / (D*_sr alpha_sr + D*_sp alpha_sp)], the value on the SP/SO interface
    is the same with SP, SO and [iz2]; each layer array holds the rows of
    its layer and, next to each interface, one extrapolated row whose
    value is twice the interface value minus the nearest row of the
    layer. *)
Theorem interface_values_and_ghost_rows (k : Z) (st : grids) (j : Z) :
  nolayer = FALSE -> (iz1 < iz2)%Z -> (0 <= j <= nr)%Z ->
  let c := st_c st in
  let st' := step k st in
  let cb_sr :=
    (dstar_sr theta_sr dfree * alpha_sr * c (INDEX nr iz1 j)
     + dstar_sp theta_sp dfree * alpha_sp * c (INDEX nr (iz1 + 1) j))
    / (dstar_sr theta_sr dfree * alpha_sr + dstar_sp theta_sp dfree * alpha_sp) in
  let cb_so :=
    (dstar_sp theta_sp dfree * alpha_sp * c (INDEX nr iz2 j)
     + dstar_so theta_so dfree * alpha_so * c (INDEX nr (iz2 + 1) j))
    / (dstar_sp theta_sp dfree * alpha_sp + dstar_so theta_so dfree * alpha_so) in
  st_cb_sr st' j = cb_sr
  /\ st_cb_so st' j = cb_so
  /\ st_c_sr st' (INDEX nr (iz1 + 1) j) = 2 * cb_sr - c (INDEX nr iz1 j)
  /\ st_c_sp st' (INDEX nr 0 j) = 2 * cb_sr - c (INDEX nr (iz1 + 1) j)
  /\ st_c_sp st' (INDEX nr (iz2 - iz1 + 1) j) = 2 * cb_so - c (INDEX nr iz2 j)
  /\ st_c_so st' (INDEX nr 0 j) = 2 * cb_so - c (INDEX nr (iz2 + 1) j)
  /\ (forall i, (0 <= i <= iz1)%Z ->
        st_c_sr st' (INDEX nr i j) = c (INDEX nr i j))
  /\ (forall i, (iz1 + 1 <= i <= iz2)%Z ->
        st_c_sp st' (INDEX nr (i - iz1) j) = c (INDEX nr i j))
  /\ (forall i, (iz2 + 1 <= i < nz)%Z ->
        st_c_so st' (INDEX nr (i - iz2) j) = c (INDEX nr i j)).
Proof.
  intros Hl Hz Hj c st' cb_sr cb_so. unfold st'.
  rewrite time_step_layered by assumption.
  cbv zeta. unfold layer_branch. cbn [st_cb_sr st_cb_so st_c_sr st_c_sp st_c_so].
  repeat split.
  - now apply interface_values_sr.
  - now apply interface_values_so.
  - rewrite build_layers_sr_ghost by assumption.
    now rewrite interface_values_sr by assumption.
  - rewrite build_layers_sp_ghost_sr by lia.
    now rewrite interface_values_sr by assumption.
  - rewrite build_layers_sp_ghost_so by assumption.
    now rewrite interface_values_so by assumption.
  - rewrite build_layers_so_ghost by assumption.
    now rewrite interface_values_so by assumption.
  - intros i Hi. now apply build_layers_sr_row.
  - intros i Hi. now apply build_layers_sp_row.
  - intros i Hi. now apply build_layers_so_row.
Qed.

(** C6.  After every time step, in the 3-layer and in the 1-layer mode,
    column 0 of the concentration equals column 2 in every row.  The
    grid has the columns 0, 1 and 2 ([2 <= nr]). *)
Theorem column_0_mirrors_column_2 (k : Z) (st : grids) (p : array) (i : Z) :
  (2 <= nr)%Z -> (0 <= i < nz)%Z ->
  st_c (step k st) (INDEX nr i 0) = st_c (step k st) (INDEX nr i 2)
  /\ ((nds dt sdelay <= k)%Z ->
      st_c (state_at (k + 1)%Z p) (INDEX nr i 0)
      = st_c (state_at (k + 1)%Z p) (INDEX nr i 2)).
Proof.
  intros Hnr Hi.
  assert (G : forall st0, st_c (step k st0) (INDEX nr i 0)
                          = st_c (step k st0) (INDEX nr i 2)).
  { intros st0. destruct (time_step_finish nz nr iprobe jprobe iz1 iz2 nolayer
        dt dr sdelay sduration alpha_so theta_so kappa_so alpha_sp theta_sp kappa_sp
        alpha_sr theta_sr kappa_sr dfree t s invr k st0) as [c' ->].
    now apply finish_step_column_0. }
  split; [apply G|].
  intros Hk. rewrite grids_at_next by assumption. apply G.
Qed.

End Stepper.

(** A small grid for the examples: 6 rows, columns 0..3, the interfaces
    after rows 1 and 3, the probe in cell (2,1). *)
Local Abbreviation example_step nolayer :=
  (time_step 6 3 2 1 1 3 nolayer (1 / 10) 1 0 1
     (1 / 5) (2 / 5) (1 / 100) (1 / 10) (3 / 10) (1 / 50) (1 / 5) (2 / 5) (1 / 200) 1
     (fun k => IZR k / 10) (fun k => IZR k) (make_invr 3 1)).

Local Abbreviation example_grids :=
  (mkGrids (fun k => IZR k) create_array create_array create_array create_array
     create_array create_array create_array create_array create_array create_array).

Lemma interface_values_and_ghost_rows_witness :
  let c := fun k : Z => IZR k in
  let st' := example_step FALSE 0%Z example_grids in
  st_cb_sr st' 2%Z
  = (dstar_sr (2 / 5) 1 * (1 / 5) * c (INDEX 3 1 2)
     + dstar_sp (3 / 10) 1 * (1 / 10) * c (INDEX 3 2 2))
    / (dstar_sr (2 / 5) 1 * (1 / 5) + dstar_sp (3 / 10) 1 * (1 / 10)).
Proof.
  intros c st'.
  apply (interface_values_and_ghost_rows 6 3 2 1 1 3 FALSE (1 / 10) 1 0 1
           (1 / 5) (2 / 5) (1 / 100) (1 / 10) (3 / 10) (1 / 50) (1 / 5) (2 / 5) (1 / 200) 1
           (fun k => IZR k / 10) (fun k => IZR k) (make_invr 3 1)
           0%Z example_grids 2%Z eq_refl ltac:(lia) ltac:(lia)).
Defined.

Lemma column_0_mirrors_column_2_witness :
  st_c (example_step TRUE 0%Z example_grids) (INDEX 3 4 0)
  = st_c (example_step TRUE 0%Z example_grids) (INDEX 3 4 2).
Proof.
  apply (column_0_mirrors_column_2 6 3 2 1 1 3 TRUE (1 / 10) 1 0 1
           (1 / 5) (2 / 5) (1 / 100) (1 / 10) (3 / 10) (1 / 50) (1 / 5) (2 / 5) (1 / 200) 1
           (fun k => IZR k / 10) (fun k => IZR k) (make_invr 3 1)
           0%Z example_grids create_array 4%Z ltac:(lia) ltac:(lia)).
Defined.

Lemma lround_IZR (z : Z) : lround (IZR z) = z.
Proof.
  unfold lround. destruct (Rle_dec 0 (IZR z)) as [H|H].
  - symmetry. apply Int_part_spec. lra.
  - rewrite <- (Int_part_spec (- IZR z + / 2) (- z)%Z).
    + lia.
    + rewrite opp_IZR. lra.
Qed.

Section Solver.

Variables (nt nz nr iprobe jprobe iz1 iz2 nolayer : Z).
Variables (dt dr sdelay sduration : R).
Variables (alpha_so theta_so kappa_so : R).
Variables (alpha_sp theta_sp kappa_sp : R).
Variables (alpha_sr theta_sr kappa_sr : R).
Variable (dfree : R).
Variables (t s invr : array).

Local Abbreviation step :=
  (time_step nz nr iprobe jprobe iz1 iz2 nolayer dt dr sdelay sduration
     alpha_so theta_so kappa_so alpha_sp theta_sp kappa_sp
     alpha_sr theta_sr kappa_sr dfree t s invr).

Local Abbreviation state_at :=
  (grids_at nz nr iprobe jprobe iz1 iz2 nolayer dt dr sdelay sduration
     alpha_so theta_so kappa_so alpha_sp theta_sp kappa_sp
     alpha_sr theta_sr kappa_sr dfree t s invr).

Local Abbreviation solve_fit_layer :=
  (calc_diffusion_curve_layer_fit_layer nt nz nr iprobe jprobe iz1 iz2 nolayer
     dt dr sdelay sduration alpha_so theta_so kappa_so alpha_sp theta_sp kappa_sp
     alpha_sr theta_sr kappa_sr dfree t s invr).

Local Abbreviation solve_3layer :=
  (calc_diffusion_curve_layer nt nz nr iprobe jprobe iz1 iz2 nolayer
     dt dr sdelay sduration alpha_so theta_so kappa_so alpha_sp theta_sp kappa_sp
     alpha_sr theta_sr kappa_sr dfree t s invr).

(** The time loop leaves the probe array alone below its first step. *)
Lemma probe_before_delay (khi : Z) (p : array) (k : Z) :
  (0 <= k < nds dt sdelay)%Z -> st_p (state_at khi p) k = 0.
Proof.
  intros Hk. unfold grids_at.
  rewrite (for_loop_frame (fun st : grids => st_p st k)).
  - unfold initial_grids. cbn [st_p].
    apply (loop_hit k); [lia | |].
    + intros k' o Hk' Hne. apply upd_neq. lia.
    + intros o. apply upd_eq.
  - intros k' st Hk'. apply time_step_probe. lia.
Qed.

(** C5.  When [lround(sdelay/dt)] is at least the number [nt] of steps,
    the solver of either program stops with the fatal error and runs no
    time step; when it is less than [nt], the solver passes the check and
    the probe curve it returns is 0 at every index below
    [lround(sdelay/dt)]. *)
Theorem source_delay_check (image_spacing : R) (p : array) :
  ((lround (sdelay / dt) >= nt)%Z ->
     solve_fit_layer p = Fatal InvalidConfiguration
     /\ solve_3layer image_spacing p = Fatal InvalidConfiguration)
  /\ ((lround (sdelay / dt) < nt)%Z ->
     exists curve,
       solve_fit_layer p = Done curve
       /\ solve_3layer image_spacing p = Done curve
       /\ forall k, (0 <= k < lround (sdelay / dt))%Z -> curve k = 0).
Proof.
  unfold calc_diffusion_curve_layer, calc_diffusion_curve_layer_fit_layer.
  change (nds dt sdelay) with (lround (sdelay / dt)).
  split; intros H.
  - destruct (Z.geb_spec (lround (sdelay / dt)) nt); [now split | lia].
  - destruct (Z.geb_spec (lround (sdelay / dt)) nt); [lia|].
    eexists. split; [reflexivity | split; [reflexivity|]].
    intros k Hk. now apply probe_before_delay.
Qed.

(** C10.  In the 1-layer mode a time step adds the Laplacian of the whole
    field, computed once with the constants of SR, and then clears each
    cell with the kappa of the layer of its row: rows [0..iz1] are
    multiplied by [1 - kappa_sr*dt], rows [iz1+1..iz2] by
    [1 - kappa_sp*dt] and rows [iz2+1..nz-1] by [1 - kappa_so*dt].
    Stated for the columns [1..nr]; column 0 is a copy of column 2. *)
Theorem homogeneous_step_clears_by_layer (k : Z) (st : grids) (i j : Z) :
  nolayer <> FALSE -> (iz1 <= iz2)%Z -> (0 <= i < nz)%Z -> (1 <= j <= nr)%Z ->
  let c := st_c st in
  let dc := convolve3 nz (nr + 1) c (const_sr1 dt dr theta_sr dfree)
              (const_sr2 dt dr theta_sr dfree) invr (st_dc st) in
  let src := if Rlt_dec (t k + dt / 2) (sdelay + sduration)
             then s (INDEX nr i j) else 0 in
  let diffused := c (INDEX nr i j) + dc (INDEX nr i j) + src in
  ((0 <= i <= iz1)%Z ->
     st_c (step k st) (INDEX nr i j) = diffused * (1 - kappa_sr * dt))
  /\ ((iz1 + 1 <= i <= iz2)%Z ->
     st_c (step k st) (INDEX nr i j) = diffused * (1 - kappa_sp * dt))
  /\ ((iz2 + 1 <= i <= nz - 1)%Z ->
     st_c (step k st) (INDEX nr i j) = diffused * (1 - kappa_so * dt)).
Proof.
  intros Hl Hz Hn Hj c dc src diffused.
  rewrite time_step_homogeneous by assumption.
  cbv zeta. cbn [st_c]. unfold finish_step.
  assert (E : forall i', (0 <= i' < nz)%Z ->
            (if Rlt_dec (t k + dt / 2) (sdelay + sduration)
             then add_array nz nr s (st_c (nolayer_branch nz nr dt dr theta_sr dfree invr st))
             else st_c (nolayer_branch nz nr dt dr theta_sr dfree invr st))
              (INDEX nr i' j)
            = c (INDEX nr i' j) + dc (INDEX nr i' j)
              + (if Rlt_dec (t k + dt / 2) (sdelay + sduration)
                 then s (INDEX nr i' j) else 0)).
  { intros i' Hi'. unfold nolayer_branch. cbn [st_c].
    pose proof (INDEX_range nz nr i' j Hi' ltac:(lia)) as Hr.
    destruct (Rlt_dec (t k + dt / 2) (sdelay + sduration)).
    - now rewrite !add_array_cell by assumption.
    - rewrite add_array_cell by assumption. fold c dc. ring. }
  repeat split.
  - intros Hi. rewrite symmetry_other by assumption.
    rewrite clearance_sr by lia. now rewrite E by lia.
  - intros Hi. rewrite symmetry_other by assumption.
    rewrite clearance_sp by lia. now rewrite E by lia.
  - intros Hi. rewrite symmetry_other by assumption.
    rewrite clearance_so by lia. now rewrite E by lia.
Qed.

End Solver.

Lemma source_delay_check_witness :
  calc_diffusion_curve_layer_fit_layer 2 6 3 2 1 1 3 FALSE (1 / 10) 1 (1 / 5) 1
    (1 / 5) (2 / 5) (1 / 100) (1 / 10) (3 / 10) (1 / 50) (1 / 5) (2 / 5) (1 / 200) 1
    (fun k => IZR k / 10) (fun k => IZR k) (make_invr 3 1) create_array
  = Fatal InvalidConfiguration
  /\ exists curve,
       calc_diffusion_curve_layer_fit_layer 5 6 3 2 1 1 3 FALSE (1 / 10) 1 (1 / 5) 1
         (1 / 5) (2 / 5) (1 / 100) (1 / 10) (3 / 10) (1 / 50) (1 / 5) (2 / 5) (1 / 200) 1
         (fun k => IZR k / 10) (fun k => IZR k) (make_invr 3 1) (fun _ => 7)
       = Done curve
       /\ curve 0%Z = 0 /\ curve 1%Z = 0.
Proof.
  assert (E : lround (1 / 5 / (1 / 10)) = 2%Z).
  { replace (1 / 5 / (1 / 10)) with (IZR 2) by lra. apply lround_IZR. }
  split.
  - apply (proj1 (source_delay_check 2 6 3 2 1 1 3 FALSE (1 / 10) 1 (1 / 5) 1
             (1 / 5) (2 / 5) (1 / 100) (1 / 10) (3 / 10) (1 / 50) (1 / 5) (2 / 5)
             (1 / 200) 1 (fun k => IZR k / 10) (fun k => IZR k) (make_invr 3 1)
             0 create_array)).
    rewrite E. lia.
  - destruct (proj2 (source_delay_check 5 6 3 2 1 1 3 FALSE (1 / 10) 1 (1 / 5) 1
             (1 / 5) (2 / 5) (1 / 100) (1 / 10) (3 / 10) (1 / 50) (1 / 5) (2 / 5)
             (1 / 200) 1 (fun k => IZR k / 10) (fun k => IZR k) (make_invr 3 1)
             0 (fun _ => 7)))
      as (curve & H1 & _ & H3).
    + rewrite E. lia.
    + exists curve. rewrite E in H3.
      split; [exact H1 | split; apply H3; lia].
Defined.

Lemma homogeneous_step_clears_by_layer_witness :
  let c := fun k : Z => IZR k in
  let dc := convolve3 6 4 c (const_sr1 (1 / 10) 1 (2 / 5) 1)
              (const_sr2 (1 / 10) 1 (2 / 5) 1) (make_invr 3 1) create_array in
  let src := if Rlt_dec (IZR 0 / 10 + 1 / 10 / 2) (0 + 1)
             then IZR (INDEX 3 2 1) else 0 in
  st_c (example_step TRUE 0%Z example_grids) (INDEX 3 2 1)
  = (c (INDEX 3 2 1) + dc (INDEX 3 2 1) + src) * (1 - 1 / 50 * (1 / 10)).
Proof.
  intros c dc src.
  apply (homogeneous_step_clears_by_layer 6 3 2 1 1 3 TRUE (1 / 10) 1 0 1
           (1 / 5) (2 / 5) (1 / 100) (1 / 10) (3 / 10) (1 / 50) (1 / 5) (2 / 5)
           (1 / 200) 1 (fun k => IZR k / 10) (fun k => IZR k) (make_invr 3 1)
           0%Z example_grids 2%Z 1%Z);
    unfold TRUE, FALSE; lia.
Defined.

(** ** The homogeneous model *)

Section Homogeneous.

Variable erfc : R -> R.
Variables (nt : Z) (spdist samplitude sdelay sduration kappa dfree alpha theta : R).
Variables (t p_theory : array).

Lemma rti_theory_sample (i : Z) :
  (0 <= i < nt)%Z ->
  rti_theory erfc nt spdist samplitude sdelay sduration kappa dfree alpha theta
    t p_theory i
  = let dstar := theta * dfree in
    let ampl := samplitude / (4 * PI * alpha * dstar * spdist) in
    if Rle_dec (t i) sdelay then 0
    else if Rgt_dec (t i) (sdelay + sduration) then
      ampl * erfc (spdist / (2 * sqrt (dstar * (t i - sdelay))))
      - ampl * erfc (spdist / (2 * sqrt (dstar * (t i - (sdelay + sduration)))))
    else ampl * erfc (spdist / (2 * sqrt (dstar * (t i - sdelay)))).
Proof.
  intros Hi. unfold rti_theory. cbv zeta.
  apply (loop_hit i); [lia | |].
  - intros i' o Hi' Hne.
    destruct (Rle_dec (t i') sdelay); [now apply upd_neq|].
    destruct (Rgt_dec (t i') (sdelay + sduration));
      now rewrite ?upd_neq by lia.
  - intros o.
    destruct (Rle_dec (t i) sdelay); [apply upd_eq|].
    destruct (Rgt_dec (t i) (sdelay + sduration)); now rewrite !upd_eq.
Qed.

(** C4.  With [D* = theta*dfree] and
    [A = samplitude / (4 PI alpha D* spdist)], the sample for time [t] is
    exactly 0 when [t <= sdelay]; it is
    [A erfc(d / (2 sqrt(D* (t - sdelay))))] when
    [sdelay < t <= sdelay + sduration]; and it is that value minus
    [A erfc(d / (2 sqrt(D* (t - sdelay - sduration))))] when
    [t > sdelay + sduration], the source duration not being negative. *)
Theorem rti_theory_piecewise (i : Z) :
  (0 <= i < nt)%Z ->
  let dstar := theta * dfree in
  let ampl := samplitude / (4 * PI * alpha * dstar * spdist) in
  let model := rti_theory erfc nt spdist samplitude sdelay sduration kappa dfree
                 alpha theta t p_theory in
  (t i <= sdelay -> model i = 0)
  /\ (sdelay < t i <= sdelay + sduration ->
      model i = ampl * erfc (spdist / (2 * sqrt (dstar * (t i - sdelay)))))
  /\ (0 <= sduration -> t i > sdelay + sduration ->
      model i
      = ampl * erfc (spdist / (2 * sqrt (dstar * (t i - sdelay))))
        - ampl * erfc (spdist / (2 * sqrt (dstar * (t i - sdelay - sduration))))).
Proof.
  intros Hi dstar ampl model. unfold model.
  rewrite rti_theory_sample by assumption. cbv zeta. fold dstar ampl.
  repeat split.
  - intros H. destruct (Rle_dec (t i) sdelay); [reflexivity | lra].
  - intros H. destruct (Rle_dec (t i) sdelay); [lra|].
    destruct (Rgt_dec (t i) (sdelay + sduration)); [lra | reflexivity].
  - intros Hd H. destruct (Rle_dec (t i) sdelay); [lra|].
    destruct (Rgt_dec (t i) (sdelay + sduration)); [|lra].
    replace (t i - (sdelay + sduration)) with (t i - sdelay - sduration) by ring.
    reflexivity.
Qed.

End Homogeneous.

(** Three samples, before, during and after a source that starts at 1 and
    lasts 2. *)
Lemma rti_theory_piecewise_witness :
  let erfc := fun x : R => 1 - x in
  let t := fun k : Z => IZR k * 2 in
  let model := rti_theory erfc 3 1 1 1 2 0 1 1 1 t create_array in
  model 0%Z = 0
  /\ model 1%Z = 1 / (4 * PI * 1 * (1 * 1) * 1)
                 * erfc (1 / (2 * sqrt (1 * 1 * (t 1%Z - 1))))
  /\ model 2%Z = 1 / (4 * PI * 1 * (1 * 1) * 1)
                 * erfc (1 / (2 * sqrt (1 * 1 * (t 2%Z - 1))))
                 - 1 / (4 * PI * 1 * (1 * 1) * 1)
                   * erfc (1 / (2 * sqrt (1 * 1 * (t 2%Z - 1 - 2)))).
Proof.
  intros erfc t model. repeat split.
  - apply (proj1 (rti_theory_piecewise erfc 3 1 1 1 2 0 1 1 1 t create_array
                    0%Z ltac:(lia))).
    unfold t. lra.
  - apply (proj1 (proj2 (rti_theory_piecewise erfc 3 1 1 1 2 0 1 1 1 t create_array
                           1%Z ltac:(lia)))).
    unfold t. lra.
  - apply (proj2 (proj2 (rti_theory_piecewise erfc 3 1 1 1 2 0 1 1 1 t create_array
                           2%Z ltac:(lia)))).
    + lra.
    + unfold t. lra.
Defined.

(** ** The source array *)

Lemma make_alphas_row (nz nr iz1 iz2 : Z) (alpha_sr alpha_sp alpha_so : R) (i j : Z) :
  (iz1 <= iz2)%Z -> (0 <= i < nz)%Z -> (0 <= j <= nr)%Z ->
  make_alphas nz nr iz1 iz2 alpha_sr alpha_sp alpha_so (INDEX nr i j)
  = if (i <=? iz1)%Z then alpha_sr
    else if (i <=? iz2)%Z then alpha_sp else alpha_so.
Proof.
  intros Hz Hi Hj. unfold make_alphas.
  apply (loop_hit j); [lia | intros; repeat skip_cell; reflexivity |].
  intros o.
  destruct (Z.leb_spec i iz1); [|destruct (Z.leb_spec i iz2)].
  - repeat skip_cell. apply (loop_hit i); [lia | |].
    + intros i' o' Hi' Hne. apply upd_neq. cell_neq.
    + intros o'. apply upd_eq.
  - repeat skip_cell. apply (loop_hit i); [lia | |].
    + intros i' o' Hi' Hne. apply upd_neq. cell_neq.
    + intros o'. apply upd_eq.
  - apply (loop_hit i); [lia | |].
    + intros i' o' Hi' Hne. apply upd_neq. cell_neq.
    + intros o'. apply upd_eq.
Qed.

(** C9, as the code has it.  A source [(z, r, current)] is converted to
    the molar rate [current * trn / FARADAY]; the cell nearest to it,
    [(lround(z/dz), 1 + lround(r/dr))], receives that rate times the time
    step [dt] times [4 / (PI dr^2 dz)], divided by the alpha of the layer
    of the cell.  The source of the input file sets the cell; every
    additional source, whose [z] is first shifted by [coord_shift], adds
    to its cell. *)
Theorem source_cell_amount
    (nz nr iz1 iz2 : Z) (alpha_sr alpha_sp alpha_so : R)
    (coord_shift trn dt dr dz : R) (z r current : R) (s : array) :
  let alphas := make_alphas nz nr iz1 iz2 alpha_sr alpha_sp alpha_so in
  let rate := current * trn / FARADAY in
  let alpha_of := fun i : Z =>
    if (i <=? iz1)%Z then alpha_sr
    else if (i <=? iz2)%Z then alpha_sp else alpha_so in
  let amount := fun i : Z => (1 / alpha_of i) * rate * dt * 4 / (PI * SQR dr * dz) in
  (iz1 <= iz2)%Z ->
  (let i := lround (z / dz) in
   let j := (1 + lround (r / dr))%Z in
   (0 <= i < nz)%Z -> (0 <= j <= nr)%Z ->
   make_source alphas nr z r current trn dt dr dz (INDEX nr i j) = amount i)
  /\ (let i := lround ((z + coord_shift) / dz) in
      let j := (1 + lround (r / dr))%Z in
      (0 <= i < nz)%Z -> (0 <= j <= nr)%Z ->
      exists s',
        add_source alphas nz nr coord_shift trn dt dr dz (mkSource z r current) s
        = Done s'
        /\ s' (INDEX nr i j) = s (INDEX nr i j) + amount i).
Proof.
  intros alphas rate alpha_of amount Hz. split.
  - intros i j Hi Hj. unfold make_source. fold i j. rewrite upd_eq.
    unfold source_term, source_amplitude, alphas.
    now rewrite make_alphas_row by assumption.
  - intros i j Hi Hj. unfold add_source. cbn [src_sz src_sr src_crnt]. fold i j.
    destruct (Z.ltb_spec i 0); [lia|].
    destruct (Z.gtb_spec i (nz - 1)); [lia|].
    destruct (Z.ltb_spec j 0); [lia|].
    destruct (Z.gtb_spec j nr); [lia|].
    eexists. split; [reflexivity|]. rewrite upd_eq.
    unfold source_term, source_amplitude, alphas.
    now rewrite make_alphas_row by assumption.
Qed.

(** One source with rate 1 on the axis of a grid of 6 rows, in row 2 of the
    middle layer. *)
Lemma source_cell_amount_witness :
  make_source (make_alphas 6 3 1 3 (1 / 5) (1 / 2) (1 / 5)) 3
    (IZR 2) (IZR 0) FARADAY 1 (1 / 10) 1 1 (INDEX 3 2 1)
  = (1 / (1 / 2)) * (FARADAY * 1 / FARADAY) * (1 / 10) * 4 / (PI * SQR 1 * 1).
Proof.
  assert (Ei : lround (IZR 2 / 1) = 2%Z).
  { replace (IZR 2 / 1) with (IZR 2) by lra. apply lround_IZR. }
  assert (Ej : lround (IZR 0 / 1) = 0%Z).
  { replace (IZR 0 / 1) with (IZR 0) by lra. apply lround_IZR. }
  pose proof (proj1 (source_cell_amount 6 3 1 3 (1 / 5) (1 / 2) (1 / 5)
                       0 1 (1 / 10) 1 1 (IZR 2) (IZR 0) FARADAY create_array
                       ltac:(lia))) as H.
  cbv zeta in H. rewrite Ei, Ej in H.
  apply H; lia.
Defined.

(** C9, as the claim has it, fails: with the time step [1/10] the cell of
    that source holds a tenth of the rate scaled by
    [4 / (PI dr^2 dz alpha)]. *)
Lemma source_cell_amount_has_time_step :
  let rate := FARADAY * 1 / FARADAY in
  make_source (make_alphas 6 3 1 3 (1 / 5) (1 / 2) (1 / 5)) 3
    (IZR 2) (IZR 0) FARADAY 1 (1 / 10) 1 1 (INDEX 3 2 1)
  <> rate * (4 / (PI * SQR 1 * 1 * (1 / 2))).
Proof.
  intros rate.
  assert (Ei : lround (IZR 2 / 1) = 2%Z).
  { replace (IZR 2 / 1) with (IZR 2) by lra. apply lround_IZR. }
  assert (Ej : lround (IZR 0 / 1) = 0%Z).
  { replace (IZR 0 / 1) with (IZR 0) by lra. apply lround_IZR. }
  unfold make_source. rewrite Ei, Ej.
  change (1 + 0)%Z with 1%Z. rewrite upd_eq.
  unfold source_term, source_amplitude.
  rewrite make_alphas_row by lia. cbn [Z.leb Z.compare Pos.compare Pos.compare_cont].
  unfold rate, FARADAY, SQR.
  pose proof PI_RGT_0 as HPI.
  intros H. apply (Rmult_eq_compat_r PI) in H.
  field_simplify in H; lra.
Qed.

(** ** The objective of the fit *)

(** The members that the penalties read after the candidate [x] has been
    written into the struct. *)
Lemma set_fit_parameters_sp (x : array) (p : param_struct_type) :
  let q := set_fit_parameters x p in
  ps_alpha_sp q = (if Rle_dec (x 0%Z) 0.001 then 0.001 else x 0%Z)
  /\ ps_theta_sp q = (if Rle_dec (x 1%Z) 0.001 then 0.001 else x 1%Z)
  /\ ps_kappa_sp q = x 2%Z
  /\ ps_minalpha q = ps_minalpha p /\ ps_maxalpha q = ps_maxalpha p
  /\ ps_mintheta q = ps_mintheta p /\ ps_maxtheta q = ps_maxtheta p
  /\ ps_minkappa q = ps_minkappa p /\ ps_maxkappa q = ps_maxkappa p
  /\ ps_p_data q = ps_p_data p.
Proof.
  unfold set_fit_parameters, gsl_vector_get. cbv zeta.
  cbn [set_sp ps_alpha_sp ps_theta_sp ps_kappa_sp].
  destruct (Rle_dec (x 0%Z) 0.001);
    cbn [set_sp ps_alpha_sp ps_theta_sp ps_kappa_sp];
    destruct (Rle_dec (x 1%Z) 0.001);
    cbn [set_sp ps_alpha_sp ps_theta_sp ps_kappa_sp ps_opt_global_kappa];
    destruct (ps_opt_global_kappa p =? 0)%Z;
    repeat split; reflexivity.
Qed.

Lemma add_penalty_sum (p : param_struct_type) (mse : R) :
  let excess := fun v lo hi : R =>
    (if Rlt_dec v lo then lo - v else 0) + (if Rgt_dec v hi then v - hi else 0) in
  add_penalty p mse
  = mse + 10 * excess (ps_alpha_sp p) (ps_minalpha p) (ps_maxalpha p)
        + 10 * excess (ps_theta_sp p) (ps_mintheta p) (ps_maxtheta p)
        + 10 * excess (ps_kappa_sp p) (ps_minkappa p) (ps_maxkappa p).
Proof.
  unfold add_penalty. cbv zeta.
  destruct (Rlt_dec (ps_alpha_sp p) (ps_minalpha p)),
           (Rgt_dec (ps_alpha_sp p) (ps_maxalpha p)),
           (Rlt_dec (ps_theta_sp p) (ps_mintheta p)),
           (Rgt_dec (ps_theta_sp p) (ps_maxtheta p)),
           (Rlt_dec (ps_kappa_sp p) (ps_minkappa p)),
           (Rgt_dec (ps_kappa_sp p) (ps_maxkappa p)); ring.
Qed.

(** C8, as the code has it.  The value of the objective is the mean
    squared error between the model curve and the data plus, for each of
    [alpha_sp], [theta_sp] and [kappa_sp], 10 times the amount by which
    the value stored in the struct lies outside its bounds.  For
    [alpha_sp] and [theta_sp] that value is the candidate raised to the
    floor 0.001, so the penalty does not grow below the floor.  Between
    two candidates with the same mean squared error, the one with the
    larger total excess of the stored values has the strictly larger
    objective. *)
Theorem objective_penalty (x x' : array) (p : param_struct_type) (curve curve' : array) :
  let floored := fun v : R => if Rle_dec v 0.001 then 0.001 else v in
  let excess := fun v lo hi : R =>
    (if Rlt_dec v lo then lo - v else 0) + (if Rgt_dec v hi then v - hi else 0) in
  let total := fun y : array =>
    excess (floored (y 0%Z)) (ps_minalpha p) (ps_maxalpha p)
    + excess (floored (y 1%Z)) (ps_mintheta p) (ps_maxtheta p)
    + excess (y 2%Z) (ps_minkappa p) (ps_maxkappa p) in
  let mse := fun crv : array => curve_mse (ps_nt p) (ps_nd p) crv (ps_p_data p) in
  solve_params (set_fit_parameters x p) = Done curve ->
  solve_params (set_fit_parameters x' p) = Done curve' ->
  exists v v' q q',
    calc_mse_fit_layer x p = Done (v, q)
    /\ calc_mse_fit_layer x' p = Done (v', q')
    /\ v = mse curve + 10 * total x
    /\ v' = mse curve' + 10 * total x'
    /\ (mse curve = mse curve' -> total x < total x' -> v < v').
Proof.
  intros floored excess total mse Hs Hs'.
  unfold calc_mse_fit_layer. rewrite Hs, Hs'.
  do 4 eexists. split; [reflexivity | split; [reflexivity|]].
  rewrite !add_penalty_sum. cbv zeta.
  destruct (set_fit_parameters_sp x p)
    as (Ea & Et & Ek & E1 & E2 & E3 & E4 & E5 & E6 & E7).
  destruct (set_fit_parameters_sp x' p)
    as (Ea' & Et' & Ek' & E1' & E2' & E3' & E4' & E5' & E6' & E7').
  cbn [set_p ps_alpha_sp ps_theta_sp ps_kappa_sp ps_minalpha ps_maxalpha
       ps_mintheta ps_maxtheta ps_minkappa ps_maxkappa ps_p ps_p_data].
  rewrite Ea, Et, Ek, E1, E2, E3, E4, E5, E6, E7.
  rewrite Ea', Et', Ek', E1', E2', E3', E4', E5', E6', E7'.
  fold (floored (x 0%Z)) (floored (x 1%Z)) (floored (x' 0%Z)) (floored (x' 1%Z)).
  unfold mse, total, excess.
  split; [ring | split; [ring|]].
  intros Hm Ht. unfold mse, total, excess in Hm, Ht. lra.
Qed.

Lemma set_fit_parameters_delay (x : array) (p : param_struct_type) :
  let q := set_fit_parameters x p in
  ps_sd q = ps_sd p /\ ps_dt q = ps_dt p /\ ps_nt q = ps_nt p.
Proof.
  unfold set_fit_parameters, gsl_vector_get. cbv zeta.
  cbn [set_sp ps_alpha_sp ps_theta_sp ps_kappa_sp].
  destruct (Rle_dec (x 0%Z) 0.001);
    cbn [set_sp ps_alpha_sp ps_theta_sp ps_kappa_sp];
    destruct (Rle_dec (x 1%Z) 0.001);
    cbn [set_sp ps_alpha_sp ps_theta_sp ps_kappa_sp ps_opt_global_kappa];
    destruct (ps_opt_global_kappa p =? 0)%Z;
    repeat split; reflexivity.
Qed.

Lemma solve_params_done (q : param_struct_type) :
  (lround (ps_sd q / ps_dt q) < ps_nt q)%Z ->
  exists curve, solve_params q = Done curve.
Proof.
  intros H. unfold solve_params, calc_diffusion_curve_layer_fit_layer.
  change (nds (ps_dt q) (ps_sd q)) with (lround (ps_sd q / ps_dt q)).
  destruct (Z.geb_spec (lround (ps_sd q / ps_dt q)) (ps_nt q)); [lia|].
  eexists. reflexivity.
Qed.

(** A struct for the examples: one time point and one data point, so that
    the mean squared error is the empty sum; the bounds are
    [1/20 <= alpha_sp <= 1], [1/20 <= theta_sp <= 1] and
    [0 <= kappa_sp <= 1/10]. *)
Local Abbreviation example_params :=
  (mkParams 1 1 6 3 2 1 1 3 FALSE 0 (1 / 10) 1 0 1
     (1 / 5) (2 / 5) 0 (1 / 10) (3 / 10) 0 (1 / 5) (2 / 5) 0
     (1 / 20) 1 (1 / 20) 1 0 (1 / 10) 1
     (fun k => IZR k / 10) (fun k => IZR k) (make_invr 3 1)
     (fun k => IZR k / 10) create_array create_array).

Local Abbreviation candidate a th k :=
  (fun i : Z => if (i =? 0)%Z then a else if (i =? 1)%Z then th else k).

Lemma example_params_solved (x : array) :
  exists curve, solve_params (set_fit_parameters x example_params) = Done curve.
Proof.
  apply solve_params_done.
  destruct (set_fit_parameters_delay x example_params) as (-> & -> & ->).
  cbn [ps_sd ps_dt ps_nt].
  replace (0 / (1 / 10)) with (IZR 0) by lra. rewrite lround_IZR. lia.
Qed.

(** Two candidates that differ in [kappa_sp] only, [1/5] and [3/10], both
    above the upper bound [1/10]. *)
Lemma objective_penalty_witness :
  exists v v' q q',
    calc_mse_fit_layer (candidate (1 / 2) (1 / 2) (1 / 5)) example_params = Done (v, q)
    /\ calc_mse_fit_layer (candidate (1 / 2) (1 / 2) (3 / 10)) example_params
       = Done (v', q')
    /\ v < v'.
Proof.
  destruct (example_params_solved (candidate (1 / 2) (1 / 2) (1 / 5))) as [curve Hc].
  destruct (example_params_solved (candidate (1 / 2) (1 / 2) (3 / 10))) as [curve' Hc'].
  destruct (objective_penalty _ _ _ _ _ Hc Hc')
    as (v & v' & q & q' & H1 & H2 & _ & _ & Hlt).
  exists v, v', q, q'. split; [exact H1 | split; [exact H2|]].
  apply Hlt.
  - unfold curve_mse. cbn [ps_nt ps_nd Z.gtb Z.compare Pos.compare Pos.compare_cont].
    now rewrite !for_loop_empty by lia.
  - cbn [ps_minalpha ps_maxalpha ps_mintheta ps_maxtheta ps_minkappa ps_maxkappa
         Z.eqb Pos.eqb].
    repeat match goal with
           | |- context [Rle_dec ?a ?b] => destruct (Rle_dec a b); try lra
           | |- context [Rlt_dec ?a ?b] => destruct (Rlt_dec a b); try lra
           | |- context [Rgt_dec ?a ?b] => destruct (Rgt_dec a b); try lra
           end.
Defined.

(** C8, as the claim has it, fails: the candidates [alpha_sp = -1] and
    [alpha_sp = -2] lie [21/20] and [41/20] below the lower bound [1/20],
    both are raised to the floor [1/1000] before the penalty is computed,
    and the objective has the same value for both. *)
Lemma objective_flat_below_floor :
  let p := example_params in
  let x := candidate (- 1) (1 / 2) 0 in
  let x' := candidate (- 2) (1 / 2) 0 in
  0 < ps_minalpha p - x 0%Z < ps_minalpha p - x' 0%Z
  /\ exists v v' q q',
       calc_mse_fit_layer x p = Done (v, q)
       /\ calc_mse_fit_layer x' p = Done (v', q')
       /\ ~ v < v'.
Proof.
  intros p x x'. split.
  - unfold p, x, x'. cbn [ps_minalpha Z.eqb]. lra.
  - assert (E : set_fit_parameters x p = set_fit_parameters x' p).
    { unfold set_fit_parameters, gsl_vector_get, x, x'. cbv zeta.
      cbn [set_sp ps_alpha_sp ps_theta_sp ps_kappa_sp Z.eqb Pos.eqb].
      destruct (Rle_dec (- 1) 0.001); [|lra].
      destruct (Rle_dec (- 2) 0.001); [|lra].
      reflexivity. }
    destruct (example_params_solved x) as [curve Hc]. fold p in Hc.
    unfold calc_mse_fit_layer. rewrite <- E, Hc.
    do 4 eexists. split; [reflexivity | split; [reflexivity|]].
    lra.
Qed.

(** ** Positivity of the field *)

Lemma make_invr_axis (nr : Z) (dr : R) : make_invr nr dr 1%Z = 0.
Proof.
  unfold make_invr.
  rewrite loop_skip by (intros; apply upd_neq; lia).
  apply upd_eq.
Qed.

Lemma make_invr_off_axis (nr : Z) (dr : R) (j : Z) :
  (2 <= j <= nr)%Z -> make_invr nr dr j = 1 / ((IZR j - 1) * dr).
Proof.
  intros Hj. unfold make_invr.
  apply (loop_hit j); [lia | |].
  - intros j' o Hj' Hne. apply upd_neq. lia.
  - intros o. apply upd_eq.
Qed.

(** The weight [scale2 * invr[j]] of the first derivative never exceeds
    the weight [scale1] of the second one. *)
Lemma derivative_weight (nr : Z) (dstar dt dr : R) (j : Z) :
  0 <= dstar -> 0 < dt -> 0 < dr -> (2 <= j <= nr)%Z ->
  0 <= dstar * dt / (2 * dr) * make_invr nr dr j <= dstar * dt / SQR dr.
Proof.
  intros HD Hdt Hdr Hj. rewrite make_invr_off_axis by assumption.
  assert (Hy : 1 <= IZR j - 1).
  { destruct Hj as [Hj _]. apply IZR_le in Hj. lra. }
  set (y := IZR j - 1) in *.
  assert (E : dstar * dt / (2 * dr) * (1 / (y * dr))
              = dstar * dt / SQR dr * / (2 * y)).
  { unfold SQR. field. lra. }
  rewrite E.
  assert (H1 : 0 <= dstar * dt / SQR dr).
  { unfold Rdiv, SQR. apply Rle_mult_inv_pos; nra. }
  assert (H2 : 0 < / (2 * y)) by (apply Rinv_0_lt_compat; lra).
  assert (H3 : / (2 * y) <= 1).
  { rewrite <- Rinv_1. apply Rinv_le_contravar; lra. }
  split; nra.
Qed.

(** A weighted mean of two non-negative values is non-negative. *)
Lemma interface_value_nonneg (w1 w2 x y : R) :
  0 < w1 -> 0 < w2 -> 0 <= x -> 0 <= y -> 0 <= (w1 * x + w2 * y) / (w1 + w2).
Proof.
  intros H1 H2 Hx Hy. unfold Rdiv. apply Rle_mult_inv_pos; nra.
Qed.

(** One explicit step of the stencil keeps a cell non-negative when its
    row is non-negative and its vertical neighbours, weighted by
    [scale1], do not outweigh what [1 - 6*scale1] leaves of the cell. *)
Lemma stencil_step_nonneg
    (M N : Z) (a : array) (scale1 scale2 : R) (invr out : array) (i j : Z) :
  (2 <= M)%Z -> (3 <= N)%Z -> (0 <= i < M)%Z -> (1 <= j <= N - 1)%Z ->
  0 <= scale1 ->
  invr 1%Z = 0 ->
  (forall j', (2 <= j' <= N - 1)%Z -> 0 <= scale2 * invr j' <= scale1) ->
  (forall j', (0 <= j' < N)%Z -> 0 <= A N a i j') ->
  0 <= (1 - 6 * scale1) * A N a i j
       + scale1 * ((if (1 <=? i)%Z then A N a (i - 1) j else 0)
                   + (if (i <=? M - 2)%Z then A N a (i + 1) j else 0)) ->
  0 <= A N a i j + convolve3 M N a scale1 scale2 invr out (OUT N i j).
Proof.
  intros HM HN Hi Hj Hs1 Hax Hw Hrow Hv.
  pose proof (Hrow j ltac:(lia)) as Hc.
  pose proof (Hrow (j - 1)%Z ltac:(lia)) as Hl.
  assert (Hr : (j <= N - 2)%Z -> 0 <= A N a i (j + 1)) by (intros; apply Hrow; lia).
  assert (Hw' : (2 <= j)%Z -> 0 <= scale2 * invr j <= scale1) by (intros; apply Hw; lia).
  destruct (Z.leb_spec 1 i) as [Hi1|Hi1], (Z.leb_spec i (M - 2)) as [Hi2|Hi2];
    try lia.
  - (* a row with both neighbours *)
    destruct (Z.eq_dec j 1) as [->|Hj1]; [|destruct (Z.eq_dec j (N - 1)) as [->|Hj2]].
    + rewrite convolve3_axis by lia.
      pose proof (Hrow 0%Z ltac:(lia)). pose proof (Hrow 2%Z ltac:(lia)).
      nra.
    + rewrite convolve3_right by lia.
      replace (N - 1 - 1)%Z with (N - 2)%Z in Hl by lia.
      specialize (Hw' ltac:(lia)). nra.
    + rewrite convolve3_inner by lia.
      specialize (Hr ltac:(lia)). specialize (Hw' ltac:(lia)). nra.
  - (* the last row *)
    replace i with (M - 1)%Z in * by lia.
    replace (M - 1 - 1)%Z with (M - 2)%Z in Hv by lia.
    destruct (Z.eq_dec j (N - 1)) as [->|Hj2].
    + rewrite convolve3_bottom_right by lia.
      replace (N - 1 - 1)%Z with (N - 2)%Z in Hl by lia.
      specialize (Hw' ltac:(lia)). nra.
    + rewrite convolve3_bottom by lia.
      specialize (Hr ltac:(lia)).
      destruct (Z.eq_dec j 1) as [->|Hj1].
      * rewrite Hax. nra.
      * specialize (Hw' ltac:(lia)). nra.
  - (* the first row *)
    replace i with 0%Z in * by lia.
    replace (0 + 1)%Z with 1%Z in Hv by lia.
    destruct (Z.eq_dec j (N - 1)) as [->|Hj2].
    + rewrite convolve3_top_right by lia.
      replace (N - 1 - 1)%Z with (N - 2)%Z in Hl by lia.
      specialize (Hw' ltac:(lia)). nra.
    + rewrite convolve3_top by lia.
      specialize (Hr ltac:(lia)).
      destruct (Z.eq_dec j 1) as [->|Hj1].
      * rewrite Hax. nra.
      * specialize (Hw' ltac:(lia)). nra.
Qed.

Lemma clearance_factor_nonneg (kappa dt : R) :
  0 < dt -> 0 <= kappa < 1 / dt -> 0 <= 1 - kappa * dt.
Proof.
  intros Hdt [H0 H1].
  apply (Rmult_lt_compat_r dt) in H1; [|assumption].
  replace (1 / dt * dt) with 1 in H1 by (field; lra). lra.
Qed.

Section Positivity.

Variables (nz nr iprobe jprobe iz1 iz2 nolayer : Z).
Variables (dt dr sdelay sduration : R).
Variables (alpha_so theta_so kappa_so : R).
Variables (alpha_sp theta_sp kappa_sp : R).
Variables (alpha_sr theta_sr kappa_sr : R).
Variable (dfree : R).
Variables (t s : array).

Hypothesis Hnr : (2 <= nr)%Z.
Hypothesis Hdt : 0 < dt.
Hypothesis Hdr : 0 < dr.

Local Abbreviation invr := (make_invr nr dr).

Local Abbreviation nonneg_from c j0 :=
  (forall i j, (0 <= i < nz)%Z -> (j0 <= j <= nr)%Z -> 0 <= c (INDEX nr i j)).

(** A cell of a layer array after one step of the stencil: [g] is 1 when
    one of the vertical neighbours may be an extrapolated row, which is
    never below minus the cell, and 0 otherwise. *)
Lemma grid_cell_nonneg (g : R) (M : Z) (a : array) (dstar : R) (out : array) (i j : Z) :
  (2 <= M)%Z -> (0 <= i < M)%Z -> (1 <= j <= nr)%Z ->
  0 <= dstar -> 0 <= g -> (6 + g) * (dstar * dt / SQR dr) <= 1 ->
  (forall j', (0 <= j' <= nr)%Z -> 0 <= a (INDEX nr i j')) ->
  0 <= (if (1 <=? i)%Z then a (INDEX nr (i - 1) j) else 0)
       + (if (i <=? M - 2)%Z then a (INDEX nr (i + 1) j) else 0)
       + g * a (INDEX nr i j) ->
  0 <= a (INDEX nr i j)
       + convolve3 M (nr + 1) a (dstar * dt / SQR dr) (dstar * dt / (2 * dr))
           invr out (INDEX nr i j).
Proof.
  intros HM Hi Hj HD Hg Hstab Hrow Hv.
  pose proof (derivative_weight nr dstar dt dr 2 HD Hdt Hdr ltac:(lia)) as H1.
  pose proof (Hrow j ltac:(lia)) as Hc.
  apply stencil_step_nonneg; try lia.
  - lra.
  - apply make_invr_axis.
  - intros j' Hj'. apply derivative_weight; try assumption. lia.
  - intros j' Hj'. apply Hrow. lia.
  - change (A (nr + 1) a i j) with (a (INDEX nr i j)).
    change (A (nr + 1) a (i - 1) j) with (a (INDEX nr (i - 1) j)).
    change (A (nr + 1) a (i + 1) j) with (a (INDEX nr (i + 1) j)).
    nra.
Qed.

Lemma finish_step_cell (k : Z) (c : array) (i j : Z) :
  (iz1 <= iz2)%Z -> (0 <= i < nz)%Z -> (1 <= j <= nr)%Z ->
  finish_step nz nr iz1 iz2 dt sdelay sduration kappa_so kappa_sp kappa_sr t s k c
    (INDEX nr i j)
  = (c (INDEX nr i j)
     + (if Rlt_dec (t k + dt / 2) (sdelay + sduration) then s (INDEX nr i j) else 0))
    * (1 - (if (i <=? iz1)%Z then kappa_sr
            else if (i <=? iz2)%Z then kappa_sp else kappa_so) * dt).
Proof.
  intros Hz Hi Hj. unfold finish_step.
  rewrite symmetry_other by assumption.
  pose proof (INDEX_range nz nr i j Hi ltac:(lia)) as Hr.
  assert (E : (if Rlt_dec (t k + dt / 2) (sdelay + sduration)
               then add_array nz nr s c else c) (INDEX nr i j)
              = c (INDEX nr i j)
                + (if Rlt_dec (t k + dt / 2) (sdelay + sduration)
                   then s (INDEX nr i j) else 0)).
  { destruct (Rlt_dec (t k + dt / 2) (sdelay + sduration)).
    - now apply add_array_cell.
    - ring. }
  destruct (Z.leb_spec i iz1); [|destruct (Z.leb_spec i iz2)].
  - rewrite clearance_sr by lia. now rewrite E.
  - rewrite clearance_sp by lia. now rewrite E.
  - rewrite clearance_so by lia. now rewrite E.
Qed.

Hypothesis Hz1 : (0 <= iz1)%Z.
Hypothesis Hz12 : (iz1 + 2 <= iz2)%Z.
Hypothesis Hz2 : (iz2 + 2 <= nz)%Z.
Hypothesis Hkappa_so : 0 <= kappa_so < 1 / dt.
Hypothesis Hkappa_sp : 0 <= kappa_sp < 1 / dt.
Hypothesis Hkappa_sr : 0 <= kappa_sr < 1 / dt.
Hypothesis Hs : forall k, (0 <= k < nz * (nr + 1))%Z -> 0 <= s k.

(** Source, clearance and symmetry keep the field non-negative; column 0
    is overwritten, so nothing is asked of it. *)
Lemma finish_step_nonneg (k : Z) (c : array) :
  nonneg_from c 1%Z ->
  nonneg_from
    (finish_step nz nr iz1 iz2 dt sdelay sduration kappa_so kappa_sp kappa_sr t s k c)
    0%Z.
Proof.
  intros Hc.
  assert (G : forall i j, (0 <= i < nz)%Z -> (1 <= j <= nr)%Z ->
            0 <= finish_step nz nr iz1 iz2 dt sdelay sduration
                   kappa_so kappa_sp kappa_sr t s k c (INDEX nr i j)).
  { intros i j Hi Hj. rewrite finish_step_cell by lia.
    pose proof (Hc i j Hi Hj) as H0.
    pose proof (Hs _ (INDEX_range nz nr i j Hi ltac:(lia))) as H1.
    pose proof (clearance_factor_nonneg _ _ Hdt Hkappa_so).
    pose proof (clearance_factor_nonneg _ _ Hdt Hkappa_sp).
    pose proof (clearance_factor_nonneg _ _ Hdt Hkappa_sr).
    apply Rmult_le_pos.
    - destruct (Rlt_dec (t k + dt / 2) (sdelay + sduration)); lra.
    - destruct (i <=? iz1)%Z; [|destruct (i <=? iz2)%Z]; assumption. }
  intros i j Hi Hj. destruct (Z.eq_dec j 0) as [->|Hne].
  - rewrite finish_step_column_0 by assumption. apply G; lia.
  - apply G; lia.
Qed.

(** The 1-layer branch under [6 * D*_sr dt / dr^2 <= 1]. *)
Lemma nolayer_branch_nonneg (st : grids) :
  0 <= dstar_sr theta_sr dfree ->
  6 * const_sr1 dt dr theta_sr dfree <= 1 ->
  nonneg_from (st_c st) 0%Z ->
  nonneg_from (st_c (nolayer_branch nz nr dt dr theta_sr dfree invr st)) 1%Z.
Proof.
  intros HD Hstab Hc i j Hi Hj.
  unfold nolayer_branch. cbn [st_c].
  rewrite add_array_cell by (apply INDEX_range; lia).
  unfold const_sr1, const_sr2 in *.
  apply (grid_cell_nonneg 0); try lia; try lra.
  - intros j' Hj'. apply Hc; lia.
  - destruct (Z.leb_spec 1 i), (Z.leb_spec i (nz - 2)).
    + pose proof (Hc (i - 1)%Z j ltac:(lia) ltac:(lia)).
      pose proof (Hc (i + 1)%Z j ltac:(lia) ltac:(lia)). lra.
    + pose proof (Hc (i - 1)%Z j ltac:(lia) ltac:(lia)). lra.
    + pose proof (Hc (i + 1)%Z j ltac:(lia) ltac:(lia)). lra.
    + lra.
Qed.

Hypothesis Hdfree : 0 < dfree.
Hypothesis Htheta_so : 0 < theta_so.
Hypothesis Htheta_sp : 0 < theta_sp.
Hypothesis Htheta_sr : 0 < theta_sr.
Hypothesis Halpha_so : 0 < alpha_so.
Hypothesis Halpha_sp : 0 < alpha_sp.
Hypothesis Halpha_sr : 0 < alpha_sr.

(** The 3-layer branch under [7 * D* dt / dr^2 <= 1] in every layer: a
    row next to an interface has one extrapolated neighbour, which is at
    least minus the cell because the interface value is non-negative. *)
Lemma layer_branch_nonneg (st : grids) :
  7 * const_sr1 dt dr theta_sr dfree <= 1 ->
  7 * const_sp1 dt dr theta_sp dfree <= 1 ->
  7 * const_so1 dt dr theta_so dfree <= 1 ->
  nonneg_from (st_c st) 0%Z ->
  nonneg_from
    (st_c (layer_branch nz nr iz1 iz2 dt dr alpha_so theta_so alpha_sp theta_sp
             alpha_sr theta_sr dfree invr st)) 1%Z.
Proof.
  intros Hsr Hsp Hso Hc i j Hi Hj.
  assert (HDsr : 0 < dstar_sr theta_sr dfree) by (unfold dstar_sr; nra).
  assert (HDsp : 0 < dstar_sp theta_sp dfree) by (unfold dstar_sp; nra).
  assert (HDso : 0 < dstar_so theta_so dfree) by (unfold dstar_so; nra).
  unfold layer_branch. cbn [st_c].
  set (c := st_c st) in *.
  set (cb := interface_values nr iz1 iz2 alpha_so theta_so alpha_sp theta_sp
               alpha_sr theta_sr dfree c (st_cb_sr st, st_cb_so st)).
  set (l := build_layers nz nr iz1 iz2 c (fst cb) (snd cb)
              (st_c_sr st, st_c_sp st, st_c_so st)).
  assert (Hcb_sr : forall j', (0 <= j' <= nr)%Z -> 0 <= fst cb j').
  { intros j' Hj'. unfold cb. rewrite interface_values_sr by assumption.
    apply interface_value_nonneg; try nra; apply Hc; lia. }
  assert (Hcb_so : forall j', (0 <= j' <= nr)%Z -> 0 <= snd cb j').
  { intros j' Hj'. unfold cb. rewrite interface_values_so by assumption.
    apply interface_value_nonneg; try nra; apply Hc; lia. }
  assert (Rsr : forall i' j', (0 <= i' <= iz1)%Z -> (0 <= j' <= nr)%Z ->
            fst (fst l) (INDEX nr i' j') = c (INDEX nr i' j'))
    by (intros; now apply build_layers_sr_row).
  assert (Gsr : fst (fst l) (INDEX nr (iz1 + 1) j)
                = 2 * fst cb j - c (INDEX nr iz1 j))
    by (apply build_layers_sr_ghost; lia).
  assert (Rsp : forall i' j', (iz1 + 1 <= i' <= iz2)%Z -> (0 <= j' <= nr)%Z ->
            snd (fst l) (INDEX nr (i' - iz1) j') = c (INDEX nr i' j'))
    by (intros; now apply build_layers_sp_row).
  assert (Gsp1 : snd (fst l) (INDEX nr 0 j)
                 = 2 * fst cb j - c (INDEX nr (iz1 + 1) j))
    by (apply build_layers_sp_ghost_sr; lia).
  assert (Gsp2 : snd (fst l) (INDEX nr (iz2 - iz1 + 1) j)
                 = 2 * snd cb j - c (INDEX nr iz2 j))
    by (apply build_layers_sp_ghost_so; lia).
  assert (Rso : forall i' j', (iz2 + 1 <= i' < nz)%Z -> (0 <= j' <= nr)%Z ->
            snd l (INDEX nr (i' - iz2) j') = c (INDEX nr i' j'))
    by (intros; now apply build_layers_so_row).
  assert (Gso : snd l (INDEX nr 0 j) = 2 * snd cb j - c (INDEX nr (iz2 + 1) j))
    by (apply build_layers_so_ghost; lia).
  pose proof (Hcb_sr j ltac:(lia)) as Hb1.
  pose proof (Hcb_so j ltac:(lia)) as Hb2.
  pose proof (Hc i j Hi ltac:(lia)) as Hij.
  clearbody l cb.
  destruct (Z_le_gt_dec i iz1) as [L1|L1]; [|destruct (Z_le_gt_dec i iz2) as [L2|L2]].
  - (* SR *)
    rewrite update_layers_sr by lia.
    unfold const_sr1, const_sr2 in *.
    apply (grid_cell_nonneg 1); try lia; try lra.
    + intros j' Hj'. rewrite Rsr by lia. apply Hc; lia.
    + rewrite (Rsr i j) by lia.
      assert (HU : 0 <= (if (1 <=? i)%Z then fst (fst l) (INDEX nr (i - 1) j) else 0)).
      { destruct (Z.leb_spec 1 i); [|lra]. rewrite Rsr by lia. apply Hc; lia. }
      set (U := if (1 <=? i)%Z then fst (fst l) (INDEX nr (i - 1) j) else 0) in *.
      clearbody U.
      destruct (Z.leb_spec i (iz1 + 2 - 2)) as [_|]; [|lia].
      destruct (Z.eq_dec i iz1) as [->|Hne].
      * rewrite Gsr. lra.
      * rewrite Rsr by lia.
        pose proof (Hc (i + 1)%Z j ltac:(lia) ltac:(lia)). lra.
  - (* SP *)
    rewrite update_layers_sp by lia.
    unfold const_sp1, const_sp2 in *.
    apply (grid_cell_nonneg 1); try lia; try lra.
    + intros j' Hj'. rewrite Rsp by lia. apply Hc; lia.
    + rewrite (Rsp i j) by lia.
      destruct (Z.leb_spec 1 (i - iz1)) as [_|]; [|lia].
      destruct (Z.leb_spec (i - iz1) (iz2 - iz1 + 2 - 2)) as [_|]; [|lia].
      destruct (Z.eq_dec i (iz1 + 1)) as [->|Hlo];
        [|destruct (Z.eq_dec i iz2) as [->|Hhi]].
      * replace (iz1 + 1 - iz1 - 1)%Z with 0%Z by lia. rewrite Gsp1.
        replace (iz1 + 1 - iz1 + 1)%Z with (iz1 + 2 - iz1)%Z by lia.
        rewrite Rsp by lia.
        pose proof (Hc (iz1 + 2)%Z j ltac:(lia) ltac:(lia)). lra.
      * replace (iz2 - iz1 - 1)%Z with (iz2 - 1 - iz1)%Z by lia.
        rewrite Rsp by lia. rewrite Gsp2.
        pose proof (Hc (iz2 - 1)%Z j ltac:(lia) ltac:(lia)). lra.
      * replace (i - iz1 - 1)%Z with (i - 1 - iz1)%Z by lia.
        replace (i - iz1 + 1)%Z with (i + 1 - iz1)%Z by lia.
        rewrite !Rsp by lia.
        pose proof (Hc (i - 1)%Z j ltac:(lia) ltac:(lia)).
        pose proof (Hc (i + 1)%Z j ltac:(lia) ltac:(lia)). lra.
  - (* SO *)
    rewrite update_layers_so by lia.
    unfold const_so1, const_so2 in *.
    apply (grid_cell_nonneg 1); try lia; try lra.
    + intros j' Hj'. rewrite Rso by lia. apply Hc; lia.
    + rewrite (Rso i j) by lia.
      destruct (Z.leb_spec 1 (i - iz2)) as [_|]; [|lia].
      assert (HU : - c (INDEX nr i j) <= snd l (INDEX nr (i - iz2 - 1) j)).
      { destruct (Z.eq_dec i (iz2 + 1)) as [->|Hlo].
        - replace (iz2 + 1 - iz2 - 1)%Z with 0%Z by lia. rewrite Gso. lra.
        - replace (i - iz2 - 1)%Z with (i - 1 - iz2)%Z by lia.
          rewrite Rso by lia.
          pose proof (Hc (i - 1)%Z j ltac:(lia) ltac:(lia)). lra. }
      destruct (Z.leb_spec (i - iz2) (nz - iz2 - 2)).
      * replace (i - iz2 + 1)%Z with (i + 1 - iz2)%Z by lia.
        rewrite Rso by lia.
        pose proof (Hc (i + 1)%Z j ltac:(lia) ltac:(lia)). lra.
      * lra.
Qed.

End Positivity.

Lemma initial_grids_c (nz nr : Z) (dt sdelay : R) (s p : array) (k : Z) :
  (0 <= k < nz * (nr + 1))%Z ->
  st_c (initial_grids nz nr dt sdelay s p) k = s k.
Proof.
  intros Hk. unfold initial_grids. cbn [st_c].
  apply (loop_hit k); [lia | |].
  - intros k' o Hk' Hne. apply upd_neq. lia.
  - intros o. apply upd_eq.
Qed.

(** C7, as the code has it.  Take positive [dt], [dr], [dfree], [theta]
    and [alpha], a source array without negative entries, every kappa in
    [[0, 1/dt)], the [1/r] array of [main], and a grid with at least the
    columns 0..2, at least two rows in the middle layer and at least one
    row in each outer layer.  When in addition
    [D* dt / dr^2 <= 1/7] in each of the three layers (3-layer mode), or
    [D*_sr dt / dr^2 <= 1/6] (1-layer mode), the concentration is
    non-negative in every cell when the time loop is entered and after
    every time step.  The solver takes [dt] as it is given and does not
    check this bound. *)
Theorem field_stays_nonneg
    (nz nr iprobe jprobe iz1 iz2 nolayer : Z)
    (dt dr sdelay sduration : R)
    (alpha_so theta_so kappa_so alpha_sp theta_sp kappa_sp
       alpha_sr theta_sr kappa_sr dfree : R)
    (t s p : array) (khi : Z) :
  (2 <= nr)%Z -> (0 <= iz1)%Z -> (iz1 + 2 <= iz2)%Z -> (iz2 + 2 <= nz)%Z ->
  0 < dt -> 0 < dr -> 0 < dfree ->
  0 < theta_so -> 0 < theta_sp -> 0 < theta_sr ->
  0 < alpha_so -> 0 < alpha_sp -> 0 < alpha_sr ->
  0 <= kappa_so < 1 / dt -> 0 <= kappa_sp < 1 / dt -> 0 <= kappa_sr < 1 / dt ->
  (forall k, (0 <= k < nz * (nr + 1))%Z -> 0 <= s k) ->
  (if (nolayer =? FALSE)%Z
   then 7 * const_sr1 dt dr theta_sr dfree <= 1
        /\ 7 * const_sp1 dt dr theta_sp dfree <= 1
        /\ 7 * const_so1 dt dr theta_so dfree <= 1
   else 6 * const_sr1 dt dr theta_sr dfree <= 1) ->
  (nds dt sdelay <= khi)%Z ->
  forall i j, (0 <= i < nz)%Z -> (0 <= j <= nr)%Z ->
    0 <= st_c (grids_at nz nr iprobe jprobe iz1 iz2 nolayer dt dr sdelay sduration
                 alpha_so theta_so kappa_so alpha_sp theta_sp kappa_sp
                 alpha_sr theta_sr kappa_sr dfree t s (make_invr nr dr) khi p)
           (INDEX nr i j).
Proof.
  intros Hnr Hz1 Hz12 Hz2 Hdt Hdr Hdf Hto Htp Htr Hao Hap Har Hko Hkp Hkr Hs Hstab Hk.
  unfold grids_at.
  apply (for_loop_ind
           (fun _ st => forall i j, (0 <= i < nz)%Z -> (0 <= j <= nr)%Z ->
                                    0 <= st_c st (INDEX nr i j)));
    [assumption | |].
  - intros i j Hi Hj.
    pose proof (INDEX_range nz nr i j Hi Hj) as Hr.
    rewrite initial_grids_c by assumption. now apply Hs.
  - intros k st _ Hc. unfold time_step. cbn [st_c].
    apply finish_step_nonneg; try assumption.
    destruct (nolayer =? FALSE)%Z.
    + destruct Hstab as (Hsr & Hsp & Hso).
      now apply layer_branch_nonneg.
    + apply nolayer_branch_nonneg with (iz1 := iz1) (iz2 := iz2); try assumption.
      unfold dstar_sr. nra.
Qed.

(** The small grid of the examples, 3-layer mode, a unit source on the
    axis in row 2, [D* dt / dr^2 <= 1/25] in every layer. *)
Lemma field_stays_nonneg_witness :
  0 <= st_c (grids_at 6 3 2 1 1 3 FALSE (1 / 10) 1 0 1
               (1 / 5) (2 / 5) (1 / 100) (1 / 10) (3 / 10) (1 / 50)
               (1 / 5) (2 / 5) (1 / 200) 1
               (fun k => IZR k / 10) (upd create_array (INDEX 3 2 1) 1)
               (make_invr 3 1) 3 create_array)
         (INDEX 3 2 1).
Proof.
  assert (E : nds (1 / 10) 0 = 0%Z).
  { unfold nds. replace (0 / (1 / 10)) with (IZR 0) by lra. apply lround_IZR. }
  apply field_stays_nonneg; try lra; try lia.
  - intros k _. unfold upd, create_array. destruct (k =? INDEX 3 2 1)%Z; lra.
  - unfold FALSE. cbn [Z.eqb].
    unfold const_sr1, const_sp1, const_so1, dstar_sr, dstar_sp, dstar_so, SQR.
    repeat split; lra.
Defined.

(** Without a bound on the time step the field becomes negative.  In the
    1-layer mode with [dt = dr = dfree = theta = 1], so that
    [D* dt / dr^2 = 1], no clearance, and a unit source in cell (2,1) that
    is not injected again, the source array and the initial field are
    non-negative and every kappa is in [[0, 1/dt)], but after the first
    time step cell (2,1) holds [1 - 6 = -5]. *)
Lemma field_negative_without_step_bound :
  let s := upd create_array (INDEX 3 2 1) 1 in
  let field := st_c (grids_at 6 3 2 1 1 3 TRUE 1 1 0 0
                       1 1 0 1 1 0 1 1 0 1
                       (fun k => IZR k) s (make_invr 3 1) 1 create_array) in
  (forall k, 0 <= s k) /\ 0 <= 0 < 1 / 1 /\ field (INDEX 3 2 1) = - 5.
Proof.
  intros s field.
  assert (Hs : forall k, 0 <= s k).
  { intros k. unfold s, upd, create_array. destruct (k =? INDEX 3 2 1)%Z; lra. }
  split; [exact Hs | split; [lra|]].
  assert (E : nds 1 0 = 0%Z).
  { unfold nds. replace (0 / 1) with (IZR 0) by lra. apply lround_IZR. }
  unfold field, grids_at. rewrite E.
  rewrite for_loop_first by lia. rewrite for_loop_empty by lia.
  rewrite time_step_homogeneous by (unfold TRUE, FALSE; lia).
  cbv zeta. cbn [st_c].
  rewrite finish_step_cell by lia.
  unfold nolayer_branch. cbn [st_c].
  rewrite add_array_cell by (unfold INDEX; lia).
  change (INDEX 3 2 1) with (OUT (3 + 1) 2 1) at 2.
  rewrite convolve3_axis by lia.
  unfold A. rewrite !initial_grids_c by (unfold INDEX; lia).
  unfold const_sr1, dstar_sr, SQR, s, upd, create_array, INDEX.
  cbn [Z.eqb Z.leb Z.mul Z.add Z.sub Z.opp Z.compare Pos.eqb Pos.mul Pos.add
       Pos.compare Pos.compare_cont Pos.succ Z.pos_sub Pos.pred_double Z.double
       Z.succ_double Z.pred_double Pos.add_carry].
  destruct (Rlt_dec (IZR 0 + 1 / 2) (0 + 0)); [lra|].
  lra.
Qed.

(** C7, as the claim has it, fails also with the time step that [main]
    chooses by itself, [dt = 0.9 dr^2 / (6 D*max)].  3-layer mode,
    [dr = dfree = 1], [theta = 1] in every layer, so [dt = 3/20];
    [alpha_sr = 1/1000], [alpha_sp = alpha_so = 1]; no clearance; a unit
    source in cell (1,1), on the axis in the last row of SR, that is not
    injected again.  The interface value is [1/1001], the extrapolated row
    of SR holds [-999/1001] there, and after the first time step cell
    (1,1) holds [-199/4004]. *)
Lemma field_negative_at_default_step :
  let s := upd create_array (INDEX 3 1 1) 1 in
  let dt := 9 / 10 * (1 * 1) / (6 * 1) in
  let field := st_c (grids_at 6 3 2 1 1 3 FALSE dt 1 0 0
                       1 1 0 1 1 0 (1 / 1000) 1 0 1
                       (fun k => IZR k * dt) s (make_invr 3 1) 1 create_array) in
  (forall k, 0 <= s k) /\ 0 <= 0 < 1 / dt /\ field (INDEX 3 1 1) = - 199 / 4004.
Proof.
  intros s dt field.
  assert (Hs : forall k, 0 <= s k).
  { intros k. unfold s, upd, create_array. destruct (k =? INDEX 3 1 1)%Z; lra. }
  split; [exact Hs | split; [unfold dt; lra|]].
  assert (E : nds dt 0 = 0%Z).
  { unfold nds, dt. replace (0 / (9 / 10 * (1 * 1) / (6 * 1))) with (IZR 0) by lra.
    apply lround_IZR. }
  unfold field, grids_at. rewrite E.
  rewrite for_loop_first by lia. rewrite for_loop_empty by lia.
  rewrite time_step_layered by reflexivity.
  cbv zeta. cbn [st_c].
  rewrite finish_step_cell by lia.
  unfold layer_branch. cbn [st_c].
  rewrite update_layers_sr by lia.
  match goal with
  | |- context [convolve3 ?M ?N ?a ?s1 ?s2 ?iv ?o (INDEX 3 1 1)] =>
      change (convolve3 M N a s1 s2 iv o (INDEX 3 1 1))
        with (convolve3 M N a s1 s2 iv o (OUT N 1 1));
      rewrite (convolve3_axis M N a s1 s2 iv o 1) by lia
  end.
  unfold A.
  change (1 * (3 + 1) + 0)%Z with (INDEX 3 1 0).
  change (1 * (3 + 1) + 1)%Z with (INDEX 3 1 1).
  change (1 * (3 + 1) + 2)%Z with (INDEX 3 1 2).
  change ((1 - 1) * (3 + 1) + 1)%Z with (INDEX 3 0 1).
  change ((1 + 1) * (3 + 1) + 1)%Z with (INDEX 3 (1 + 1) 1).
  rewrite !build_layers_sr_row by lia.
  rewrite build_layers_sr_ghost by lia.
  rewrite interface_values_sr by lia.
  rewrite !initial_grids_c by (unfold INDEX; lia).
  unfold const_sr1, dstar_sr, dstar_sp, SQR, s, upd, create_array, INDEX.
  cbn [Z.eqb Z.leb Z.mul Z.add Z.sub Z.opp Z.compare Pos.eqb Pos.mul Pos.add
       Pos.compare Pos.compare_cont Pos.succ Z.pos_sub Pos.pred_double Z.double
       Z.succ_double Z.pred_double Pos.add_carry].
  destruct (Rlt_dec (IZR 0 * dt + dt / 2) (0 + 0)) as [H|_]; [unfold dt in H; lra|].
  unfold dt. field.
Qed.

(** * Further properties of the code *)

(** ** [convolve3]: the block it writes *)

Lemma OUT_range (M N i j : Z) :
  (0 <= i < M)%Z -> (0 <= j < N)%Z -> (0 <= OUT N i j < M * N)%Z.
Proof. unfold OUT. intros Hi Hj. nia. Qed.

(** Splits a cell of the block into the nine regions of [convolve3]. *)
Ltac conv_regions M N i j :=
  destruct (Z.eq_dec i 0) as [->|?];
  [|destruct (Z.eq_dec i (M - 1)) as [->|?]];
  (destruct (Z.eq_dec j 0) as [->|?];
   [|destruct (Z.eq_dec j (N - 1)) as [->|?];
     [|destruct (Z.eq_dec j 1) as [->|?]]]).

Ltac conv_cell :=
  first
    [ rewrite !convolve3_top_left by lia
    | rewrite !convolve3_top_right by lia
    | rewrite !convolve3_bottom_left by lia
    | rewrite !convolve3_bottom_right by lia
    | rewrite !convolve3_top by lia
    | rewrite !convolve3_bottom by lia
    | rewrite !convolve3_left by lia
    | rewrite !convolve3_right by lia
    | rewrite !convolve3_axis by lia
    | rewrite !convolve3_inner by lia ].

(** The output is linear in the field, and a cell of the output reads the
    field inside the block only. *)
Lemma convolve3_combination
    (M N : Z) (a b c : array) (x y scale1 scale2 : R) (invr oa ob oc : array)
    (i j : Z) :
  (2 <= M)%Z -> (3 <= N)%Z -> (0 <= i < M)%Z -> (0 <= j < N)%Z ->
  (forall i' j', (0 <= i' < M)%Z -> (0 <= j' < N)%Z ->
     A N c i' j' = x * A N a i' j' + y * A N b i' j') ->
  convolve3 M N c scale1 scale2 invr oc (OUT N i j)
  = x * convolve3 M N a scale1 scale2 invr oa (OUT N i j)
    + y * convolve3 M N b scale1 scale2 invr ob (OUT N i j).
Proof.
  intros HM HN Hi Hj Hc.
  conv_regions M N i j; conv_cell; rewrite !Hc by lia; ring.
Qed.

Lemma block_cell (M N k : Z) :
  (0 < N)%Z -> (0 <= k < M * N)%Z ->
  exists i j, (0 <= i < M)%Z /\ (0 <= j < N)%Z /\ k = OUT N i j.
Proof.
  intros HN Hk. exists (k / N)%Z, (k mod N)%Z.
  pose proof (Z.mod_pos_bound k N HN) as Hm.
  pose proof (Z.div_mod k N ltac:(lia)) as Hd.
  assert (0 <= k / N)%Z by (apply Z.div_pos; lia).
  assert (k / N < M)%Z by (apply Z.div_lt_upper_bound; nia).
  unfold OUT. repeat split; lia.
Qed.

(** X1.  For a field of at least 2 rows and 3 columns, [convolve3]
    assigns every element of the [M*N] block of [out], so that nothing of
    the former content of [out] is left in the block, and it assigns no
    element outside the block. *)
Theorem convolve3_writes_block
    (M N : Z) (a : array) (scale1 scale2 : R) (invr out out' : array) (k : Z) :
  (2 <= M)%Z -> (3 <= N)%Z ->
  ((0 <= k < M * N)%Z ->
     convolve3 M N a scale1 scale2 invr out k
     = convolve3 M N a scale1 scale2 invr out' k)
  /\ (~ (0 <= k < M * N)%Z ->
     convolve3 M N a scale1 scale2 invr out k = out k).
Proof.
  intros HM HN. split.
  - intros Hk. destruct (block_cell M N k ltac:(lia) Hk) as (i & j & Hi & Hj & ->).
    rewrite (convolve3_combination M N a a a 1 0 scale1 scale2 invr out' out' out i j)
      by (try assumption; intros; ring).
    ring.
  - intros Hk.
    assert (Hne : forall i j, (0 <= i < M)%Z -> (0 <= j < N)%Z -> k <> OUT N i j).
    { intros i j Hi Hj E. pose proof (OUT_range M N i j Hi Hj). lia. }
    unfold convolve3. cbv zeta.
    repeat first
      [ rewrite upd_neq by (apply Hne; lia)
      | rewrite loop_skip
          by (intros;
              first [ apply upd_neq; apply Hne; lia
                    | apply loop_skip; intros; apply upd_neq; apply Hne; lia ]) ].
    reflexivity.
Qed.

Lemma convolve3_writes_block_witness :
  convolve3 3 4 (fun k => IZR k) 1 1 (make_invr 3 1) create_array 5%Z
  = convolve3 3 4 (fun k => IZR k) 1 1 (make_invr 3 1) (fun _ => 7) 5%Z
  /\ convolve3 3 4 (fun k => IZR k) 1 1 (make_invr 3 1) (fun _ => 7) 12%Z = 7.
Proof.
  split.
  - apply (convolve3_writes_block 3 4 (fun k => IZR k) 1 1 (make_invr 3 1)
             create_array (fun _ => 7) 5); lia.
  - apply (convolve3_writes_block 3 4 (fun k => IZR k) 1 1 (make_invr 3 1)
             (fun _ => 7) create_array 12); lia.
Defined.

(** X2.  The two ends of the axis column, the cells (0,1) and (M-1,1), do
    not keep the value that the statements "j=1, i=0" and "j=1, i=M-1"
    compute with the [L0] kernel (weights 2, -6, 2): the loops over the
    rows [i=0] and [i=M-1] start at [j=1] and assign these cells again,
    with the weights 1, -4, 1 of the ordinary one-sided kernel and the
    first-derivative term multiplied by [invr[1]]. *)
Theorem convolve3_axis_ends
    (M N : Z) (a : array) (scale1 scale2 : R) (invr out : array) :
  (2 <= M)%Z -> (3 <= N)%Z ->
  convolve3 M N a scale1 scale2 invr out (OUT N 0 1)
  = scale1 * (A N a 0 0 - 4 * A N a 0 1 + A N a 0 2 + A N a 1 1)
    + scale2 * ((- A N a 0 0 + A N a 0 2) * invr 1%Z)
  /\ convolve3 M N a scale1 scale2 invr out (OUT N (M - 1) 1)
     = scale1 * (A N a (M - 2) 1
                 + A N a (M - 1) 0 - 4 * A N a (M - 1) 1 + A N a (M - 1) 2)
       + scale2 * ((- A N a (M - 1) 0 + A N a (M - 1) 2) * invr 1%Z).
Proof.
  intros HM HN. split.
  - exact (convolve3_top M N a scale1 scale2 invr out 1 HM ltac:(lia)).
  - exact (convolve3_bottom M N a scale1 scale2 invr out 1 HM ltac:(lia)).
Qed.

Lemma convolve3_axis_ends_witness :
  let a := fun k : Z => IZR k in
  convolve3 3 4 a 1 1 (make_invr 3 1) create_array (OUT 4 0 1)
  = 1 * (A 4 a 0 0 - 4 * A 4 a 0 1 + A 4 a 0 2 + A 4 a 1 1)
    + 1 * ((- A 4 a 0 0 + A 4 a 0 2) * make_invr 3 1 1%Z).
Proof.
  intros a.
  apply (convolve3_axis_ends 3 4 a 1 1 (make_invr 3 1) create_array); lia.
Defined.

(** X3.  [convolve3] is linear in the field: when the field [c] is the
    combination [x*a + y*b] on the block, so is its output, cell by cell,
    whatever the three output arrays held before. *)
Theorem convolve3_linear
    (M N : Z) (a b c : array) (x y scale1 scale2 : R) (invr oa ob oc : array)
    (k : Z) :
  (2 <= M)%Z -> (3 <= N)%Z ->
  (forall k', (0 <= k' < M * N)%Z -> c k' = x * a k' + y * b k') ->
  (0 <= k < M * N)%Z ->
  convolve3 M N c scale1 scale2 invr oc k
  = x * convolve3 M N a scale1 scale2 invr oa k
    + y * convolve3 M N b scale1 scale2 invr ob k.
Proof.
  intros HM HN Hc Hk.
  destruct (block_cell M N k ltac:(lia) Hk) as (i & j & Hi & Hj & ->).
  apply convolve3_combination; try assumption.
  intros i' j' Hi' Hj'. unfold A. apply Hc.
  apply (OUT_range M N i' j' Hi' Hj').
Qed.

Lemma convolve3_linear_witness :
  let a := fun k : Z => IZR k in
  let b := fun k : Z => 1 in
  let c := fun k : Z => 2 * IZR k + 3 * 1 in
  convolve3 3 4 c 1 1 (make_invr 3 1) create_array 6%Z
  = 2 * convolve3 3 4 a 1 1 (make_invr 3 1) create_array 6%Z
    + 3 * convolve3 3 4 b 1 1 (make_invr 3 1) create_array 6%Z.
Proof.
  intros a b c.
  apply (convolve3_linear 3 4 a b c 2 3 1 1 (make_invr 3 1)); try lia.
  intros k' _. reflexivity.
Defined.

(** ** The forward solver: what the probe curve records *)

Lemma for_loop_split {S : Type} (lo mid hi : Z) (body : Z -> S -> S) (s : S) :
  (lo <= mid <= hi)%Z ->
  for_loop lo hi body s = for_loop mid hi body (for_loop lo mid body s).
Proof.
  intros H.
  assert (G : forall n : nat,
            for_loop lo (mid + Z.of_nat n) body s
            = for_loop mid (mid + Z.of_nat n) body (for_loop lo mid body s)).
  { induction n as [|n IH].
    - rewrite Z.add_0_r. now rewrite (for_loop_empty mid mid) by lia.
    - replace (mid + Z.of_nat (Datatypes.S n))%Z with (mid + Z.of_nat n + 1)%Z by lia.
      rewrite !for_loop_last by lia. now rewrite IH. }
  specialize (G (Z.to_nat (hi - mid))).
  now replace (mid + Z.of_nat (Z.to_nat (hi - mid)))%Z with hi in G by lia.
Qed.

Section Combination.

Variables (nz nr iprobe jprobe iz1 iz2 nolayer : Z).
Variables (dt dr sdelay sduration : R).
Variables (alpha_so theta_so kappa_so : R).
Variables (alpha_sp theta_sp kappa_sp : R).
Variables (alpha_sr theta_sr kappa_sr : R).
Variable (dfree : R).
Variables (t invr : array).

Local Abbreviation step s :=
  (time_step nz nr iprobe jprobe iz1 iz2 nolayer dt dr sdelay sduration
     alpha_so theta_so kappa_so alpha_sp theta_sp kappa_sp
     alpha_sr theta_sr kappa_sr dfree t s invr).

Local Abbreviation state_at s :=
  (grids_at nz nr iprobe jprobe iz1 iz2 nolayer dt dr sdelay sduration
     alpha_so theta_so kappa_so alpha_sp theta_sp kappa_sp
     alpha_sr theta_sr kappa_sr dfree t s invr).

Local Abbreviation finish s :=
  (finish_step nz nr iz1 iz2 dt sdelay sduration kappa_so kappa_sp kappa_sr t s).

Local Abbreviation layered :=
  (layer_branch nz nr iz1 iz2 dt dr alpha_so theta_so alpha_sp theta_sp
     alpha_sr theta_sr dfree invr).

Local Abbreviation homogeneous :=
  (nolayer_branch nz nr dt dr theta_sr dfree invr).

(** Step [k] of the time loop stores the concentration at the probe as
    it is before the step, and no later step touches that entry. *)
Lemma probe_entry (s p : array) (k khi : Z) :
  (nds dt sdelay <= k < khi)%Z ->
  st_p (state_at s khi p) k = st_c (state_at s k p) (INDEX nr iprobe jprobe).
Proof.
  intros Hk. unfold grids_at.
  rewrite (for_loop_split (nds dt sdelay) (k + 1) khi) by lia.
  rewrite (for_loop_frame (fun st : grids => st_p st k)).
  - rewrite for_loop_last by lia. unfold time_step at 1. cbn [st_p].
    apply upd_eq.
  - intros k' st Hk'. apply time_step_probe. lia.
Qed.

Variables (x y : R).

Local Abbreviation combined c c1 c2 j0 :=
  (forall i j, (0 <= i < nz)%Z -> (j0 <= j <= nr)%Z ->
     c (INDEX nr i j) = x * c1 (INDEX nr i j) + y * c2 (INDEX nr i j)).

Hypothesis Hnr : (2 <= nr)%Z.
Hypothesis Hz1 : (0 <= iz1)%Z.
Hypothesis Hz12 : (iz1 <= iz2)%Z.
Hypothesis Hz2 : (iz2 + 2 <= nz)%Z.

Lemma finish_step_combination (s s1 s2 c c1 c2 : array) (k : Z) :
  (forall k', (0 <= k' < nz * (nr + 1))%Z -> s k' = x * s1 k' + y * s2 k') ->
  combined c c1 c2 1%Z ->
  combined (finish s k c) (finish s1 k c1) (finish s2 k c2) 0%Z.
Proof.
  intros Hs Hc.
  assert (G : combined (finish s k c) (finish s1 k c1) (finish s2 k c2) 1%Z).
  { intros i j Hi Hj.
    rewrite !(finish_step_cell nz nr iz1 iz2 dt sdelay sduration) by lia.
    rewrite (Hc i j Hi Hj).
    rewrite (Hs _ (INDEX_range nz nr i j Hi ltac:(lia))).
    destruct (Rlt_dec (t k + dt / 2) (sdelay + sduration)); ring. }
  intros i j Hi Hj. destruct (Z.eq_dec j 0) as [->|Hne].
  - rewrite !finish_step_column_0 by assumption. apply G; lia.
  - apply G; lia.
Qed.

Lemma nolayer_branch_combination (st st1 st2 : grids) :
  combined (st_c st) (st_c st1) (st_c st2) 0%Z ->
  combined (st_c (homogeneous st)) (st_c (homogeneous st1))
    (st_c (homogeneous st2)) 0%Z.
Proof.
  intros Hc i j Hi Hj. unfold nolayer_branch. cbn [st_c].
  rewrite !add_array_cell by (apply INDEX_range; lia).
  rewrite (Hc i j Hi Hj).
  rewrite (convolve3_combination nz (nr + 1) (st_c st1) (st_c st2) (st_c st) x y
             _ _ _ (st_dc st1) (st_dc st2) (st_dc st) i j); try lia.
  - rewrite !INDEX_OUT. ring.
  - intros i' j' Hi' Hj'. apply Hc; lia.
Qed.

Lemma layer_branch_combination (st st1 st2 : grids) :
  combined (st_c st) (st_c st1) (st_c st2) 0%Z ->
  combined (st_c (layered st)) (st_c (layered st1)) (st_c (layered st2)) 0%Z.
Proof.
  intros Hc i j Hi Hj. unfold layer_branch. cbn [st_c].
  set (c := st_c st) in *. set (c1 := st_c st1) in *. set (c2 := st_c st2) in *.
  assert (Hsr : forall j', (0 <= j' <= nr)%Z ->
            (dstar_sr theta_sr dfree * alpha_sr * c (INDEX nr iz1 j')
             + dstar_sp theta_sp dfree * alpha_sp * c (INDEX nr (iz1 + 1) j'))
            / (dstar_sr theta_sr dfree * alpha_sr + dstar_sp theta_sp dfree * alpha_sp)
            = x * ((dstar_sr theta_sr dfree * alpha_sr * c1 (INDEX nr iz1 j')
                    + dstar_sp theta_sp dfree * alpha_sp * c1 (INDEX nr (iz1 + 1) j'))
                   / (dstar_sr theta_sr dfree * alpha_sr
                      + dstar_sp theta_sp dfree * alpha_sp))
              + y * ((dstar_sr theta_sr dfree * alpha_sr * c2 (INDEX nr iz1 j')
                      + dstar_sp theta_sp dfree * alpha_sp * c2 (INDEX nr (iz1 + 1) j'))
                     / (dstar_sr theta_sr dfree * alpha_sr
                        + dstar_sp theta_sp dfree * alpha_sp))).
  { intros j' Hj'. rewrite !Hc by lia. unfold Rdiv. ring. }
  assert (Hso : forall j', (0 <= j' <= nr)%Z ->
            (dstar_sp theta_sp dfree * alpha_sp * c (INDEX nr iz2 j')
             + dstar_so theta_so dfree * alpha_so * c (INDEX nr (iz2 + 1) j'))
            / (dstar_sp theta_sp dfree * alpha_sp + dstar_so theta_so dfree * alpha_so)
            = x * ((dstar_sp theta_sp dfree * alpha_sp * c1 (INDEX nr iz2 j')
                    + dstar_so theta_so dfree * alpha_so * c1 (INDEX nr (iz2 + 1) j'))
                   / (dstar_sp theta_sp dfree * alpha_sp
                      + dstar_so theta_so dfree * alpha_so))
              + y * ((dstar_sp theta_sp dfree * alpha_sp * c2 (INDEX nr iz2 j')
                      + dstar_so theta_so dfree * alpha_so * c2 (INDEX nr (iz2 + 1) j'))
                     / (dstar_sp theta_sp dfree * alpha_sp
                        + dstar_so theta_so dfree * alpha_so))).
  { intros j' Hj'. rewrite !Hc by lia. unfold Rdiv. ring. }
  destruct (Z_le_gt_dec i iz1) as [L1|L1]; [|destruct (Z_le_gt_dec i iz2) as [L2|L2]].
  - (* SR *)
    rewrite !update_layers_sr by lia.
    rewrite !INDEX_OUT.
    match goal with
    | |- ?a (OUT _ _ _) + convolve3 _ _ ?a _ _ _ ?oa _
         = x * (?a1 _ + convolve3 _ _ ?a1 _ _ _ ?oa1 _)
           + y * (?a2 _ + convolve3 _ _ ?a2 _ _ _ ?oa2 _) =>
        assert (Hb : forall i' j', (0 <= i' < iz1 + 2)%Z -> (0 <= j' < nr + 1)%Z ->
                  A (nr + 1) a i' j' = x * A (nr + 1) a1 i' j' + y * A (nr + 1) a2 i' j')
    end.
    { intros i' j' Hi' Hj'. unfold A. fold (INDEX nr i' j').
      destruct (Z_le_gt_dec i' iz1).
      - rewrite !build_layers_sr_row by lia. apply Hc; lia.
      - replace i' with (iz1 + 1)%Z by lia.
        rewrite !build_layers_sr_ghost by lia.
        rewrite !interface_values_sr by lia.
        fold c c1 c2. rewrite Hsr by lia. rewrite (Hc iz1 j') by lia. ring. }
    match goal with
    | |- _ + convolve3 ?M ?N ?a ?s1 ?s2 ?iv ?oa _
         = x * (_ + convolve3 _ _ ?a1 _ _ _ ?oa1 _)
           + y * (_ + convolve3 _ _ ?a2 _ _ _ ?oa2 _) =>
        rewrite (convolve3_combination M N a1 a2 a x y s1 s2 iv oa1 oa2 oa i j
                   ltac:(lia) ltac:(lia) ltac:(lia) ltac:(lia) Hb)
    end.
    pose proof (Hb i j ltac:(lia) ltac:(lia)) as Hij. unfold A in Hij.
    unfold OUT. rewrite Hij. ring.
  - (* SP *)
    rewrite !update_layers_sp by lia.
    rewrite !INDEX_OUT.
    match goal with
    | |- ?a (OUT _ _ _) + convolve3 _ _ ?a _ _ _ ?oa _
         = x * (?a1 _ + convolve3 _ _ ?a1 _ _ _ ?oa1 _)
           + y * (?a2 _ + convolve3 _ _ ?a2 _ _ _ ?oa2 _) =>
        assert (Hb : forall i' j', (0 <= i' < iz2 - iz1 + 2)%Z -> (0 <= j' < nr + 1)%Z ->
                  A (nr + 1) a i' j' = x * A (nr + 1) a1 i' j' + y * A (nr + 1) a2 i' j')
    end.
    { intros i' j' Hi' Hj'. unfold A. fold (INDEX nr i' j').
      destruct (Z.eq_dec i' 0) as [->|H0];
        [|destruct (Z.eq_dec i' (iz2 - iz1 + 1)) as [->|H1]].
      - rewrite !build_layers_sp_ghost_sr by lia.
        rewrite !interface_values_sr by lia.
        fold c c1 c2. rewrite Hsr by lia. rewrite (Hc (iz1 + 1)%Z j') by lia. ring.
      - rewrite !build_layers_sp_ghost_so by lia.
        rewrite !interface_values_so by lia.
        fold c c1 c2. rewrite Hso by lia. rewrite (Hc iz2 j') by lia. ring.
      - replace i' with (i' + iz1 - iz1)%Z by lia.
        rewrite !build_layers_sp_row by lia. apply Hc; lia. }
    match goal with
    | |- _ + convolve3 ?M ?N ?a ?s1 ?s2 ?iv ?oa _
         = x * (_ + convolve3 _ _ ?a1 _ _ _ ?oa1 _)
           + y * (_ + convolve3 _ _ ?a2 _ _ _ ?oa2 _) =>
        rewrite (convolve3_combination M N a1 a2 a x y s1 s2 iv oa1 oa2 oa (i - iz1) j
                   ltac:(lia) ltac:(lia) ltac:(lia) ltac:(lia) Hb)
    end.
    pose proof (Hb (i - iz1)%Z j ltac:(lia) ltac:(lia)) as Hij. unfold A in Hij.
    unfold OUT. rewrite Hij. ring.
  - (* SO *)
    rewrite !update_layers_so by lia.
    rewrite !INDEX_OUT.
    match goal with
    | |- ?a (OUT _ _ _) + convolve3 _ _ ?a _ _ _ ?oa _
         = x * (?a1 _ + convolve3 _ _ ?a1 _ _ _ ?oa1 _)
           + y * (?a2 _ + convolve3 _ _ ?a2 _ _ _ ?oa2 _) =>
        assert (Hb : forall i' j', (0 <= i' < nz - iz2)%Z -> (0 <= j' < nr + 1)%Z ->
                  A (nr + 1) a i' j' = x * A (nr + 1) a1 i' j' + y * A (nr + 1) a2 i' j')
    end.
    { intros i' j' Hi' Hj'. unfold A. fold (INDEX nr i' j').
      destruct (Z.eq_dec i' 0) as [->|H0].
      - rewrite !build_layers_so_ghost by lia.
        rewrite !interface_values_so by lia.
        fold c c1 c2. rewrite Hso by lia. rewrite (Hc (iz2 + 1)%Z j') by lia. ring.
      - replace i' with (i' + iz2 - iz2)%Z by lia.
        rewrite !build_layers_so_row by lia. apply Hc; lia. }
    match goal with
    | |- _ + convolve3 ?M ?N ?a ?s1 ?s2 ?iv ?oa _
         = x * (_ + convolve3 _ _ ?a1 _ _ _ ?oa1 _)
           + y * (_ + convolve3 _ _ ?a2 _ _ _ ?oa2 _) =>
        rewrite (convolve3_combination M N a1 a2 a x y s1 s2 iv oa1 oa2 oa (i - iz2) j
                   ltac:(lia) ltac:(lia) ltac:(lia) ltac:(lia) Hb)
    end.
    pose proof (Hb (i - iz2)%Z j ltac:(lia) ltac:(lia)) as Hij. unfold A in Hij.
    unfold OUT. rewrite Hij. ring.
Qed.

Lemma time_step_combination (s s1 s2 : array) (st st1 st2 : grids) (k : Z) :
  (forall k', (0 <= k' < nz * (nr + 1))%Z -> s k' = x * s1 k' + y * s2 k') ->
  combined (st_c st) (st_c st1) (st_c st2) 0%Z ->
  combined (st_c (step s k st)) (st_c (step s1 k st1)) (st_c (step s2 k st2)) 0%Z.
Proof.
  intros Hs Hc. unfold time_step. cbn [st_c].
  apply finish_step_combination; [assumption|].
  intros i j Hi Hj. destruct (nolayer =? FALSE)%Z.
  - apply layer_branch_combination; [assumption | lia | lia].
  - apply nolayer_branch_combination; [assumption | lia | lia].
Qed.

Lemma grids_at_combination (s s1 s2 p p1 p2 : array) (khi : Z) :
  (forall k', (0 <= k' < nz * (nr + 1))%Z -> s k' = x * s1 k' + y * s2 k') ->
  (nds dt sdelay <= khi)%Z ->
  combined (st_c (state_at s khi p)) (st_c (state_at s1 khi p1))
    (st_c (state_at s2 khi p2)) 0%Z.
Proof.
  intros Hs Hk.
  replace khi with (nds dt sdelay + Z.of_nat (Z.to_nat (khi - nds dt sdelay)))%Z by lia.
  induction (Z.to_nat (khi - nds dt sdelay)) as [|n IH].
  - rewrite Z.add_0_r, !grids_at_start. intros i j Hi Hj.
    pose proof (INDEX_range nz nr i j Hi Hj).
    rewrite !initial_grids_c by assumption. now apply Hs.
  - replace (nds dt sdelay + Z.of_nat (Datatypes.S n))%Z
      with (nds dt sdelay + Z.of_nat n + 1)%Z by lia.
    rewrite !grids_at_next by lia.
    now apply time_step_combination.
Qed.

End Combination.

(** X4.  The probe curve is linear in the source array: when [s] is the
    combination [x*s1 + y*s2] on the grid, the curve computed from [s] is
    the same combination of the curves computed from [s1] and [s2], at
    every index [0 <= k < nt], in the 3-layer and in the 1-layer mode and
    whatever the three probe arrays held before.  In particular a source
    array of zeros gives a curve of zeros, and the curve is proportional
    to the source current. *)
Theorem probe_curve_linear
    (nt nz nr iprobe jprobe iz1 iz2 nolayer : Z)
    (dt dr sdelay sduration : R)
    (alpha_so theta_so kappa_so alpha_sp theta_sp kappa_sp
       alpha_sr theta_sr kappa_sr dfree : R)
    (t invr : array) (x y : R) (s s1 s2 p p1 p2 : array) :
  let solve := calc_diffusion_curve_layer_fit_layer nt nz nr iprobe jprobe
                 iz1 iz2 nolayer dt dr sdelay sduration
                 alpha_so theta_so kappa_so alpha_sp theta_sp kappa_sp
                 alpha_sr theta_sr kappa_sr dfree t in
  (2 <= nr)%Z -> (0 <= iz1)%Z -> (iz1 <= iz2)%Z -> (iz2 + 2 <= nz)%Z ->
  (0 <= iprobe < nz)%Z -> (0 <= jprobe <= nr)%Z ->
  (lround (sdelay / dt) < nt)%Z ->
  (forall k, (0 <= k < nz * (nr + 1))%Z -> s k = x * s1 k + y * s2 k) ->
  exists curve curve1 curve2,
    solve s invr p = Done curve
    /\ solve s1 invr p1 = Done curve1
    /\ solve s2 invr p2 = Done curve2
    /\ forall k, (0 <= k < nt)%Z -> curve k = x * curve1 k + y * curve2 k.
Proof.
  intros solve Hnr Hz1 Hz12 Hz2 Hip Hjp Hd Hs.
  unfold solve, calc_diffusion_curve_layer_fit_layer.
  change (nds dt sdelay) with (lround (sdelay / dt)).
  destruct (Z.geb_spec (lround (sdelay / dt)) nt); [lia|].
  do 3 eexists. repeat split.
  intros k Hk.
  destruct (Z_lt_ge_dec k (lround (sdelay / dt))) as [Hlt|Hge].
  - rewrite !probe_before_delay by (unfold nds; lia). ring.
  - rewrite !probe_entry by (unfold nds; lia).
    apply grids_at_combination; try assumption; unfold nds; lia.
Qed.

Lemma probe_curve_linear_witness :
  let solve :=
    calc_diffusion_curve_layer_fit_layer 3 6 3 2 1 1 3 FALSE (1 / 10) 1 0 1
      (1 / 5) (2 / 5) (1 / 100) (1 / 10) (3 / 10) (1 / 50) (1 / 5) (2 / 5) (1 / 200) 1
      (fun k => IZR k / 10) in
  exists curve curve1 curve2,
    solve (fun k => 2 * IZR k + 3 * 1) (make_invr 3 1) create_array = Done curve
    /\ solve (fun k => IZR k) (make_invr 3 1) (fun _ => 7) = Done curve1
    /\ solve (fun _ => 1) (make_invr 3 1) (fun _ => 9) = Done curve2
    /\ forall k, (0 <= k < 3)%Z -> curve k = 2 * curve1 k + 3 * curve2 k.
Proof.
  assert (E : lround (0 / (1 / 10)) = 0%Z).
  { replace (0 / (1 / 10)) with (IZR 0) by lra. apply lround_IZR. }
  apply (probe_curve_linear 3 6 3 2 1 1 3 FALSE (1 / 10) 1 0 1
           (1 / 5) (2 / 5) (1 / 100) (1 / 10) (3 / 10) (1 / 50) (1 / 5) (2 / 5)
           (1 / 200) 1 (fun k => IZR k / 10) (make_invr 3 1) 2 3
           (fun k => 2 * IZR k + 3 * 1) (fun k => IZR k) (fun _ => 1)
           create_array (fun _ => 7) (fun _ => 9)); try lia.
  intros k Hk. reflexivity.
Defined.

(** ** The forward solver: three identical layers *)

Ltac same_cells := first [reflexivity | lia | (f_equal; same_cells)].

(** A window of [M'] rows that starts at row [r0] of a field of [M] rows:
    the stencil gives the same value in the window and in the field at
    every cell whose row is an end row of both or of neither. *)
Lemma convolve3_window
    (M M' N r0 : Z) (a a' : array) (scale1 scale2 : R) (invr out out' : array)
    (i j : Z) :
  (2 <= M')%Z -> (3 <= N)%Z -> (0 <= r0)%Z -> (r0 + M' <= M)%Z ->
  (0 <= i < M')%Z -> (0 <= j < N)%Z ->
  (i = 0%Z <-> (i + r0)%Z = 0%Z) ->
  (i = (M' - 1)%Z <-> (i + r0)%Z = (M - 1)%Z) ->
  (forall i' j', (0 <= i' < M')%Z -> (0 <= j' < N)%Z ->
     A N a' i' j' = A N a (i' + r0) j') ->
  convolve3 M' N a' scale1 scale2 invr out' (OUT N i j)
  = convolve3 M N a scale1 scale2 invr out (OUT N (i + r0) j).
Proof.
  intros HM HN Hr0 Hr1 Hi Hj Hfirst Hlast Hw.
  destruct (Z.eq_dec i 0) as [E0|N0]; [|destruct (Z.eq_dec i (M' - 1)) as [E1|N1]].
  - assert (Er : r0 = 0%Z) by (apply Hfirst in E0; lia).
    subst i r0. clear Hfirst Hlast. replace (0 + 0)%Z with 0%Z by lia.
    destruct (Z.eq_dec j 0) as [->|?]; [|destruct (Z.eq_dec j (N - 1)) as [->|?]];
      conv_cell; rewrite !Hw by lia; same_cells.
  - assert (Er : (i + r0 = M - 1)%Z) by (now apply Hlast).
    rewrite Er. subst i. clear Hfirst Hlast.
    destruct (Z.eq_dec j 0) as [->|?]; [|destruct (Z.eq_dec j (N - 1)) as [->|?]];
      conv_cell; rewrite !Hw by lia; same_cells.
  - assert (i + r0 <> 0)%Z by (intros E; apply Hfirst in E; lia).
    assert (i + r0 <> M - 1)%Z by (intros E; apply Hlast in E; lia).
    clear Hfirst Hlast.
    destruct (Z.eq_dec j 0) as [->|?];
      [|destruct (Z.eq_dec j (N - 1)) as [->|?]; [|destruct (Z.eq_dec j 1) as [->|?]]];
      conv_cell; rewrite !Hw by lia; same_cells.
Qed.

Lemma interface_midpoint (q u v : R) :
  q <> 0 -> 2 * ((q * u + q * v) / (q + q)) - u = v.
Proof. intros H. field. lra. Qed.

Section Identical.

Variables (nz nr iprobe jprobe iz1 iz2 : Z).
Variables (dt dr sdelay sduration : R).
Variables (alpha theta kappa_so kappa_sp kappa_sr dfree : R).
Variables (t s invr : array).

Hypothesis Hnr : (2 <= nr)%Z.
Hypothesis Hz1 : (0 <= iz1)%Z.
Hypothesis Hz12 : (iz1 <= iz2)%Z.
Hypothesis Hz2 : (iz2 + 2 <= nz)%Z.
Hypothesis Hq : theta * dfree * alpha <> 0.

Local Abbreviation layered :=
  (layer_branch nz nr iz1 iz2 dt dr alpha theta alpha theta alpha theta dfree invr).

Local Abbreviation homogeneous :=
  (nolayer_branch nz nr dt dr theta dfree invr).

Local Abbreviation step nolayer :=
  (time_step nz nr iprobe jprobe iz1 iz2 nolayer dt dr sdelay sduration
     alpha theta kappa_so alpha theta kappa_sp alpha theta kappa_sr dfree t s invr).

Local Abbreviation state_at nolayer :=
  (grids_at nz nr iprobe jprobe iz1 iz2 nolayer dt dr sdelay sduration
     alpha theta kappa_so alpha theta kappa_sp alpha theta kappa_sr dfree t s invr).

Local Abbreviation same_field c c' :=
  (forall i j, (0 <= i < nz)%Z -> (0 <= j <= nr)%Z ->
     c (INDEX nr i j) = c' (INDEX nr i j)).

(** With the same [alpha] and [theta] on both sides of an interface the
    interface value is the mean of the two rows, so every extrapolated row
    is the neighbouring row of the field. *)
Lemma layer_branch_identical (st : grids) :
  same_field (st_c (layered st)) (st_c (homogeneous st)).
Proof.
  intros i j Hi Hj. unfold layer_branch, nolayer_branch. cbn [st_c].
  rewrite add_array_cell by (apply INDEX_range; lia).
  set (c := st_c st).
  unfold const_sr1, const_sr2, const_sp1, const_sp2, const_so1, const_so2,
    dstar_sr, dstar_sp, dstar_so.
  destruct (Z_le_gt_dec i iz1) as [L1|L1]; [|destruct (Z_le_gt_dec i iz2) as [L2|L2]].
  - rewrite update_layers_sr by lia.
    rewrite build_layers_sr_row by lia. f_equal.
    rewrite !INDEX_OUT.
    rewrite (convolve3_window nz (iz1 + 2) (nr + 1) 0 c _ _ _ _ (st_dc st) _ i j);
      try lia.
    + now replace (i + 0)%Z with i by lia.
    + intros i' j' Hi' Hj'. unfold A. fold (INDEX nr i' j').
      fold (INDEX nr (i' + 0) j'). replace (i' + 0)%Z with i' by lia.
      destruct (Z_le_gt_dec i' iz1).
      * now rewrite build_layers_sr_row by lia.
      * replace i' with (iz1 + 1)%Z by lia.
        rewrite build_layers_sr_ghost by lia.
        rewrite interface_values_sr by lia.
        unfold dstar_sr, dstar_sp. now apply interface_midpoint.
  - rewrite update_layers_sp by lia.
    rewrite build_layers_sp_row by lia. f_equal.
    rewrite !INDEX_OUT.
    rewrite (convolve3_window nz (iz2 - iz1 + 2) (nr + 1) iz1 c _ _ _ _ (st_dc st) _
               (i - iz1) j); try lia.
    + now replace (i - iz1 + iz1)%Z with i by lia.
    + intros i' j' Hi' Hj'. unfold A. fold (INDEX nr i' j').
      fold (INDEX nr (i' + iz1) j').
      destruct (Z.eq_dec i' 0) as [->|H0];
        [|destruct (Z.eq_dec i' (iz2 - iz1 + 1)) as [->|H1]].
      * rewrite build_layers_sp_ghost_sr by lia.
        rewrite interface_values_sr by lia.
        unfold dstar_sr, dstar_sp. replace (0 + iz1)%Z with iz1 by lia.
        rewrite Rplus_comm. now apply interface_midpoint.
      * rewrite build_layers_sp_ghost_so by lia.
        rewrite interface_values_so by lia.
        unfold dstar_so, dstar_sp.
        replace (iz2 - iz1 + 1 + iz1)%Z with (iz2 + 1)%Z by lia.
        now apply interface_midpoint.
      * replace (INDEX nr i' j') with (INDEX nr (i' + iz1 - iz1) j')
          by (f_equal; lia).
        now rewrite build_layers_sp_row by lia.
  - rewrite update_layers_so by lia.
    rewrite build_layers_so_row by lia. f_equal.
    rewrite !INDEX_OUT.
    rewrite (convolve3_window nz (nz - iz2) (nr + 1) iz2 c _ _ _ _ (st_dc st) _
               (i - iz2) j); try lia.
    + now replace (i - iz2 + iz2)%Z with i by lia.
    + intros i' j' Hi' Hj'. unfold A. fold (INDEX nr i' j').
      fold (INDEX nr (i' + iz2) j').
      destruct (Z.eq_dec i' 0) as [->|H0].
      * rewrite build_layers_so_ghost by lia.
        rewrite interface_values_so by lia.
        unfold dstar_so, dstar_sp. replace (0 + iz2)%Z with iz2 by lia.
        rewrite Rplus_comm. now apply interface_midpoint.
      * replace (INDEX nr i' j') with (INDEX nr (i' + iz2 - iz2) j')
          by (f_equal; lia).
        now rewrite build_layers_so_row by lia.
Qed.

Lemma time_step_identical (nolayer : Z) (st st' : grids) (k : Z) :
  nolayer <> FALSE ->
  same_field (st_c st) (st_c st') ->
  same_field (st_c (step FALSE k st)) (st_c (step nolayer k st')).
Proof.
  intros Hn Hc i j Hi Hj.
  transitivity (st_c (step nolayer k st) (INDEX nr i j)).
  - rewrite time_step_layered by reflexivity.
    rewrite time_step_homogeneous by assumption. cbv zeta. cbn [st_c].
    rewrite (finish_step_combination nz nr iz1 iz2 dt sdelay sduration
               kappa_so kappa_sp kappa_sr t 1 0 Hnr Hz12 s s s
               _ (st_c (homogeneous st)) (st_c (homogeneous st)) k);
      [ring | intros; ring | | assumption | assumption].
    intros i' j' Hi' Hj'. rewrite layer_branch_identical by lia. ring.
  - rewrite (time_step_combination nz nr iprobe jprobe iz1 iz2 nolayer
               dt dr sdelay sduration alpha theta kappa_so alpha theta kappa_sp
               alpha theta kappa_sr dfree t invr 1 0 Hnr Hz1 Hz12 Hz2
               s s s st st' st' k);
      [ring | intros; ring | | assumption | assumption].
    intros i' j' Hi' Hj'. rewrite Hc by assumption. ring.
Qed.

Lemma grids_at_identical (nolayer : Z) (p p' : array) (khi : Z) :
  nolayer <> FALSE -> (nds dt sdelay <= khi)%Z ->
  same_field (st_c (state_at FALSE khi p)) (st_c (state_at nolayer khi p')).
Proof.
  intros Hn Hk.
  replace khi with (nds dt sdelay + Z.of_nat (Z.to_nat (khi - nds dt sdelay)))%Z by lia.
  induction (Z.to_nat (khi - nds dt sdelay)) as [|n IH].
  - rewrite Z.add_0_r, !grids_at_start. intros i j Hi Hj.
    pose proof (INDEX_range nz nr i j Hi Hj).
    now rewrite !initial_grids_c by assumption.
  - replace (nds dt sdelay + Z.of_nat (Datatypes.S n))%Z
      with (nds dt sdelay + Z.of_nat n + 1)%Z by lia.
    rewrite !grids_at_next by lia.
    now apply time_step_identical.
Qed.

End Identical.

(** X5.  Three layers with one [alpha] and one [theta] are one medium:
    when the three layers are given the same volume fraction and the same
    permeability (with [theta * dfree * alpha] not zero), the 3-layer
    branch, with its interface values, extrapolated rows and three
    separate stencils, makes every time step the same field on the grid
    as the 1-layer branch, and so the same probe curve, whatever the
    three clearance constants and the positions of the interfaces are. *)
Theorem identical_layers_same_curve
    (nt nz nr iprobe jprobe iz1 iz2 nolayer : Z)
    (dt dr sdelay sduration alpha theta kappa_so kappa_sp kappa_sr dfree : R)
    (t s invr p p' : array) :
  let solve nolayer :=
    calc_diffusion_curve_layer_fit_layer nt nz nr iprobe jprobe iz1 iz2 nolayer
      dt dr sdelay sduration alpha theta kappa_so alpha theta kappa_sp
      alpha theta kappa_sr dfree t s invr in
  let step nolayer :=
    time_step nz nr iprobe jprobe iz1 iz2 nolayer dt dr sdelay sduration
      alpha theta kappa_so alpha theta kappa_sp alpha theta kappa_sr dfree
      t s invr in
  (2 <= nr)%Z -> (0 <= iz1)%Z -> (iz1 <= iz2)%Z -> (iz2 + 2 <= nz)%Z ->
  (0 <= iprobe < nz)%Z -> (0 <= jprobe <= nr)%Z ->
  theta * dfree * alpha <> 0 ->
  nolayer <> FALSE ->
  (forall (k : Z) (st : grids) (i j : Z),
      (0 <= i < nz)%Z -> (0 <= j <= nr)%Z ->
      st_c (step FALSE k st) (INDEX nr i j)
      = st_c (step nolayer k st) (INDEX nr i j))
  /\ ((lround (sdelay / dt) < nt)%Z ->
      exists curve curve',
        solve FALSE p = Done curve
        /\ solve nolayer p' = Done curve'
        /\ forall k, (0 <= k < nt)%Z -> curve k = curve' k).
Proof.
  intros solve step Hnr Hz1 Hz12 Hz2 Hip Hjp Hq Hn. split.
  - intros k st i j Hi Hj. unfold step.
    now apply time_step_identical.
  - intros Hd. unfold solve, calc_diffusion_curve_layer_fit_layer.
    change (nds dt sdelay) with (lround (sdelay / dt)).
    destruct (Z.geb_spec (lround (sdelay / dt)) nt); [lia|].
    do 2 eexists. repeat split.
    intros k Hk.
    destruct (Z_lt_ge_dec k (lround (sdelay / dt))) as [Hlt|Hge].
    + now rewrite !probe_before_delay by (unfold nds; lia).
    + rewrite !probe_entry by (unfold nds; lia).
      apply grids_at_identical; try assumption; unfold nds; lia.
Qed.

Lemma identical_layers_same_curve_witness :
  let solve nolayer :=
    calc_diffusion_curve_layer_fit_layer 3 6 3 2 1 1 3 nolayer (1 / 10) 1 0 1
      (1 / 5) (2 / 5) (1 / 100) (1 / 5) (2 / 5) (1 / 50) (1 / 5) (2 / 5) (1 / 200) 1
      (fun k => IZR k / 10) (fun k => IZR k) (make_invr 3 1) in
  exists curve curve',
    solve FALSE create_array = Done curve
    /\ solve TRUE (fun _ => 7) = Done curve'
    /\ forall k, (0 <= k < 3)%Z -> curve k = curve' k.
Proof.
  assert (E : lround (0 / (1 / 10)) = 0%Z).
  { replace (0 / (1 / 10)) with (IZR 0) by lra. apply lround_IZR. }
  apply (identical_layers_same_curve 3 6 3 2 1 1 3 TRUE (1 / 10) 1 0 1
           (1 / 5) (2 / 5) (1 / 100) (1 / 50) (1 / 200) 1
           (fun k => IZR k / 10) (fun k => IZR k) (make_invr 3 1)
           create_array (fun _ => 7)); try lia.
  - lra.
  - discriminate.
Defined.

(** ** The forward solver: the entries of the probe curve *)

(** X6.  The solver writes the entries [0 .. nt-1] of the probe array and
    no other: an entry outside that range keeps what the caller's array
    held, and an entry inside does not depend on it.  The first entry
    after the delay, [curve[nds]], is the value of the source array at
    the probe cell: the field starts as a copy of [s] and is recorded
    before the first step is made. *)
Theorem probe_curve_entries
    (nt nz nr iprobe jprobe iz1 iz2 nolayer : Z)
    (dt dr sdelay sduration : R)
    (alpha_so theta_so kappa_so alpha_sp theta_sp kappa_sp
       alpha_sr theta_sr kappa_sr dfree : R)
    (t s invr p p' : array) :
  let solve := calc_diffusion_curve_layer_fit_layer nt nz nr iprobe jprobe
                 iz1 iz2 nolayer dt dr sdelay sduration
                 alpha_so theta_so kappa_so alpha_sp theta_sp kappa_sp
                 alpha_sr theta_sr kappa_sr dfree t s invr in
  (2 <= nr)%Z -> (0 <= iz1)%Z -> (iz1 <= iz2)%Z -> (iz2 + 2 <= nz)%Z ->
  (0 <= iprobe < nz)%Z -> (0 <= jprobe <= nr)%Z ->
  (0 <= lround (sdelay / dt) < nt)%Z ->
  exists curve curve',
    solve p = Done curve
    /\ solve p' = Done curve'
    /\ curve (lround (sdelay / dt)) = s (INDEX nr iprobe jprobe)
    /\ (forall k, (0 <= k < nt)%Z -> curve k = curve' k)
    /\ (forall k, (k < 0 \/ nt <= k)%Z -> curve k = p k).
Proof.
  intros solve Hnr Hz1 Hz12 Hz2 Hip Hjp Hd.
  unfold solve, calc_diffusion_curve_layer_fit_layer.
  change (nds dt sdelay) with (lround (sdelay / dt)).
  destruct (Z.geb_spec (lround (sdelay / dt)) nt); [lia|].
  do 2 eexists. repeat split.
  - rewrite probe_entry by (unfold nds; lia).
    fold (nds dt sdelay). rewrite grids_at_start.
    apply initial_grids_c. apply INDEX_range; lia.
  - intros k Hk.
    destruct (Z_lt_ge_dec k (lround (sdelay / dt))) as [Hlt|Hge].
    + now rewrite !probe_before_delay by (unfold nds; lia).
    + rewrite !probe_entry by (unfold nds; lia).
      rewrite (grids_at_combination nz nr iprobe jprobe iz1 iz2 nolayer
                 dt dr sdelay sduration alpha_so theta_so kappa_so
                 alpha_sp theta_sp kappa_sp alpha_sr theta_sr kappa_sr dfree
                 t invr 1 0 Hnr Hz1 Hz12 Hz2 s s s p p' p' k);
        [ring | intros; ring | unfold nds; lia | assumption | assumption].
  - intros k Hk. unfold grids_at.
    rewrite (for_loop_frame (fun st : grids => st_p st k)).
    + unfold initial_grids. cbn [st_p].
      apply loop_skip. intros k' o Hk'. apply upd_neq.
      fold (nds dt sdelay) in Hd. lia.
    + intros k' st Hk'. apply time_step_probe.
      fold (nds dt sdelay) in Hd. lia.
Qed.

Lemma probe_curve_entries_witness :
  let solve :=
    calc_diffusion_curve_layer_fit_layer 3 6 3 2 1 1 3 FALSE (1 / 10) 1 0 1
      (1 / 5) (2 / 5) (1 / 100) (1 / 10) (3 / 10) (1 / 50) (1 / 5) (2 / 5) (1 / 200) 1
      (fun k => IZR k / 10) (fun k => IZR k) (make_invr 3 1) in
  exists curve curve',
    solve create_array = Done curve
    /\ solve (fun _ => 7) = Done curve'
    /\ curve (lround (0 / (1 / 10))) = IZR (INDEX 3 2 1)
    /\ (forall k, (0 <= k < 3)%Z -> curve k = curve' k)
    /\ (forall k, (k < 0 \/ 3 <= k)%Z -> curve k = create_array k).
Proof.
  assert (E : lround (0 / (1 / 10)) = 0%Z).
  { replace (0 / (1 / 10)) with (IZR 0) by lra. apply lround_IZR. }
  apply (probe_curve_entries 3 6 3 2 1 1 3 FALSE (1 / 10) 1 0 1
           (1 / 5) (2 / 5) (1 / 100) (1 / 10) (3 / 10) (1 / 50) (1 / 5) (2 / 5)
           (1 / 200) 1 (fun k => IZR k / 10) (fun k => IZR k) (make_invr 3 1)
           create_array (fun _ => 7)); lia.
Defined.

(** ** main and the solver: the time grid *)

Lemma lround_multiple (dt : R) (n : Z) : dt <> 0 -> lround (dt * IZR n / dt) = n.
Proof.
  intros H. replace (dt * IZR n / dt) with (IZR n) by (field; exact H).
  apply lround_IZR.
Qed.

Lemma make_t_entry (nt : Z) (dt : R) (k : Z) :
  (0 <= k < nt)%Z -> make_t nt dt k = dt * IZR k.
Proof.
  intros Hk. unfold make_t.
  apply (loop_hit k); [lia | |].
  - intros i o Hi Hne. apply upd_neq. lia.
  - intros o. apply upd_eq.
Qed.

Lemma round_times_done (dt tmax sduration sdelay : R) (g : time_grid) :
  round_times dt tmax sduration sdelay = Done g ->
  g = mkTimeGrid (lround (tmax / dt)) (dt * IZR (lround (tmax / dt)))
        (lround (sduration / dt)) (dt * IZR (lround (sduration / dt)))
        (lround (sdelay / dt)) (dt * IZR (lround (sdelay / dt)))
  /\ tg_sdelay g < tg_tmax g
  /\ tg_sduration g < tg_tmax g
  /\ tg_sdelay g + tg_sduration g < tg_tmax g.
Proof.
  unfold round_times. intros H.
  destruct (Rge_dec (dt * IZR (lround (sdelay / dt))) (dt * IZR (lround (tmax / dt))));
    [discriminate|].
  destruct (Rge_dec (dt * IZR (lround (sduration / dt)))
              (dt * IZR (lround (tmax / dt)))); [discriminate|].
  destruct (Rge_dec (dt * IZR (lround (sdelay / dt))
                     + dt * IZR (lround (sduration / dt)))
              (dt * IZR (lround (tmax / dt)))); [discriminate|].
  injection H as <-. cbn. repeat split; lra.
Qed.

Lemma scaled_lt (dt : R) (a b : Z) : 0 < dt -> dt * IZR a < dt * IZR b -> (a < b)%Z.
Proof.
  intros Hdt H. apply lt_IZR. nra.
Qed.


Lemma round_times_multiples (dt : R) (n_t n_s n_ds : Z) :
  0 < dt -> (n_ds < n_t)%Z -> (n_s < n_t)%Z -> (n_ds + n_s < n_t)%Z ->
  round_times dt (dt * IZR n_t) (dt * IZR n_s) (dt * IZR n_ds)
  = Done (mkTimeGrid n_t (dt * IZR n_t) n_s (dt * IZR n_s) n_ds (dt * IZR n_ds)).
Proof.
  intros Hdt L1 L2 L3. unfold round_times.
  rewrite !lround_multiple by lra.
  apply IZR_lt in L1, L2, L3. rewrite plus_IZR in L3.
  destruct (Rge_dec (dt * IZR n_ds) (dt * IZR n_t)); [nra|].
  destruct (Rge_dec (dt * IZR n_s) (dt * IZR n_t)); [nra|].
  destruct (Rge_dec (dt * IZR n_ds + dt * IZR n_s) (dt * IZR n_t)); [nra|].
  reflexivity.
Qed.


(** X8.  With the time grid of [main] ([t[k] = dt * k], delay and
    duration the multiples [dt * nds] and [dt * ns]) the field is a copy
    of the source array when the time loop is entered, and step [k] of
    the loop adds the source array once more exactly when
    [k < nds + ns]: the steps [nds .. nds+ns-1] add it and no later step
    does.  In a cell off column 0 the step leaves
    [(c + s) * (1 - kappa * dt)], respectively [c * (1 - kappa * dt)],
    where [c] is the cell after the Laplacian was added and [kappa] the
    clearance of the cell's layer. *)
Theorem source_added_until_duration
    (dt tmax sduration sdelay : R) (g : time_grid)
    (nz nr iprobe jprobe iz1 iz2 nolayer : Z)
    (dr alpha_so theta_so kappa_so alpha_sp theta_sp kappa_sp
       alpha_sr theta_sr kappa_sr dfree : R)
    (s invr p c : array) (k i j : Z) :
  let t := make_t (tg_nt g) dt in
  let kappa := if (i <=? iz1)%Z then kappa_sr
               else if (i <=? iz2)%Z then kappa_sp else kappa_so in
  0 < dt ->
  round_times dt tmax sduration sdelay = Done g ->
  (iz1 <= iz2)%Z -> (0 <= i < nz)%Z -> (1 <= j <= nr)%Z -> (0 <= k < tg_nt g)%Z ->
  st_c (grids_at nz nr iprobe jprobe iz1 iz2 nolayer dt dr
          (tg_sdelay g) (tg_sduration g)
          alpha_so theta_so kappa_so alpha_sp theta_sp kappa_sp
          alpha_sr theta_sr kappa_sr dfree t s invr (tg_nds g) p) (INDEX nr i j)
  = s (INDEX nr i j)
  /\ finish_step nz nr iz1 iz2 dt (tg_sdelay g) (tg_sduration g)
       kappa_so kappa_sp kappa_sr t s k c (INDEX nr i j)
     = (c (INDEX nr i j)
        + (if (k <? tg_nds g + tg_ns g)%Z then s (INDEX nr i j) else 0))
       * (1 - kappa * dt).
Proof.
  intros t kappa Hdt H Hz Hi Hj Hk.
  apply round_times_done in H. destruct H as (-> & H1 & H2 & H3).
  cbn [tg_nt tg_tmax tg_ns tg_sduration tg_nds tg_sdelay] in *.
  set (n_t := lround (tmax / dt)) in *.
  set (n_s := lround (sduration / dt)) in *.
  set (n_ds := lround (sdelay / dt)) in *.
  split.
  - replace n_ds with (nds dt (dt * IZR n_ds)) at 2
      by (unfold nds; apply lround_multiple; lra).
    rewrite grids_at_start. apply initial_grids_c. apply INDEX_range; lia.
  - rewrite finish_step_cell by lia. fold kappa. f_equal. f_equal.
    unfold t. rewrite make_t_entry by lia.
    destruct (Rlt_dec (dt * IZR k + dt / 2) (dt * IZR n_ds + dt * IZR n_s)) as [L|L];
      destruct (Z.ltb_spec k (n_ds + n_s)) as [L'|L']; try reflexivity; exfalso.
    + apply IZR_le in L'. rewrite plus_IZR in L'. nra.
    + apply L. assert (L'' : (k + 1 <= n_ds + n_s)%Z) by lia.
      apply IZR_le in L''. rewrite !plus_IZR in L''. nra.
Qed.

Lemma source_added_until_duration_witness :
  let g := mkTimeGrid 5 (1 / 10 * 5) 2 (1 / 10 * 2) 1 (1 / 10 * 1) in
  let t := make_t 5 (1 / 10) in
  let s := fun k : Z => IZR k in
  let c := fun _ : Z => 1 in
  st_c (grids_at 6 3 2 1 1 3 FALSE (1 / 10) 1 (1 / 10 * 1) (1 / 10 * 2)
          (1 / 5) (2 / 5) (1 / 100) (1 / 10) (3 / 10) (1 / 50) (1 / 5) (2 / 5) (1 / 200) 1
          t s (make_invr 3 1) 1 create_array) (INDEX 3 2 1)
  = s (INDEX 3 2 1)
  /\ finish_step 6 3 1 3 (1 / 10) (1 / 10 * 1) (1 / 10 * 2)
       (1 / 100) (1 / 50) (1 / 200) t s 3 c (INDEX 3 2 1)
     = (c (INDEX 3 2 1) + 0) * (1 - 1 / 50 * (1 / 10)).
Proof.
  intros g t s c.
  apply (source_added_until_duration (1 / 10) (1 / 10 * 5) (1 / 10 * 2) (1 / 10 * 1)
           g 6 3 2 1 1 3 FALSE 1
           (1 / 5) (2 / 5) (1 / 100) (1 / 10) (3 / 10) (1 / 50) (1 / 5) (2 / 5) (1 / 200) 1
           s (make_invr 3 1) create_array c 3 2 1); try (cbn; lia).
  - lra.
  - apply (round_times_multiples (1 / 10) 5 2 1); [lra | lia | lia | lia].
Defined.

(** ** main: the size of the time step *)

Lemma SMALLNUM_pos : 0 < SMALLNUM.
Proof. unfold SMALLNUM. lra. Qed.

Lemma MAX_ge_l (x y : R) : x <= MAX x y.
Proof. unfold MAX. destruct (Rgt_dec x y); lra. Qed.

Lemma MAX_ge_r (x y : R) : y <= MAX x y.
Proof. unfold MAX. destruct (Rgt_dec x y); lra. Qed.

Lemma MAX_cases (x y : R) : MAX x y = x \/ MAX x y = y.
Proof. unfold MAX. destruct (Rgt_dec x y); auto. Qed.

Lemma IS_ZERO_false (x : R) : SMALLNUM <= Rabs x -> (IS_ZERO x =? 0)%Z = true.
Proof.
  intros H. unfold IS_ZERO. destruct (Rlt_dec (Rabs x) SMALLNUM); [lra | reflexivity].
Qed.

Lemma time_step_size_default
    (specified_nt specified_nt_scale nt : Z) (tmax dr dstar_max nt_scale : R) :
  specified_nt <> TRUE ->
  (specified_nt_scale = TRUE -> SMALLNUM <= nt_scale) ->
  time_step_size specified_nt specified_nt_scale nt tmax dr dstar_max nt_scale
  = Done (0.9 * dr * dr / (6.0 * dstar_max)
          / (if (specified_nt_scale =? TRUE)%Z then nt_scale else 1)).
Proof.
  intros Hnt Hs. unfold time_step_size.
  apply Z.eqb_neq in Hnt. rewrite Hnt.
  destruct (Z.eqb_spec specified_nt_scale TRUE) as [E|E].
  - specialize (Hs E). pose proof SMALLNUM_pos.
    rewrite IS_ZERO_false by (rewrite Rabs_pos_eq; lra).
    destruct (Rlt_dec nt_scale 0); [lra | reflexivity].
  - f_equal. unfold Rdiv. now rewrite Rinv_1, Rmult_1_r.
Qed.

(** X9.  The time step that [main] chooses when [nt] is not given: with
    positive [dr], [dfree] and permeabilities, the step is positive and
    [D* dt / dr^2], times [nt_scale] when that option is given, is at most
    [3/20] in each of the three layers and equal to [3/20] in the layer
    with the largest [D*]. *)
Theorem default_time_step
    (specified_nt specified_nt_scale nt : Z)
    (tmax dr nt_scale theta_so theta_sp theta_sr dfree : R) :
  let scale := if (specified_nt_scale =? TRUE)%Z then nt_scale else 1 in
  specified_nt <> TRUE ->
  (specified_nt_scale = TRUE -> SMALLNUM <= nt_scale) ->
  0 < dr -> 0 < dfree -> 0 < theta_so -> 0 < theta_sp -> 0 < theta_sr ->
  exists dt,
    time_step_size specified_nt specified_nt_scale nt tmax dr
      (dstar_max theta_so theta_sp theta_sr dfree) nt_scale = Done dt
    /\ 0 < dt
    /\ const_so1 dt dr theta_so dfree * scale <= 3 / 20
    /\ const_sp1 dt dr theta_sp dfree * scale <= 3 / 20
    /\ const_sr1 dt dr theta_sr dfree * scale <= 3 / 20
    /\ (const_so1 dt dr theta_so dfree * scale = 3 / 20
        \/ const_sp1 dt dr theta_sp dfree * scale = 3 / 20
        \/ const_sr1 dt dr theta_sr dfree * scale = 3 / 20).
Proof.
  intros scale Hnt Hs Hdr Hdf Hso Hsp Hsr.
  rewrite time_step_size_default by assumption. fold scale.
  assert (Hscale : 0 < scale).
  { unfold scale. destruct (Z.eqb_spec specified_nt_scale TRUE) as [E|E].
    - specialize (Hs E). pose proof SMALLNUM_pos. lra.
    - lra. }
  set (D := dstar_max theta_so theta_sp theta_sr dfree).
  assert (Dso : 0 < dstar_so theta_so dfree) by (unfold dstar_so; nra).
  assert (Dsp : 0 < dstar_sp theta_sp dfree) by (unfold dstar_sp; nra).
  assert (Dsr : 0 < dstar_sr theta_sr dfree) by (unfold dstar_sr; nra).
  assert (Mso : dstar_so theta_so dfree <= D).
  { unfold D, dstar_max. eapply Rle_trans; [apply MAX_ge_l | apply MAX_ge_l]. }
  assert (Msp : dstar_sp theta_sp dfree <= D).
  { unfold D, dstar_max. eapply Rle_trans; [apply MAX_ge_r | apply MAX_ge_l]. }
  assert (Msr : dstar_sr theta_sr dfree <= D).
  { unfold D, dstar_max. apply MAX_ge_r. }
  assert (HD : 0 < D) by lra.
  assert (Hc : forall d, 0 < d ->
            d * (0.9 * dr * dr / (6.0 * D) / scale) / SQR dr * scale
            = 3 / 20 * (d / D)).
  { intros d Hd. unfold SQR.
    replace 0.9 with (9 / 10) by lra. replace 6.0 with 6 by lra.
    field. repeat split; lra. }
  assert (Hle : forall d, 0 < d -> d <= D -> 3 / 20 * (d / D) <= 3 / 20).
  { intros d Hd Hle. assert (d / D <= 1); [|lra].
    apply (Rmult_le_reg_r D); [assumption|].
    unfold Rdiv. rewrite Rmult_assoc, Rinv_l by lra. lra. }
  assert (Heq : 3 / 20 * (D / D) = 3 / 20) by (field; lra).
  eexists. split; [reflexivity|]. split.
  { apply Rdiv_lt_0_compat; [|assumption].
    apply Rdiv_lt_0_compat; nra. }
  unfold const_so1, const_sp1, const_sr1.
  rewrite !Hc by assumption.
  repeat split; try (apply Hle; assumption).
  unfold D, dstar_max in *.
  destruct (MAX_cases (MAX (dstar_so theta_so dfree) (dstar_sp theta_sp dfree))
              (dstar_sr theta_sr dfree)) as [E|E].
  - destruct (MAX_cases (dstar_so theta_so dfree) (dstar_sp theta_sp dfree)) as [E'|E'].
    + left. rewrite E, E'. rewrite E, E' in Heq. exact Heq.
    + right. left. rewrite E, E'. rewrite E, E' in Heq. exact Heq.
  - right. right. rewrite E. rewrite E in Heq. exact Heq.
Qed.

Lemma default_time_step_witness :
  exists dt,
    time_step_size FALSE FALSE (-1) 150 1 (dstar_max (1 / 5) (2 / 5) (3 / 10) 1) (-1)
    = Done dt
    /\ 0 < dt
    /\ const_so1 dt 1 (1 / 5) 1 * 1 <= 3 / 20
    /\ const_sp1 dt 1 (2 / 5) 1 * 1 <= 3 / 20
    /\ const_sr1 dt 1 (3 / 10) 1 * 1 <= 3 / 20
    /\ (const_so1 dt 1 (1 / 5) 1 * 1 = 3 / 20
        \/ const_sp1 dt 1 (2 / 5) 1 * 1 = 3 / 20
        \/ const_sr1 dt 1 (3 / 10) 1 * 1 = 3 / 20).
Proof.
  apply (default_time_step FALSE FALSE (-1) 150 1 (-1) (1 / 5) (2 / 5) (3 / 10) 1);
    try lra; discriminate.
Defined.

(** X10.  When [nt] is given, the step is [tmax / nt], divided by
    [nt_scale] when that option is given, and the rounding of [tmax] to a
    multiple of the step gives [lround(nt * nt_scale)] time steps; without
    [nt_scale] the number of steps is the given [nt] and [tmax] is not
    changed. *)
Theorem specified_nt_kept
    (specified_nt_scale nt : Z) (tmax dr dstar_max nt_scale sduration sdelay : R)
    (g : time_grid) :
  let scale := if (specified_nt_scale =? TRUE)%Z then nt_scale else 1 in
  let dt := tmax / IZR nt / scale in
  (0 < nt)%Z -> 0 < tmax ->
  (specified_nt_scale = TRUE -> SMALLNUM <= nt_scale) ->
  round_times dt tmax sduration sdelay = Done g ->
  time_step_size TRUE specified_nt_scale nt tmax dr dstar_max nt_scale = Done dt
  /\ tg_nt g = lround (IZR nt * scale)
  /\ (specified_nt_scale <> TRUE -> tg_nt g = nt /\ tg_tmax g = tmax).
Proof.
  intros scale dt Hnt Htmax Hs H.
  apply IZR_lt in Hnt.
  assert (Hscale : 0 < scale).
  { unfold scale. destruct (Z.eqb_spec specified_nt_scale TRUE) as [E|E].
    - specialize (Hs E). pose proof SMALLNUM_pos. lra.
    - lra. }
  assert (Hq : tmax / dt = IZR nt * scale).
  { unfold dt. field. repeat split; lra. }
  apply round_times_done in H. destruct H as (-> & _).
  cbn [tg_nt tg_tmax]. rewrite Hq. repeat split.
  - unfold time_step_size, dt, scale. change (TRUE =? TRUE)%Z with true. cbv iota.
    destruct (Z.eqb_spec specified_nt_scale TRUE) as [E|E].
    + specialize (Hs E). pose proof SMALLNUM_pos.
      rewrite IS_ZERO_false by (rewrite Rabs_pos_eq; lra).
      destruct (Rlt_dec nt_scale 0); [lra | reflexivity].
    + f_equal. unfold Rdiv. now rewrite Rinv_1, Rmult_1_r.
  - unfold scale. apply Z.eqb_neq in H. rewrite H.
    rewrite Rmult_1_r. apply lround_IZR.
  - unfold scale, dt. apply Z.eqb_neq in H. unfold scale. rewrite H.
    rewrite Rmult_1_r, lround_IZR. field. lra.
Qed.

Lemma specified_nt_kept_witness :
  let g := mkTimeGrid 5 (1 / 10 * 5) 2 (1 / 10 * 2) 1 (1 / 10 * 1) in
  time_step_size TRUE FALSE 5 (1 / 10 * 5) 1 1 (-1) = Done (1 / 10 * 5 / 5 / 1)
  /\ tg_nt g = lround (5 * 1)
  /\ (FALSE <> TRUE -> tg_nt g = 5%Z /\ tg_tmax g = 1 / 10 * 5).
Proof.
  intros g.
  apply (specified_nt_kept FALSE 5 (1 / 10 * 5) 1 1 (-1) (1 / 10 * 2) (1 / 10 * 1) g).
  - lia.
  - lra.
  - discriminate.
  - cbn [Z.eqb FALSE TRUE].
    replace (1 / 10 * 5 / 5 / 1) with (1 / 10) by lra.
    apply (round_times_multiples (1 / 10) 5 2 1); [lra | lia | lia | lia].
Defined.

(** ** The concentration image *)

Lemma for_loop_last_write {S V : Type} (get : S -> V) (v : V) (i0 lo hi : Z)
    (body : Z -> S -> S) (s : S) :
  (lo <= i0 < hi)%Z ->
  (forall i s', (i0 < i < hi)%Z -> get (body i s') = get s') ->
  (forall s', get (body i0 s') = v) ->
  get (for_loop lo hi body s) = v.
Proof.
  intros Hi Hlater Hhit.
  rewrite (for_loop_split lo (i0 + 1) hi) by lia.
  rewrite (for_loop_frame get) by (intros; apply Hlater; lia).
  rewrite for_loop_last by lia. apply Hhit.
Qed.

Lemma full_P_neq (nr i i' j col : Z) :
  (2 <= nr)%Z -> (0 <= j <= nr)%Z -> (0 <= col < 2 * nr - 1)%Z ->
  (i' <> i \/ nr + j - 2 <> col)%Z ->
  (i * (2 * nr - 1) + col)%Z <> INDEX_FULL_P nr i' j.
Proof.
  intros Hnr Hj Hc Hne E. unfold INDEX_FULL_P in E.
  assert (E' : OUT (2 * nr - 1) i col = OUT (2 * nr - 1) i' (nr + j - 2))
    by (unfold OUT; lia).
  apply OUT_inj in E'; lia.
Qed.

Lemma full_N_neq (nr i i' j col : Z) :
  (2 <= nr)%Z -> (0 <= j <= nr)%Z -> (0 <= col < 2 * nr - 1)%Z ->
  (i' <> i \/ nr - j <> col)%Z ->
  (i * (2 * nr - 1) + col)%Z <> INDEX_FULL_N nr i' j.
Proof.
  intros Hnr Hj Hc Hne E. unfold INDEX_FULL_N in E.
  assert (E' : OUT (2 * nr - 1) i col = OUT (2 * nr - 1) i' (nr - j))
    by (unfold OUT; lia).
  apply OUT_inj in E'; lia.
Qed.

(** The cell in row [i] and column [col] of the image, when the last
    column [j0] of the field that is copied to it is known. *)
Lemma copy_image_cell (nz nr : Z) (c conc_out : array) (i col j0 : Z) :
  (2 <= nr)%Z -> (0 <= i < nz)%Z -> (0 <= col < 2 * nr - 1)%Z ->
  (0 <= j0 <= nr)%Z ->
  (nr + j0 - 2 = col \/ nr - j0 = col)%Z ->
  (forall j, (j0 < j <= nr)%Z -> nr + j - 2 <> col /\ nr - j <> col)%Z ->
  im_conc_out (copy_image nz nr c conc_out) (i * (2 * nr - 1) + col)%Z
  = c (INDEX nr i j0).
Proof.
  intros Hnr Hi Hc Hj0 Hw Hlater. unfold copy_image.
  apply (for_loop_last_write
           (fun im => im_conc_out im (i * (2 * nr - 1) + col)%Z) _ j0); [lia | |].
  - intros j im Hj. destruct (Hlater j ltac:(lia)) as [HP HN].
    apply (for_loop_frame (fun im0 => im_conc_out im0 (i * (2 * nr - 1) + col)%Z)).
    intros i' im' Hi'. cbn [im_conc_out].
    rewrite upd_neq by (apply full_N_neq; lia).
    now rewrite upd_neq by (apply full_P_neq; lia).
  - intros im.
    apply (for_loop_once (fun im => im_conc_out im (i * (2 * nr - 1) + col)%Z)
             (fun _ => c (INDEX nr i j0)) i); [lia | |].
    + intros i' im' Hi' Hne. cbn [im_conc_out].
      rewrite upd_neq by (apply full_N_neq; lia).
      now rewrite upd_neq by (apply full_P_neq; lia).
    + intros im'. cbn [im_conc_out].
      destruct (Z.eq_dec (nr - j0) col) as [EN|EN].
      * replace (i * (2 * nr - 1) + col)%Z with (INDEX_FULL_N nr i j0)
          by (unfold INDEX_FULL_N; lia).
        apply upd_eq.
      * rewrite upd_neq by (apply full_N_neq; lia).
        replace (i * (2 * nr - 1) + col)%Z with (INDEX_FULL_P nr i j0)
          by (unfold INDEX_FULL_P; lia).
        apply upd_eq.
Qed.

Lemma MIN_le_l (x y : R) : MIN x y <= x.
Proof. unfold MIN. destruct (Rlt_dec x y); lra. Qed.

Lemma MIN_le_r (x y : R) : MIN x y <= y.
Proof. unfold MIN. destruct (Rlt_dec x y); lra. Qed.

Lemma copy_image_range (nz nr : Z) (c conc_out : array) (i j : Z) :
  (0 <= i < nz)%Z -> (0 <= j <= nr)%Z ->
  im_conc_min (copy_image nz nr c conc_out) <= c (INDEX nr i j)
  <= im_conc_max (copy_image nz nr c conc_out).
Proof.
  intros Hi Hj. unfold copy_image.
  set (seen := fun (J I : Z) (im : image) =>
         forall i' j', (0 <= i' < nz)%Z -> (0 <= j')%Z ->
           (j' < J \/ (j' = J /\ i' < I))%Z ->
           im_conc_min im <= c (INDEX nr i' j') <= im_conc_max im).
  assert (G : seen (nr + 1)%Z 0%Z
                (for_loop 0 (nr + 1)
                   (fun j0 im =>
                      for_loop 0 nz
                        (fun i0 im0 =>
                           mkImage
                             (upd (upd (im_conc_out im0) (INDEX_FULL_P nr i0 j0)
                                     (c (INDEX nr i0 j0)))
                                (INDEX_FULL_N nr i0 j0) (c (INDEX nr i0 j0)))
                             (MIN (c (INDEX nr i0 j0)) (im_conc_min im0))
                             (MAX (c (INDEX nr i0 j0)) (im_conc_max im0))) im)
                   (mkImage conc_out (c 0%Z) (c 0%Z)))).
  { apply (for_loop_ind (fun J im => seen J 0%Z im)); [lia | |].
    - intros i' j' Hi' Hj' H. lia.
    - intros J im HJ HI.
      assert (G' : seen J nz
                (for_loop 0 nz
                   (fun i0 im0 =>
                      mkImage
                        (upd (upd (im_conc_out im0) (INDEX_FULL_P nr i0 J)
                                (c (INDEX nr i0 J)))
                           (INDEX_FULL_N nr i0 J) (c (INDEX nr i0 J)))
                        (MIN (c (INDEX nr i0 J)) (im_conc_min im0))
                        (MAX (c (INDEX nr i0 J)) (im_conc_max im0))) im)).
      { apply (for_loop_ind (fun I im0 => seen J I im0)); [lia | exact HI |].
        intros I im0 HI' Hseen i' j' Hi' Hj' H. cbn [im_conc_min im_conc_max].
        pose proof (MIN_le_l (c (INDEX nr I J)) (im_conc_min im0)).
        pose proof (MIN_le_r (c (INDEX nr I J)) (im_conc_min im0)).
        pose proof (MAX_ge_l (c (INDEX nr I J)) (im_conc_max im0)).
        pose proof (MAX_ge_r (c (INDEX nr I J)) (im_conc_max im0)).
        destruct (Z.eq_dec j' J) as [->|NJ]; [destruct (Z.eq_dec i' I) as [->|NI]|].
        - lra.
        - specialize (Hseen i' J Hi' Hj' ltac:(lia)). lra.
        - specialize (Hseen i' j' Hi' Hj' ltac:(lia)). lra. }
      intros i' j' Hi' Hj' H. apply G'; lia. }
  apply G; lia.
Qed.

(** X11.  The image that the solver writes is the field mirrored about
    the axis: in every row [i] the columns [nr-1+d] and [nr-1-d] of the
    image both hold the cell [(i, 1+d)] of the field, for
    [0 <= d <= nr-1].  Column 0 of the field is copied first and then
    overwritten by column 2.  Offsets outside the [nz * (2 nr - 1)] block
    are not written, and the recorded minimum and maximum bound every
    cell of the field. *)
Theorem image_mirrors_the_field (nz nr : Z) (c conc_out : array) (i j d : Z) :
  let im := copy_image nz nr c conc_out in
  (2 <= nr)%Z -> (0 <= i < nz)%Z -> (0 <= d <= nr - 1)%Z -> (0 <= j <= nr)%Z ->
  im_conc_out im (i * (2 * nr - 1) + (nr - 1 + d))%Z = c (INDEX nr i (1 + d))
  /\ im_conc_out im (i * (2 * nr - 1) + (nr - 1 - d))%Z = c (INDEX nr i (1 + d))
  /\ (forall k, (k < 0 \/ nz * (2 * nr - 1) <= k)%Z -> im_conc_out im k = conc_out k)
  /\ im_conc_min im <= c (INDEX nr i j) <= im_conc_max im.
Proof.
  intros im Hnr Hi Hd Hj. unfold im. repeat split.
  - apply copy_image_cell; lia.
  - apply copy_image_cell; lia.
  - intros k Hk. unfold copy_image.
    rewrite (for_loop_frame (fun im0 => im_conc_out im0 k)); [reflexivity|].
    intros j' im0 Hj'. apply (for_loop_frame (fun im1 => im_conc_out im1 k)).
    intros i' im1 Hi'.
    cbn [im_conc_out].
    rewrite !upd_neq; [reflexivity | |];
      unfold INDEX_FULL_P, INDEX_FULL_N; nia.
  - now apply copy_image_range.
  - now apply copy_image_range.
Qed.

Lemma image_mirrors_the_field_witness :
  let c := fun k : Z => IZR k in
  let im := copy_image 6 3 c create_array in
  im_conc_out im (2 * (2 * 3 - 1) + (3 - 1 + 1))%Z = c (INDEX 3 2 (1 + 1))
  /\ im_conc_out im (2 * (2 * 3 - 1) + (3 - 1 - 1))%Z = c (INDEX 3 2 (1 + 1))
  /\ (forall k, (k < 0 \/ 6 * (2 * 3 - 1) <= k)%Z -> im_conc_out im k = create_array k)
  /\ im_conc_min im <= c (INDEX 3 2 0) <= im_conc_max im.
Proof.
  intros c im.
  apply (image_mirrors_the_field 6 3 c create_array 2 0 1); lia.
Defined.

(** ** The homogeneous curve and its objective *)

Lemma for_loop_ext {S : Type} (lo hi : Z) (body body' : Z -> S -> S) (s : S) :
  (forall i s', (lo <= i < hi)%Z -> body i s' = body' i s') ->
  for_loop lo hi body s = for_loop lo hi body' s.
Proof.
  intros H. destruct (Z_le_gt_dec lo hi) as [Hle|Hgt].
  - apply (for_loop_ind (fun i s' => s' = for_loop lo i body' s)); [lia | |].
    + now rewrite for_loop_empty by lia.
    + intros i s' Hi ->. rewrite for_loop_last by lia. now apply H.
  - now rewrite !for_loop_empty by lia.
Qed.

Lemma rti_theory_outside (erfc : R -> R) (nt : Z)
    (spdist samplitude sdelay sduration kappa dfree alpha theta : R)
    (t p_theory : array) (k : Z) :
  (k < 0 \/ nt <= k)%Z ->
  rti_theory erfc nt spdist samplitude sdelay sduration kappa dfree alpha theta
    t p_theory k
  = p_theory k.
Proof.
  intros Hk. unfold rti_theory. cbv zeta.
  apply loop_skip. intros i o Hi.
  destruct (Rle_dec (t i) sdelay); [apply upd_neq; lia|].
  destruct (Rgt_dec (t i) (sdelay + sduration)); now rewrite ?upd_neq by lia.
Qed.

(** X12.  The homogeneous curve is proportional to the source amplitude,
    it does not depend on [kappa] nor on what the output array held, it
    is 0 at every sample when the source duration is 0, and the function
    writes the entries [0 .. nt-1] only. *)
Theorem rti_theory_amplitude_and_duration (erfc : R -> R) (nt : Z)
    (spdist samplitude sdelay sduration kappa kappa' dfree alpha theta x : R)
    (t p_theory p_theory' : array) (i : Z) :
  (0 <= i < nt)%Z ->
  rti_theory erfc nt spdist (x * samplitude) sdelay sduration kappa' dfree
    alpha theta t p_theory' i
  = x * rti_theory erfc nt spdist samplitude sdelay sduration kappa dfree
          alpha theta t p_theory i
  /\ rti_theory erfc nt spdist samplitude sdelay 0 kappa dfree
       alpha theta t p_theory i = 0
  /\ (forall k, (k < 0 \/ nt <= k)%Z ->
        rti_theory erfc nt spdist samplitude sdelay sduration kappa dfree
          alpha theta t p_theory k = p_theory k).
Proof.
  intros Hi. repeat split.
  - rewrite !rti_theory_sample by assumption. cbv zeta.
    destruct (Rle_dec (t i) sdelay); [ring|].
    destruct (Rgt_dec (t i) (sdelay + sduration)); unfold Rdiv; ring.
  - rewrite rti_theory_sample by assumption. cbv zeta.
    destruct (Rle_dec (t i) sdelay); [reflexivity|].
    destruct (Rgt_dec (t i) (sdelay + 0)); [|lra].
    rewrite Rplus_0_r. ring.
  - intros k Hk. now apply rti_theory_outside.
Qed.

Lemma rti_theory_amplitude_and_duration_witness :
  let erfc := fun z : R => 1 - z in
  let t := fun k : Z => IZR k in
  rti_theory erfc 5 1 (3 * 2) 1 2 (1 / 10) 1 (1 / 5) (2 / 5) t (fun _ => 7) 4%Z
  = 3 * rti_theory erfc 5 1 2 1 2 0 1 (1 / 5) (2 / 5) t create_array 4%Z
  /\ rti_theory erfc 5 1 2 1 0 0 1 (1 / 5) (2 / 5) t create_array 4%Z = 0
  /\ (forall k, (k < 0 \/ 5 <= k)%Z ->
        rti_theory erfc 5 1 2 1 2 0 1 (1 / 5) (2 / 5) t create_array k
        = create_array k).
Proof.
  intros erfc t.
  apply (rti_theory_amplitude_and_duration erfc 5 1 2 1 2 0 (1 / 10) 1 (1 / 5) (2 / 5) 3
           t create_array (fun _ => 7) 4).
  lia.
Defined.

Lemma sum_of_squares_nonneg (lo hi : Z) (f : Z -> R) :
  0 <= for_loop lo hi (fun i mse => mse + SQR (f i)) 0.
Proof.
  destruct (Z_le_gt_dec lo hi) as [Hle|Hgt].
  - apply (for_loop_ind (fun _ mse => 0 <= mse)); [lia | lra |].
    intros i mse Hi Hm. unfold SQR. nra.
  - rewrite for_loop_empty by lia. lra.
Qed.



(** ** The objective of fit-layer: resampling and the struct *)

Lemma lround_bounds (x : R) : 0 <= x -> x - / 2 < IZR (lround x) <= x + / 2.
Proof.
  intros Hx. unfold lround. destruct (Rle_dec 0 x); [|lra].
  destruct (base_Int_part (x + / 2)). lra.
Qed.

(** The index of the resampled sample is inside the longer array. *)
Lemma resampled_index (n m i : Z) :
  (0 < m <= n)%Z -> (1 <= i < m)%Z ->
  (1 <= lround (IZR i * (IZR n / IZR m)) < n)%Z.
Proof.
  intros Hm Hi.
  assert (Hm' : 1 <= IZR m) by (apply (IZR_le 1); lia).
  assert (Hn' : IZR m <= IZR n) by (apply IZR_le; lia).
  assert (Hi1 : 1 <= IZR i) by (apply (IZR_le 1); lia).
  assert (Hi2 : IZR i <= IZR m - 1) by (rewrite <- minus_IZR; apply IZR_le; lia).
  set (q := IZR n / IZR m).
  assert (Hq : q * IZR m = IZR n) by (unfold q; field; lra).
  assert (Hq1 : 1 <= q) by nra.
  assert (Hx : 0 <= IZR i * q) by nra.
  destruct (lround_bounds (IZR i * q) Hx) as [Hlo Hhi].
  split.
  - assert (0 < lround (IZR i * q))%Z; [|lia].
    apply lt_IZR. nra.
  - apply lt_IZR. nra.
Qed.

Lemma curve_mse_window_nonneg (nt nd : Z) (p p_data : array) :
  (0 < nt)%Z -> (0 < nd)%Z -> 0 <= curve_mse nt nd p p_data.
Proof.
  intros Hnt Hnd. unfold curve_mse. cbv zeta.
  destruct (Z.gtb_spec nt nd) as [Hgt|Hle]; apply Rmult_le_pos.
  - apply (sum_of_squares_nonneg 1 nd
             (fun i => p (lround (IZR i * (IZR nt / IZR nd))) - p_data i)).
  - left. apply Rinv_0_lt_compat. now apply (IZR_lt 0).
  - apply (sum_of_squares_nonneg 1 nt
             (fun i => p i - p_data (lround (IZR i * (IZR nd / IZR nt))))).
  - left. apply Rinv_0_lt_compat. now apply (IZR_lt 0).
Qed.

(** X14.  The mean squared error of fit-layer reads the model curve and
    the data at the offsets [1 .. nt-1] and [1 .. nd-1] only: the index
    [lround(i * nt / nd)] (or [lround(i * nd / nt)]) of the resampled
    sample never leaves the longer array, and sample 0 of either array
    does not count.  The value is not negative. *)
Theorem curve_mse_window (nt nd : Z) (p p' p_data p_data' : array) :
  (0 < nt)%Z -> (0 < nd)%Z ->
  (forall i, (1 <= i < nt)%Z -> p' i = p i) ->
  (forall i, (1 <= i < nd)%Z -> p_data' i = p_data i) ->
  curve_mse nt nd p' p_data' = curve_mse nt nd p p_data
  /\ 0 <= curve_mse nt nd p p_data.
Proof.
  intros Hnt Hnd Hp Hd. unfold curve_mse. cbv zeta.
  destruct (Z.gtb_spec nt nd) as [Hgt|Hle].
  - split.
    + f_equal. apply for_loop_ext. intros i mse Hi.
      pose proof (resampled_index nt nd i ltac:(lia) Hi).
      now rewrite Hp, Hd by lia.
    + apply Rmult_le_pos.
      * apply (sum_of_squares_nonneg 1 nd
                 (fun i => p (lround (IZR i * (IZR nt / IZR nd))) - p_data i)).
      * left. apply Rinv_0_lt_compat. now apply (IZR_lt 0).
  - split.
    + f_equal. apply for_loop_ext. intros i mse Hi.
      pose proof (resampled_index nd nt i ltac:(lia) Hi).
      now rewrite Hp, Hd by lia.
    + apply Rmult_le_pos.
      * apply (sum_of_squares_nonneg 1 nt
                 (fun i => p i - p_data (lround (IZR i * (IZR nd / IZR nt))))).
      * left. apply Rinv_0_lt_compat. now apply (IZR_lt 0).
Qed.

Lemma curve_mse_window_witness :
  let p := fun k : Z => IZR k in
  let p' := fun k : Z => if (k <? 1)%Z then 9 else if (k <? 7)%Z then IZR k else 9 in
  let d := fun k : Z => IZR k / 2 in
  let d' := fun k : Z => if (k <? 1)%Z then 9 else if (k <? 3)%Z then IZR k / 2 else 9 in
  curve_mse 7 3 p' d' = curve_mse 7 3 p d /\ 0 <= curve_mse 7 3 p d.
Proof.
  intros p p' d d'.
  apply (curve_mse_window 7 3 p p' d d'); try lia.
  - intros i Hi. unfold p', p.
    destruct (Z.ltb_spec i 1); [lia|]. destruct (Z.ltb_spec i 7); [reflexivity | lia].
  - intros i Hi. unfold d', d.
    destruct (Z.ltb_spec i 1); [lia|]. destruct (Z.ltb_spec i 3); [reflexivity | lia].
Defined.

Lemma set_fit_parameters_outside (x : array) (p : param_struct_type) :
  let q := set_fit_parameters x p in
  ps_kappa_sr q = (if (ps_opt_global_kappa p =? 0)%Z then ps_kappa_sr p else x 2%Z)
  /\ ps_kappa_so q = (if (ps_opt_global_kappa p =? 0)%Z then ps_kappa_so p else x 2%Z)
  /\ ps_alpha_sr q = ps_alpha_sr p /\ ps_theta_sr q = ps_theta_sr p
  /\ ps_alpha_so q = ps_alpha_so p /\ ps_theta_so q = ps_theta_so p
  /\ ps_s q = ps_s p /\ ps_t q = ps_t p /\ ps_invr q = ps_invr p
  /\ ps_nd q = ps_nd p.
Proof.
  unfold set_fit_parameters, gsl_vector_get. cbv zeta.
  cbn [set_sp ps_alpha_sp ps_theta_sp ps_kappa_sp].
  destruct (Rle_dec (x 0%Z) 0.001);
    cbn [set_sp ps_alpha_sp ps_theta_sp ps_kappa_sp];
    destruct (Rle_dec (x 1%Z) 0.001);
    cbn [set_sp ps_alpha_sp ps_theta_sp ps_kappa_sp ps_opt_global_kappa];
    destruct (ps_opt_global_kappa p =? 0)%Z;
    repeat split; reflexivity.
Qed.

Lemma add_penalty_ge (p : param_struct_type) (mse : R) : mse <= add_penalty p mse.
Proof.
  rewrite add_penalty_sum. cbv zeta.
  destruct (Rlt_dec (ps_alpha_sp p) (ps_minalpha p)),
           (Rgt_dec (ps_alpha_sp p) (ps_maxalpha p)),
           (Rlt_dec (ps_theta_sp p) (ps_mintheta p)),
           (Rgt_dec (ps_theta_sp p) (ps_maxtheta p)),
           (Rlt_dec (ps_kappa_sp p) (ps_minkappa p)),
           (Rgt_dec (ps_kappa_sp p) (ps_maxkappa p)); lra.
Qed.



(** ** main: the additional sources *)

Lemma add_source_cases (alphas : array) (nz nr : Z) (coord_shift trn dt dr dz : R)
    (src : source_struct_type) (s : array) :
  let isource := lround ((src_sz src + coord_shift) / dz) in
  let jsource := (1 + lround (src_sr src / dr))%Z in
  let amount := source_term alphas nr isource jsource
                  (source_amplitude (src_crnt src) trn) dt dr dz in
  let in_grid := (0 <= isource <= nz - 1)%Z /\ (0 <= jsource <= nr)%Z in
  (in_grid
   /\ add_source alphas nz nr coord_shift trn dt dr dz src s
      = Done (upd s (INDEX nr isource jsource) (s (INDEX nr isource jsource) + amount)))
  \/ (~ in_grid
      /\ add_source alphas nz nr coord_shift trn dt dr dz src s
         = Fatal OutOfRangeSample).
Proof.
  intros isource jsource amount in_grid. unfold add_source. cbv zeta.
  fold isource jsource. unfold in_grid.
  destruct (Z.ltb_spec isource 0); [right; split; [lia | reflexivity]|].
  destruct (Z.gtb_spec isource (nz - 1)); [right; split; [lia | reflexivity]|].
  destruct (Z.ltb_spec jsource 0); [right; split; [lia | reflexivity]|].
  destruct (Z.gtb_spec jsource nr); [right; split; [lia | reflexivity]|].
  left. split; [lia | reflexivity].
Qed.

(** X16.  The loop over the additional sources.  When every source falls
    on a row [0 .. nz-1] and a column [0 .. nr] the loop succeeds and
    each cell of the source array has gained the amounts of all the
    sources that fall on it, so that sources on the same cell add up and
    every other offset is unchanged.  When some source falls off the grid
    the program stops with the error.  The amount of a source does not
    depend on the sources added before it. *)
Theorem add_sources_sum (alphas : array) (nz nr : Z) (coord_shift trn dt dr dz : R)
    (more_sources : list source_struct_type) (s : array) :
  let isource := fun src => lround ((src_sz src + coord_shift) / dz) in
  let jsource := fun src => (1 + lround (src_sr src / dr))%Z in
  let amount := fun src =>
    source_term alphas nr (isource src) (jsource src)
      (source_amplitude (src_crnt src) trn) dt dr dz in
  let in_grid := fun src =>
    (0 <= isource src <= nz - 1)%Z /\ (0 <= jsource src <= nr)%Z in
  (Forall in_grid more_sources ->
     exists s',
       add_sources alphas nz nr coord_shift trn dt dr dz more_sources s = Done s'
       /\ forall k,
            s' k = s k
                   + fold_right
                       (fun src acc =>
                          (if (INDEX nr (isource src) (jsource src) =? k)%Z
                           then amount src else 0) + acc)
                       0 more_sources)
  /\ (Exists (fun src => ~ in_grid src) more_sources ->
      add_sources alphas nz nr coord_shift trn dt dr dz more_sources s
      = Fatal OutOfRangeSample).
Proof.
  intros isource jsource amount in_grid. split.
  - revert s. induction more_sources as [|src rest IH]; intros s Hall.
    + exists s. split; [reflexivity|]. intros k. cbn. ring.
    + inversion Hall as [|? ? Hsrc Hrest]; subst.
      cbn [add_sources].
      destruct (add_source_cases alphas nz nr coord_shift trn dt dr dz src s)
        as [[_ ->]|[Hout _]]; [|contradiction].
      destruct (IH (upd s (INDEX nr (isource src) (jsource src))
                      (s (INDEX nr (isource src) (jsource src)) + amount src))
                  Hrest) as (s' & Hs' & Hk).
      exists s'. split; [exact Hs'|].
      intros k. rewrite Hk. cbn [fold_right].
      destruct (Z.eqb_spec (INDEX nr (isource src) (jsource src)) k) as [<-|Hne].
      * rewrite upd_eq. fold (isource src) (jsource src) (amount src). ring.
      * rewrite upd_neq by congruence. ring.
  - revert s. induction more_sources as [|src rest IH]; intros s Hex.
    + inversion Hex.
    + cbn [add_sources].
      destruct (add_source_cases alphas nz nr coord_shift trn dt dr dz src s)
        as [[Hin ->]|[Hout ->]]; [|reflexivity].
      inversion Hex as [? ? Hbad|? ? Hbad]; subst.
      * contradiction.
      * now apply IH.
Qed.

Lemma add_sources_sum_witness :
  let alphas := fun _ : Z => 1 / 5 in
  let srcs := [mkSource 2 0 1; mkSource 2 0 3] in
  let amount := fun crnt : R =>
    source_term alphas 3 2 1 (source_amplitude crnt (1 / 2)) (1 / 10) 1 1 in
  (exists s',
     add_sources alphas 6 3 0 (1 / 2) (1 / 10) 1 1 srcs create_array = Done s'
     /\ s' (INDEX 3 2 1) = 0 + (amount 1 + (amount 3 + 0)))
  /\ add_sources alphas 6 3 0 (1 / 2) (1 / 10) 1 1 [mkSource 2 0 1; mkSource 7 0 1]
       create_array
     = Fatal OutOfRangeSample.
Proof.
  intros alphas srcs amount.
  assert (E0 : lround (0 / 1) = 0%Z).
  { replace (0 / 1) with (IZR 0) by lra. apply lround_IZR. }
  assert (E2 : lround ((2 + 0) / 1) = 2%Z).
  { replace ((2 + 0) / 1) with (IZR 2) by lra. apply lround_IZR. }
  assert (E7 : lround ((7 + 0) / 1) = 7%Z).
  { replace ((7 + 0) / 1) with (IZR 7) by lra. apply lround_IZR. }
  split.
  - destruct (proj1 (add_sources_sum alphas 6 3 0 (1 / 2) (1 / 10) 1 1 srcs create_array))
      as (s' & Hs' & Hk).
    + repeat constructor; cbn [src_sz src_sr]; rewrite ?E0, ?E2; lia.
    + exists s'. split; [exact Hs'|].
      rewrite Hk. cbn [fold_right srcs src_sz src_sr src_crnt].
      unfold create_array, amount. rewrite !E0, !E2.
      change (INDEX 3 2 (1 + 0) =? INDEX 3 2 1)%Z with true. cbv iota. reflexivity.
  - apply (proj2 (add_sources_sum alphas 6 3 0 (1 / 2) (1 / 10) 1 1
                    [mkSource 2 0 1; mkSource 7 0 1] create_array)).
    apply Exists_cons_tl. apply Exists_cons_hd.
    cbn [src_sz src_sr]. rewrite E7. lia.
Defined.

(** ** main: the lines of the output file *)

Lemma for_loop_collect {V : Type} (f : Z -> V) (n : nat) :
  for_loop 0 (Z.of_nat n) (fun i rows => rows ++ [f i]) []
  = map (fun k => f (Z.of_nat k)) (seq 0 n).
Proof.
  induction n as [|n IH].
  - now rewrite for_loop_empty by lia.
  - replace (Z.of_nat (S n)) with (Z.of_nat n + 1)%Z by lia.
    rewrite for_loop_last by lia. rewrite IH.
    rewrite seq_S, map_app. reflexivity.
Qed.

Lemma for_loop_collect_nth {V : Type} (f : Z -> V) (hi i : Z) (d : V) :
  (0 <= i < hi)%Z ->
  length (for_loop 0 hi (fun i rows => rows ++ [f i]) []) = Z.to_nat hi
  /\ nth (Z.to_nat i) (for_loop 0 hi (fun i rows => rows ++ [f i]) []) d = f i.
Proof.
  intros Hi. replace hi with (Z.of_nat (Z.to_nat hi)) at 1 3 by lia.
  rewrite for_loop_collect. split.
  - now rewrite length_map, length_seq.
  - rewrite (nth_indep _ d (f (Z.of_nat 0))) by (rewrite length_map, length_seq; lia).
    rewrite (map_nth (fun k => f (Z.of_nat k)) (seq 0 (Z.to_nat hi)) 0%nat).
    rewrite seq_nth by lia. f_equal. lia.
Qed.

Lemma downsampled_index (n i : Z) :
  (0 < n)%Z -> (0 <= i < 1000)%Z ->
  Z.quot (i * n) 1000 = (i * n / 1000)%Z /\ (0 <= i * n / 1000 < n)%Z.
Proof.
  intros Hn Hi. split.
  - apply Z.quot_div_nonneg; nia.
  - split.
    + apply Z.div_pos; nia.
    + apply Z.div_lt_upper_bound; nia.
Qed.





(** ** File names and the command line *)

Lemma strlen_append (a b : string) :
  strlen (String.append a b) = (strlen a + strlen b)%Z.
Proof.
  unfold strlen. induction a as [|ch a IH]; cbn [String.append String.length].
  - lia.
  - lia.
Qed.

Lemma strlen_nonneg (a : string) : (0 <= strlen a)%Z.
Proof. unfold strlen. lia. Qed.

Lemma before_dot_some (s pre : string) :
  before_dot s = Some pre ->
  before_dot pre = None
  /\ exists rest, s = String.append pre (String "."%char rest).
Proof.
  revert pre. induction s as [|ch s IH]; intros pre H; cbn [before_dot] in H.
  - discriminate.
  - destruct (Ascii.eqb_spec ch "."%char) as [->|Hne].
    + injection H as <-. split; [reflexivity|]. now exists s.
    + destruct (before_dot s) as [pre'|] eqn:E; [|discriminate].
      injection H as <-. destruct (IH pre' eq_refl) as [Hnone [rest ->]].
      split.
      * cbn [before_dot]. destruct (Ascii.eqb_spec ch "."%char); [contradiction|].
        now rewrite Hnone.
      * now exists rest.
Qed.

Lemma before_dot_first (pre rest : string) :
  before_dot pre = None ->
  before_dot (String.append pre (String "."%char rest)) = Some pre.
Proof.
  induction pre as [|ch pre IH]; intros H.
  - reflexivity.
  - cbn [before_dot String.append] in *.
    destruct (Ascii.eqb ch "."%char); [discriminate|].
    destruct (before_dot pre); [discriminate|].
    now rewrite IH.
Qed.

(** X19.  [get_io_filenames].  An argument of [FILENAME_MAX - 4]
    characters or more stops the program.  A shorter argument without a
    ['.'] is the base name: both default extensions are appended to it.
    An argument with a ['.'] is the input file name as it stands, and the
    output file name is what precedes its FIRST ['.'] followed by the
    output extension, so that everything after the first dot is dropped,
    directories included.  With extensions of at most 4 characters both
    names fit into [FILENAME_MAX] characters with their terminator. *)
Theorem get_io_filenames_cases (FILENAME_MAX : Z)
    (argstring inf_extension outf_extension : string) :
  let names := get_io_filenames FILENAME_MAX argstring inf_extension outf_extension in
  ((strlen argstring >= FILENAME_MAX - 4)%Z -> names = Fatal FilenameTooLong)
  /\ ((strlen argstring < FILENAME_MAX - 4)%Z ->
      (before_dot argstring = None ->
         names = Done (String.append argstring inf_extension,
                       String.append argstring outf_extension))
      /\ (forall pre rest,
            before_dot pre = None ->
            argstring = String.append pre (String "."%char rest) ->
            names = Done (argstring, String.append pre outf_extension))
      /\ ((strlen inf_extension <= 4)%Z -> (strlen outf_extension <= 4)%Z ->
          exists infilename outfilename,
            names = Done (infilename, outfilename)
            /\ (strlen infilename < FILENAME_MAX)%Z
            /\ (strlen outfilename < FILENAME_MAX)%Z)).
Proof.
  intros names. unfold names, get_io_filenames, get_filename. split.
  - intros H. destruct (Z.ltb_spec (strlen argstring) (FILENAME_MAX - 4)); [lia|].
    reflexivity.
  - intros H. destruct (Z.ltb_spec (strlen argstring) (FILENAME_MAX - 4)); [|lia].
    repeat split.
    + intros ->. reflexivity.
    + intros pre rest Hpre ->. now rewrite before_dot_first.
    + intros Hin Hout. destruct (before_dot argstring) as [pre|] eqn:E.
      * destruct (before_dot_some _ _ E) as [_ [rest Hs]].
        do 2 eexists. split; [reflexivity|].
        rewrite strlen_append. rewrite Hs, strlen_append in H.
        pose proof (strlen_nonneg (String "."%char rest)).
        pose proof (strlen_nonneg pre).
        split; [rewrite Hs, strlen_append|]; lia.
      * do 2 eexists. split; [reflexivity|].
        rewrite !strlen_append. lia.
Qed.

Lemma get_io_filenames_cases_witness :
  get_io_filenames 4096 "../data/run.par" ".par" ".dat"
  = Done ("../data/run.par", ".dat")%string
  /\ get_io_filenames 4096 "run" ".par" ".dat" = Done ("run.par", "run.dat")%string.
Proof.
  split.
  - destruct (get_io_filenames_cases 4096 "../data/run.par" ".par" ".dat") as [_ H].
    destruct (H ltac:(cbn; lia)) as (_ & Hdot & _).
    apply (Hdot ""%string "./data/run.par"%string); reflexivity.
  - destruct (get_io_filenames_cases 4096 "run" ".par" ".dat") as [_ H].
    destruct (H ltac:(cbn; lia)) as (Hbase & _).
    apply Hbase. reflexivity.
Defined.

(** The command line written out in full: every argument followed by one
    space. *)
Lemma assemble_rest_all (args : list string) (i length : Z) (command : string) :
  (length + fold_right (fun arg n => strlen arg + 1 + n) 0 args
   <= MAX_COMMAND_LENGTH)%Z ->
  assemble_rest args i length command
  = ((i + Z.of_nat (List.length args))%Z,
     fold_left (fun c arg => String.append (String.append c arg) " ") args command).
Proof.
  revert i length command. induction args as [|arg rest IH]; intros i len command H.
  - cbn. f_equal. lia.
  - cbn [assemble_rest fold_left]. cbn [fold_right] in H.
    pose proof (strlen_nonneg arg).
    assert (0 <= fold_right (fun arg n => strlen arg + 1 + n) 0 rest)%Z.
    { clear. induction rest as [|a r IHr]; cbn [fold_right]; [lia|].
      pose proof (strlen_nonneg a). lia. }
    destruct (Z.gtb_spec (len + (strlen arg + 1)) MAX_COMMAND_LENGTH); [lia|].
    rewrite IH by lia. f_equal. cbn [List.length]. lia.
Qed.

Lemma assemble_rest_bounds (args : list string) (i length : Z) (command : string) :
  strlen command = length -> (length <= MAX_COMMAND_LENGTH)%Z ->
  (strlen (snd (assemble_rest args i length command)) <= MAX_COMMAND_LENGTH + 3)%Z
  /\ (i <= fst (assemble_rest args i length command)
      <= i + Z.of_nat (List.length args))%Z.
Proof.
  revert i length command. induction args as [|arg rest IH]; intros i len command E H.
  - cbn [assemble_rest fst snd List.length]. lia.
  - cbn [assemble_rest].
    destruct (Z.gtb_spec (len + (strlen arg + 1)) MAX_COMMAND_LENGTH).
    + cbn [fst snd List.length]. rewrite strlen_append, E.
      change (strlen "...") with 3%Z. lia.
    + destruct (IH (i + 1)%Z (len + (strlen arg + 1))%Z
                  (String.append (String.append command arg) " ")) as [B1 B2].
      * rewrite !strlen_append, E. change (strlen " ") with 1%Z. lia.
      * lia.
      * cbn [List.length]. split; [exact B1 | lia].
Qed.



(** ** main: the geometry *)

Lemma lround_of_round (x d : R) : d <> 0 -> lround (round x * d / d) = lround x.
Proof.
  intros H. unfold round.
  replace (IZR (lround x) * d / d) with (IZR (lround x)) by (field; exact H).
  apply lround_IZR.
Qed.

Lemma lround_truncate (x : R) :
  0 <= x ->
  lround x = (truncate x + (if Rle_dec (/ 2) (frac_part x) then 1 else 0))%Z.
Proof.
  intros Hx. unfold lround, truncate. destruct (Rle_dec 0 x) as [_|]; [|lra].
  destruct (base_fp x) as [F0 F1]. unfold frac_part in *.
  destruct (Rle_dec (/ 2) (x - IZR (Int_part x))) as [Hhalf|Hhalf].
  - symmetry. apply Int_part_spec. rewrite plus_IZR. lra.
  - rewrite Z.add_0_r. symmetry. apply Int_part_spec. lra.
Qed.



(** X22.  The two programs do not put the interfaces on the same rows.
    From the same input they compute the same shift, grid spacing, source
    and probe positions, but 3layer rounds [lz / dz] to the nearest row
    and fit-layer drops the fraction: for an interface above the bottom of
    the cylinder the row of 3layer is the row of fit-layer plus one
    whenever the fraction of [lz / dz] is one half or more, and the same
    row otherwise. *)
Theorem interface_rows_of_the_two_programs (specified_ez1 nolayer nr nz : Z)
    (rmax zmax ez1 ez2 lz1 lz2 pz pr : R) (g3 gf : geometry) :
  let x1 := (lz1 + ge_coord_shift g3) / ge_dz g3 in
  let x2 := (lz2 + ge_coord_shift g3) / ge_dz g3 in
  geometry_3layer specified_ez1 nolayer nr nz rmax zmax ez1 ez2 lz1 lz2 pz pr
  = Done g3 ->
  geometry_fit_layer specified_ez1 nolayer nr nz rmax zmax ez1 ez2 lz1 lz2 pz pr
  = Done gf ->
  0 <= x1 -> 0 <= x2 ->
  ge_iz1 g3 = (ge_iz1 gf + (if Rle_dec (/ 2) (frac_part x1) then 1 else 0))%Z
  /\ ge_iz2 g3 = (ge_iz2 gf + (if Rle_dec (/ 2) (frac_part x2) then 1 else 0))%Z
  /\ ge_coord_shift g3 = ge_coord_shift gf
  /\ ge_dz g3 = ge_dz gf /\ ge_dr g3 = ge_dr gf
  /\ ge_sz g3 = ge_sz gf /\ ge_pz g3 = ge_pz gf /\ ge_pr g3 = ge_pr gf.
Proof.
  unfold geometry_3layer, geometry_fit_layer, geometry_setup. cbv zeta.
  intros H3 Hf.
  match type of H3 with
  | (if ?b then _ else _) = _ => destruct b; [discriminate|]
  end.
  match type of Hf with
  | (if ?b then _ else _) = _ => destruct b; [discriminate|]
  end.
  injection H3 as <-. injection Hf as <-.
  cbn [ge_rmax ge_zmax ge_coord_shift ge_sz ge_pz ge_pr ge_lz1 ge_lz2 ge_dr ge_dz
       ge_iz1 ge_iz2].
  intros Hx1 Hx2. repeat split.
  - now apply lround_truncate.
  - now apply lround_truncate.
Qed.

Lemma interface_rows_of_the_two_programs_witness :
  exists g3 gf,
    geometry_3layer 0 0 4 8 4 8 (-1) (-1) (-13 / 5) (0) 1 0 = Done g3
    /\ geometry_fit_layer 0 0 4 8 4 8 (-1) (-1) (-13 / 5) (0) 1 0 = Done gf
    /\ ge_iz1 g3 = 3%Z /\ ge_iz1 gf = 2%Z
    /\ ge_iz2 g3 = 5%Z /\ ge_iz2 gf = 5%Z.
Proof.
  assert (Ex1 : (-13 / 5 + (8 - (-13 / 5 + 0)) / 2) / (8 / 8) = 27 / 10) by lra.
  assert (Ex2 : (0 + (8 - (-13 / 5 + 0)) / 2) / (8 / 8) = 53 / 10) by lra.
  assert (I2 : Int_part (27 / 10) = 2%Z) by (symmetry; apply Int_part_spec; lra).
  assert (I5 : Int_part (53 / 10) = 5%Z) by (symmetry; apply Int_part_spec; lra).
  assert (T1 : truncate (27 / 10) = 2%Z).
  { unfold truncate. destruct (Rle_dec 0 (27 / 10)); [exact I2 | lra]. }
  assert (T2 : truncate (53 / 10) = 5%Z).
  { unfold truncate. destruct (Rle_dec 0 (53 / 10)); [exact I5 | lra]. }
  assert (F1 : frac_part (27 / 10) = 7 / 10) by (unfold frac_part; rewrite I2; lra).
  assert (F2 : frac_part (53 / 10) = 3 / 10) by (unfold frac_part; rewrite I5; lra).
  assert (L1 : lround (27 / 10) = 3%Z).
  { rewrite lround_truncate, T1, F1 by lra.
    destruct (Rle_dec (/ 2) (7 / 10)); [reflexivity | lra]. }
  assert (L2 : lround (53 / 10) = 5%Z).
  { rewrite lround_truncate, T2, F2 by lra.
    destruct (Rle_dec (/ 2) (3 / 10)); [lra | reflexivity]. }
  destruct (geometry_3layer 0 0 4 8 4 8 (-1) (-1) (-13 / 5) 0 1 0) as [g3|e] eqn:H3;
    [destruct (geometry_fit_layer 0 0 4 8 4 8 (-1) (-1) (-13 / 5) 0 1 0)
       as [gf|e] eqn:Hf|].
  - exists g3, gf. split; [reflexivity|]. split; [reflexivity|].
    assert (Hf3 : ge_iz1 gf = 2%Z /\ ge_iz2 gf = 5%Z).
    { unfold geometry_fit_layer, geometry_setup in Hf. cbv zeta in Hf.
      cbn [Z.eqb] in Hf. rewrite Ex1, Ex2, T1, T2 in Hf.
      change ((5 - 2 <? 2)%Z && true)%bool with false in Hf.
      injection Hf as <-. cbn. auto. }
    assert (Hs3 : ge_coord_shift g3 = (8 - (-13 / 5 + 0)) / 2 /\ ge_dz g3 = 8 / 8).
    { unfold geometry_3layer, geometry_setup in H3. cbv zeta in H3.
      cbn [Z.eqb] in H3. rewrite Ex1, Ex2, L1, L2 in H3.
      change ((5 - 3 <? 2)%Z && true)%bool with false in H3.
      injection H3 as <-. cbn. auto. }
    destruct Hf3 as [G1 G2]. destruct Hs3 as [S1 S2].
    destruct (interface_rows_of_the_two_programs 0 0 4 8 4 8 (-1) (-1) (-13 / 5) 0 1 0
                g3 gf H3 Hf) as (R1 & R2 & _).
    + rewrite S1, S2, Ex1. lra.
    + rewrite S1, S2, Ex2. lra.
    + rewrite S1, S2, Ex1, F1, G1 in R1. rewrite S1, S2, Ex2, F2, G2 in R2.
      destruct (Rle_dec (/ 2) (7 / 10)); [|lra].
      destruct (Rle_dec (/ 2) (3 / 10)); [lra|].
      repeat split; assumption.
  - exfalso. unfold geometry_fit_layer, geometry_setup in Hf. cbv zeta in Hf.
    cbn [Z.eqb] in Hf. rewrite Ex1, Ex2, T1, T2 in Hf.
    change ((5 - 2 <? 2)%Z && true)%bool with false in Hf. discriminate.
  - exfalso. unfold geometry_3layer, geometry_setup in H3. cbv zeta in H3.
    cbn [Z.eqb] in H3. rewrite Ex1, Ex2, L1, L2 in H3.
    change ((5 - 3 <? 2)%Z && true)%bool with false in H3. discriminate.
Defined.
